(** * SPC computation core of motor-sqc-project: a shallow embedding

    The Python sources embedded here are
    - [src/utils/constants.py]            (control constants, spec limits),
    - [src/utils/statistics.py]           ([StatisticalCalculator]),
    - [src/analysis/control_charts.py]    ([ControlCharts]),
    - [src/analysis/capability_analysis.py] ([ProcessCapability]),
    - [src/analysis/pareto_analysis.py]   ([ParetoAnalysis]),
    - [src/analysis/descriptive_stats.py] ([_interpret_distribution]),
    - [src/utils/data_loader.py]          ([get_pareto_data]).

    Numbers.  The program computes on numpy [float64] values.  They are
    idealised here: a finite value is an exact rational (no rounding, no
    overflow, one unsigned zero), while the three non-finite values
    [inf], [-inf] and [nan] and their IEEE propagation are kept, because
    numpy answers a division by zero with them instead of raising.
    Plain Python numbers (the keyword parameters [lambda_val], [L], [k],
    [h], the specification limits) are rationals; a division between two
    of them raises [ZeroDivisionError] as in Python.

    Exactness.  numpy rounds every operation, so a float mean of [n]
    copies of [c] need not be [c] (for 55.3 it is 55.29999999999999), and
    a sum of percents need not be 100.  A property that would rest on
    such an equality is stated only for inputs on which the float
    computation is exact (see [float_exact_constant]).  Likewise the
    power in [ewma_var_factor] is exact and unbounded, where Python's
    float power raises [OverflowError] once it leaves the float range;
    the properties about EWMA exceptions are stated for
    [0 <= lambda_val <= 2], where the power is at most 1. *)

From Stdlib Require Import String QArith Qround Qabs Qminmax ZArith List Bool.
From Stdlib Require Import Lia Lqa Morphisms Setoid PeanoNat Sorted Permutation.
From Stdlib Require OrderedTypeEx.
Import ListNotations.

Open Scope Q_scope.

(** ** Python exceptions and results *)

Inductive exn : Type :=
| IndexError
| ValueError
| KeyError
| ZeroDivisionError.

Inductive result (A : Type) : Type :=
| Ok (a : A)
| Raise (e : exn).

Arguments Ok {A} a.
Arguments Raise {A} e.

Definition bind {A B : Type} (m : result A) (f : A -> result B) : result B :=
  match m with
  | Ok a => f a
  | Raise e => Raise e
  end.

Notation "x <- m ;; k" := (bind m (fun x => k))
  (at level 61, m at next level, right associativity).

Definition raises {A : Type} (m : result A) : Prop :=
  exists e, m = Raise e.

(** ** Idealised float64 *)

Module F64.

Inductive float64 : Type :=
| Fin (q : Q)
| PInf
| NInf
| NaN.

Definition of_Z (z : Z) : float64 := Fin (inject_Z z).
Definition of_nat (n : nat) : float64 := Fin (inject_Z (Z.of_nat n)).

Definition Qltb (x y : Q) : bool := negb (Qle_bool y x).

Definition is_finite (a : float64) : bool :=
  match a with Fin _ => true | _ => false end.

Definition is_nan (a : float64) : bool :=
  match a with NaN => true | _ => false end.

Definition fopp (a : float64) : float64 :=
  match a with
  | Fin x => Fin (- x)
  | PInf => NInf
  | NInf => PInf
  | NaN => NaN
  end.

Definition fadd (a b : float64) : float64 :=
  match a, b with
  | NaN, _ | _, NaN => NaN
  | Fin x, Fin y => Fin (x + y)
  | PInf, NInf | NInf, PInf => NaN
  | PInf, _ | _, PInf => PInf
  | NInf, _ | _, NInf => NInf
  end.

Definition fsub (a b : float64) : float64 := fadd a (fopp b).

(** The sign of a finite value decides what a product or a quotient with
    an infinity or a zero becomes. *)
Definition signed_inf (x : Q) : float64 :=
  match Qcompare x 0 with
  | Gt => PInf
  | Lt => NInf
  | Eq => NaN
  end.

Definition fmul (a b : float64) : float64 :=
  match a, b with
  | NaN, _ | _, NaN => NaN
  | Fin x, Fin y => Fin (x * y)
  | Fin x, PInf | PInf, Fin x => signed_inf x
  | Fin x, NInf | NInf, Fin x => signed_inf (- x)
  | PInf, PInf | NInf, NInf => PInf
  | PInf, NInf | NInf, PInf => NInf
  end.

(** numpy division: [x / 0] is [inf], [-inf] or [nan] by the sign of [x];
    no exception is raised. *)
Definition fdiv (a b : float64) : float64 :=
  match a, b with
  | NaN, _ | _, NaN => NaN
  | Fin x, Fin y => if Qeq_bool y 0 then signed_inf x else Fin (x / y)
  | Fin _, PInf | Fin _, NInf => Fin 0
  | PInf, Fin y => if Qltb y 0 then NInf else PInf
  | NInf, Fin y => if Qltb y 0 then PInf else NInf
  | PInf, PInf | PInf, NInf | NInf, PInf | NInf, NInf => NaN
  end.

Definition fabs (a : float64) : float64 :=
  match a with
  | Fin x => Fin (Qabs x)
  | PInf | NInf => PInf
  | NaN => NaN
  end.

(** Comparisons: every comparison with [nan] is false. *)
Definition flt (a b : float64) : bool :=
  match a, b with
  | NaN, _ | _, NaN => false
  | Fin x, Fin y => Qltb x y
  | NInf, NInf | PInf, _ | _, NInf => false
  | NInf, _ | _, PInf => true
  end.

Definition fle (a b : float64) : bool :=
  match a, b with
  | NaN, _ | _, NaN => false
  | Fin x, Fin y => Qle_bool x y
  | NInf, _ | _, PInf => true
  | PInf, _ | _, NInf => false
  end.

Definition fgt (a b : float64) : bool := flt b a.
Definition fge (a b : float64) : bool := fle b a.

(** [a == b] of Python on floats. *)
Definition feqb (a b : float64) : bool :=
  match a, b with
  | Fin x, Fin y => Qeq_bool x y
  | PInf, PInf | NInf, NInf => true
  | _, _ => false
  end.

(** Python's builtin [max(a, b)] keeps [a] unless [b > a]; [min(a, b)]
    keeps [a] unless [b < a]. *)
Definition py_max (a b : float64) : float64 := if fgt b a then b else a.
Definition py_min (a b : float64) : float64 := if flt b a then b else a.

(** [np.sqrt].  The root of a non-negative rational is taken to
    [sqrt_digits] decimal places, truncated; it is exact on the squares of
    decimals of that many places. *)
Definition sqrt_digits : Z := 15.

Definition Qsqrt (x : Q) : Q :=
  let scale := (10 ^ sqrt_digits)%Z in
  inject_Z (Z.sqrt (Qfloor (x * inject_Z (scale * scale)))) / inject_Z scale.

Definition fsqrt (a : float64) : float64 :=
  match a with
  | Fin x => if Qltb x 0 then NaN else Fin (Qsqrt x)
  | PInf => PInf
  | NInf | NaN => NaN
  end.

(** [x ** n] for a Python float and a non-negative integer exponent. *)
Definition fpow (a : float64) (n : nat) : float64 :=
  Nat.iter n (fun acc => fmul acc a) (Fin 1).

(** [round(x, ndigits)]: scale by [10^ndigits], round to the nearest
    integer with ties to even, scale back.  Non-finite values are returned
    unchanged. *)
Definition rint (x : Q) : Z :=
  let n := Qfloor x in
  match Qcompare (x - inject_Z n) (1 # 2) with
  | Lt => n
  | Gt => (n + 1)%Z
  | Eq => if Z.even n then n else (n + 1)%Z
  end.

Definition Qround_nd (x : Q) (ndigits : nat) : Q :=
  let scale := inject_Z (10 ^ Z.of_nat ndigits) in
  inject_Z (rint (x * scale)) / scale.

Definition round (a : float64) (ndigits : nat) : float64 :=
  match a with
  | Fin x => Fin (Qround_nd x ndigits)
  | _ => a
  end.

(** *** numpy reductions over arrays *)

Definition np_sum (l : list float64) : float64 := fold_left fadd l (Fin 0).

(** [np.mean]: the mean of an empty array is [0/0 = nan]. *)
Definition np_mean (l : list float64) : float64 :=
  fdiv (np_sum l) (of_nat (length l)).

(** [np.diff]: [out[i] = a[i+1] - a[i]]. *)
Fixpoint np_diff (l : list float64) : list float64 :=
  match l with
  | x :: (y :: _) as t => fsub y x :: np_diff t
  | _ => []
  end.

(** [np.std(data, ddof=1)]: the divisor is [max(N - 1, 0)], so a series of
    fewer than two points gives [0/0 = nan]. *)
Definition np_std_ddof1 (l : list float64) : float64 :=
  let m := np_mean l in
  let sq := map (fun x => let d := fsub x m in fmul d d) l in
  fsqrt (fdiv (np_sum sq) (of_nat (length l - 1))).

(** [np.max] and [np.min] of a non-empty array; [nan] propagates. *)
Definition np_max2 (a b : float64) : float64 :=
  if is_nan a || is_nan b then NaN else if flt a b then b else a.
Definition np_min2 (a b : float64) : float64 :=
  if is_nan a || is_nan b then NaN else if flt b a then b else a.

Definition np_max (l : list float64) : float64 :=
  match l with
  | [] => NaN
  | x :: t => fold_left np_max2 t x
  end.
Definition np_min (l : list float64) : float64 :=
  match l with
  | [] => NaN
  | x :: t => fold_left np_min2 t x
  end.

(** *** Value equality

    Rationals are compared up to [Qeq]; [nan] denotes one value here. *)
Definition feqv (a b : float64) : Prop :=
  match a, b with
  | Fin x, Fin y => x == y
  | PInf, PInf | NInf, NInf | NaN, NaN => True
  | _, _ => False
  end.

End F64.
Export F64.

Declare Scope f64_scope.
Delimit Scope f64_scope with f64.
Bind Scope f64_scope with float64.
Infix "+" := fadd : f64_scope.
Infix "-" := fsub : f64_scope.
Infix "*" := fmul : f64_scope.
Infix "/" := fdiv : f64_scope.
Infix "<?" := flt (at level 70) : f64_scope.
Infix ">?" := fgt (at level 70) : f64_scope.
Infix "<=?" := fle (at level 70) : f64_scope.
Infix "=~" := feqv (at level 70) : f64_scope.
Coercion Fin : Q >-> float64.

Open Scope f64_scope.

(** ** Python containers: dictionaries, arrays, ranges *)

Section PyContainers.
Context {A : Type}.

(** [d.get(k)] on a dictionary with integer keys, [None] when absent. *)
Fixpoint dict_find (d : list (Z * A)) (k : Z) : option A :=
  match d with
  | [] => None
  | (k', v) :: d' => if (k' =? k)%Z then Some v else dict_find d' k
  end.

(** [d.get(k, default)]. *)
Definition dict_get (d : list (Z * A)) (k : Z) (default : A) : A :=
  match dict_find d k with
  | Some v => v
  | None => default
  end.

(** The same for string keys. *)
Fixpoint sdict_find (d : list (string * A)) (k : string) : option A :=
  match d with
  | [] => None
  | (k', v) :: d' => if String.eqb k' k then Some v else sdict_find d' k
  end.

(** [a[i]] and [a[i] = v] on an array: [IndexError] out of range. *)
Definition getitem (a : list A) (i : nat) : result A :=
  match nth_error a i with
  | Some x => Ok x
  | None => Raise IndexError
  end.

Definition setitem (a : list A) (i : nat) (v : A) : result (list A) :=
  if (i <? length a)%nat
  then Ok (firstn i a ++ v :: skipn (S i) a)
  else Raise IndexError.

(** [a[i:i+n]] for [0 <= i] and [0 < n]; a slice is clipped, never
    raises. *)
Definition slice (a : list A) (i n : nat) : list A := firstn n (skipn i a).

(** [a[-n:]] for [0 < n]. *)
Definition last_n (a : list A) (n : nat) : list A :=
  skipn (length a - n) a.

(** [for i in idx: s = body(i, s)], stopping at the first exception. *)
Fixpoint for_each {S : Type} (idx : list nat) (body : nat -> S -> result S)
         (s : S) : result S :=
  match idx with
  | [] => Ok s
  | i :: idx' => s' <- body i s ;; for_each idx' body s'
  end.

(** [[f(i) for i in idx]] where [f] may raise. *)
Fixpoint map_each {B : Type} (idx : list nat) (f : nat -> result B)
  : result (list B) :=
  match idx with
  | [] => Ok []
  | i :: idx' => x <- f i ;; xs <- map_each idx' f ;; Ok (x :: xs)
  end.
End PyContainers.

(** [range(start, stop)]. *)
Definition py_range (start stop : nat) : list nat := seq start (stop - start).

(** [range(0, stop, step)]: a zero step is a [ValueError], a negative step
    from 0 gives the empty range. *)
Definition py_range_step (stop : nat) (step : Z) : result (list nat) :=
  if (step =? 0)%Z then Raise ValueError
  else if (step <? 0)%Z then Ok []
  else
    let s := Z.to_nat step in
    Ok (map (fun j => (j * s)%nat) (seq 0 ((stop + s - 1) / s))).

(** [np.zeros(n)]. *)
Definition np_zeros (n : nat) : list float64 := repeat (Fin 0) n.

(** A Python division of two plain numbers. *)
Definition py_div (a b : Q) : result Q :=
  if Qeq_bool b 0 then Raise ZeroDivisionError else Ok (a / b)%Q.

(** [sum(1 for x in subset if cond(x))]. *)
Definition count_if {A : Type} (cond : A -> bool) (subset : list A) : nat :=
  length (filter cond subset).

(** [list(set(l))] on indices: every index once.  The order in which
    CPython walks a set is not part of the model; statements about the
    result speak of membership only. *)
Definition list_set (l : list nat) : list nat := nodup Nat.eq_dec l.

(** [Series.sum()] of pandas: [nan] entries are skipped. *)
Definition pd_sum (l : list float64) : float64 :=
  np_sum (filter (fun x => negb (is_nan x)) l).

(** ** src/utils/constants.py *)

Module Constants.

Record control_constants : Type := {
  A2 : Q;
  D3 : Q;
  D4 : Q;
  d2 : Q
}.

Definition CONTROL_CONSTANTS : list (Z * control_constants) :=
  [ (1%Z, {| A2 := 2.659; D3 := 0; D4 := 3.267; d2 := 1.128 |});
    (2%Z, {| A2 := 1.880; D3 := 0; D4 := 3.267; d2 := 1.128 |});
    (3%Z, {| A2 := 1.023; D3 := 0; D4 := 2.574; d2 := 1.693 |});
    (4%Z, {| A2 := 0.729; D3 := 0; D4 := 2.282; d2 := 2.059 |});
    (5%Z, {| A2 := 0.577; D3 := 0; D4 := 2.114; d2 := 2.326 |}) ]%Q.

(** [CONTROL_CONSTANTS[k]]: the subscript of a present key. *)
Definition CONTROL_CONSTANTS_item (k : Z) : result control_constants :=
  match dict_find CONTROL_CONSTANTS k with
  | Some c => Ok c
  | None => Raise KeyError
  end.

Record spec_limits : Type := {
  USL : Q;
  LSL : Q;
  Target : option Q
}.

Definition SPEC_LIMITS : list (string * spec_limits) :=
  [ ("Toplam_Uretim_Suresi"%string,
     {| USL := 70; LSL := 55; Target := Some 60 |});
    ("Aktif_Calisma_Saat"%string,
     {| USL := 60; LSL := 50; Target := Some 55 |}) ]%Q.

End Constants.

(** ** src/utils/statistics.py *)

Module StatisticalCalculator.
Import Constants.

(** The dictionary returned by [calculate_control_limits]; only the
    ['xbar'] branch has the key ['sigma']. *)
Record limits : Type := {
  lim_UCL : float64;
  lim_CL : float64;
  lim_LCL : float64;
  lim_sigma : option float64
}.

(** The loop shared by the ['xbar'] (n > 1) and ['r'] branches:
    [for i in range(0, len(data), n): subgroup = data[i:i+n]], keeping
    [np.max(subgroup) - np.min(subgroup)] of every full subgroup. *)
Definition subgroup_ranges (data : list float64) (n : Z)
  : result (list float64) :=
  idx <- py_range_step (length data) n ;;
  Ok (flat_map
        (fun i =>
           let subgroup := slice data i (Z.to_nat n) in
           if (Z.of_nat (length subgroup) =? n)%Z
           then [np_max subgroup - np_min subgroup]
           else [])
        idx).

Definition calculate_control_limits
           (data : list float64) (chart_type : string) (subgroup_size : Z)
  : result (option limits) :=
  let n := subgroup_size in
  fallback <- CONTROL_CONSTANTS_item 1 ;;
  let constants := dict_get CONTROL_CONSTANTS n fallback in
  if String.eqb chart_type "xbar" then
    let x_bar := np_mean data in
    sigma_estimate <-
      (if (n =? 1)%Z then
         let mr := map fabs (np_diff data) in
         let mr_bar := np_mean mr in
         Ok (mr_bar / Fin (d2 constants))
       else
         ranges <- subgroup_ranges data n ;;
         let r_bar := np_mean ranges in
         Ok (r_bar / Fin (d2 constants))) ;;
    let ucl := x_bar + of_Z 3 * sigma_estimate in
    let cl := x_bar in
    let lcl := x_bar - of_Z 3 * sigma_estimate in
    Ok (Some {| lim_UCL := round ucl 2;
                lim_CL := round cl 2;
                lim_LCL := round lcl 2;
                lim_sigma := Some (round sigma_estimate 3) |})
  else if String.eqb chart_type "mr" then
    let mr := map fabs (np_diff data) in
    let mr_bar := np_mean mr in
    let ucl := Fin (D4 constants) * mr_bar in
    let cl := mr_bar in
    let lcl := Fin (D3 constants) * mr_bar in
    Ok (Some {| lim_UCL := round ucl 2;
                lim_CL := round cl 2;
                lim_LCL := round lcl 2;
                lim_sigma := None |})
  else if String.eqb chart_type "r" then
    ranges <- subgroup_ranges data n ;;
    let r_bar := np_mean ranges in
    let ucl := Fin (D4 constants) * r_bar in
    let cl := r_bar in
    let lcl := Fin (D3 constants) * r_bar in
    Ok (Some {| lim_UCL := round ucl 2;
                lim_CL := round cl 2;
                lim_LCL := round lcl 2;
                lim_sigma := None |})
  else
    (* no branch taken: the function falls off its end *)
    Ok None.

(** The five strings of the nested [interpret_capability]. *)
Inductive interpretation : Type :=
| Yetersiz        (* "Yetersiz (Acil mudahale gerekli)", Cpk < 0.67 *)
| Zayif           (* "Zayif (Iyilestirme gerekli)",      Cpk < 1.00 *)
| KabulEdilebilir (* "Kabul edilebilir (3-sigma)",       Cpk < 1.33 *)
| Iyi             (* "Iyi (4-sigma)",                    Cpk < 1.67 *)
| Mukemmel.       (* "Mukemmel (5-sigma+)",              otherwise  *)

Definition interpret_capability (cpk_value : float64) : interpretation :=
  if cpk_value <? Fin 0.67 then Yetersiz
  else if cpk_value <? Fin 1.00 then Zayif
  else if cpk_value <? Fin 1.33 then KabulEdilebilir
  else if cpk_value <? Fin 1.67 then Iyi
  else Mukemmel.

Record capability : Type := {
  cap_Cp : float64;
  cap_Cpk : float64;
  cap_Cpm : float64;
  cap_CPU : float64;
  cap_CPL : float64;
  cap_mean : float64;
  cap_std : float64;
  cap_interpretation : interpretation;
  cap_sigma_level : float64;
  cap_PPM : float64
}.

Section Capability.
(** [scipy.stats.norm.cdf], library code kept abstract. *)
Variable norm_cdf : float64 -> float64.

Definition calculate_process_capability
           (data : list float64) (spec_limits : option spec_limits)
  : option capability :=
  match spec_limits with
  | None => None
  | Some spec =>
    let mean := np_mean data in
    let std := np_std_ddof1 data in
    let usl := USL spec in
    let lsl := LSL spec in
    let target :=
      match Target spec with
      | Some t => t
      | None => ((usl + lsl) / 2)%Q
      end in
    let cp := Fin (usl - lsl) / (of_Z 6 * std) in
    let cpu := (Fin usl - mean) / (of_Z 3 * std) in
    let cpl := (mean - Fin lsl) / (of_Z 3 * std) in
    let cpk := py_min cpu cpl in
    let msd := std * std + (mean - Fin target) * (mean - Fin target) in
    let cpm := Fin (usl - lsl) / (of_Z 6 * fsqrt msd) in
    let z_usl := (Fin usl - mean) / std in
    let z_lsl := (Fin lsl - mean) / std in
    let ppm_usl := (of_Z 1 - norm_cdf z_usl) * of_Z 1000000 in
    let ppm_lsl := norm_cdf z_lsl * of_Z 1000000 in
    let ppm_total := ppm_usl + ppm_lsl in
    Some {| cap_Cp := round cp 3;
            cap_Cpk := round cpk 3;
            cap_Cpm := round cpm 3;
            cap_CPU := round cpu 3;
            cap_CPL := round cpl 3;
            cap_mean := round mean 2;
            cap_std := round std 3;
            cap_interpretation := interpret_capability cpk;
            cap_sigma_level := round (of_Z 3 + cpk) 1;
            cap_PPM := round ppm_total 0 |}
  end.
End Capability.

Record ewma : Type := {
  ewma_values : list float64;
  ewma_UCL : list float64;
  ewma_LCL : list float64;
  ewma_center_line : float64
}.

(** The body of [for i in range(1, len(data))]:
    [z[i] = lambda_val * data[i] + (1 - lambda_val) * z[i-1]]. *)
Definition ewma_step (data : list float64) (lambda_val : Q)
           (i : nat) (z : list float64) : result (list float64) :=
  x_i <- getitem data i ;;
  z_prev <- getitem z (i - 1) ;;
  setitem z i (Fin lambda_val * x_i + Fin (1 - lambda_val)%Q * z_prev).

(** [lambda_val / (2 - lambda_val) * (1 - (1 - lambda_val)**(2*(i+1)))],
    computed on plain Python numbers.  The power is exact here; Python's
    float power raises [OverflowError] when its result leaves the float
    range, which needs [|1 - lambda_val| > 1], that is [lambda_val]
    outside [0, 2]. *)
Definition ewma_var_factor (lambda_val : Q) (i : nat) : result Q :=
  ratio <- py_div lambda_val (2 - lambda_val) ;;
  Ok (ratio * (1 - (1 - lambda_val) ^ (2 * (Z.of_nat i + 1))))%Q.

Definition calculate_ewma (data : list float64) (lambda_val L : Q)
  : result ewma :=
  let z := np_zeros (length data) in
  z <- setitem z 0%nat (np_mean data) ;;
  z <- for_each (py_range 1 (length data)) (ewma_step data lambda_val) z ;;
  let mu := np_mean data in
  let sigma := np_std_ddof1 data in
  limits <- map_each (py_range 0 (length data))
              (fun i =>
                 v <- ewma_var_factor lambda_val i ;;
                 let factor := fsqrt (Fin v) in
                 Ok (mu + Fin L * sigma * factor,
                     mu - Fin L * sigma * factor)) ;;
  Ok {| ewma_values := z;
        ewma_UCL := map fst limits;
        ewma_LCL := map snd limits;
        ewma_center_line := mu |}.

Record cusum : Type := {
  C_plus : list float64;
  C_minus : list float64;
  h_limit : Q;
  out_of_control_points : list nat
}.

(** The body of [for i in range(1, len(data))], on the pair of arrays
    [(c_plus, c_minus)]. *)
Definition cusum_step (z : list float64) (k : Q) (i : nat)
           (c : list float64 * list float64)
  : result (list float64 * list float64) :=
  let (c_plus, c_minus) := c in
  z_i <- getitem z i ;;
  p_prev <- getitem c_plus (i - 1) ;;
  c_plus <- setitem c_plus i (py_max (Fin 0) (z_i - Fin k + p_prev)) ;;
  m_prev <- getitem c_minus (i - 1) ;;
  c_minus <- setitem c_minus i (py_max (Fin 0) (fopp z_i - Fin k + m_prev)) ;;
  Ok (c_plus, c_minus).

Definition calculate_cusum (data : list float64) (k h : Q) : result cusum :=
  let mean := np_mean data in
  let std := np_std_ddof1 data in
  let z := map (fun x => (x - mean) / std) data in
  let c_plus := np_zeros (length data) in
  let c_minus := np_zeros (length data) in
  c <- for_each (py_range 1 (length data)) (cusum_step z k)
         (c_plus, c_minus) ;;
  let (c_plus, c_minus) := c in
  let out_of_control :=
    filter (fun i => (nth i c_plus NaN >? Fin h) || (nth i c_minus NaN >? Fin h))
           (py_range 0 (length data)) in
  Ok {| C_plus := c_plus;
        C_minus := c_minus;
        h_limit := h;
        out_of_control_points := out_of_control |}.

(** *** Western Electric rules on given limits *)

Record we_violations : Type := {
  we_rule1 : list nat;
  we_rule2 : list nat;
  we_rule3 : list nat;
  we_rule4 : list nat
}.

(** [control_limits['sigma']]: the key exists only in the limits of the
    ['xbar'] chart. *)
Definition limits_sigma (control_limits : limits) : result float64 :=
  match lim_sigma control_limits with
  | Some s => Ok s
  | None => Raise KeyError
  end.

Definition check_western_electric_rules
           (data : list float64) (control_limits : limits)
  : result we_violations :=
  let cl := lim_CL control_limits in
  sigma <- limits_sigma control_limits ;;
  let n := length data in
  let rule1 :=
    filter (fun i =>
              let val := nth i data NaN in
              (val >? cl + of_Z 3 * sigma) || (val <? cl - of_Z 3 * sigma))
           (py_range 0 n) in
  let rule2 :=
    flat_map
      (fun i =>
         let subset := slice data i 3 in
         let above_2sigma := count_if (fun s => s >? cl + of_Z 2 * sigma) subset in
         let below_2sigma := count_if (fun s => s <? cl - of_Z 2 * sigma) subset in
         if (2 <=? above_2sigma)%nat || (2 <=? below_2sigma)%nat
         then py_range i (i + 3) else [])
      (py_range 0 (n - 2)) in
  let rule3 :=
    flat_map
      (fun i =>
         let subset := slice data i 5 in
         let above_1sigma := count_if (fun s => s >? cl + sigma) subset in
         let below_1sigma := count_if (fun s => s <? cl - sigma) subset in
         if (4 <=? above_1sigma)%nat || (4 <=? below_1sigma)%nat
         then py_range i (i + 5) else [])
      (py_range 0 (n - 4)) in
  let rule4 :=
    flat_map
      (fun i =>
         let subset := slice data i 8 in
         if forallb (fun s => s >? cl) subset || forallb (fun s => s <? cl) subset
         then py_range i (i + 8) else [])
      (py_range 0 (n - 7)) in
  Ok {| we_rule1 := list_set rule1;
        we_rule2 := list_set rule2;
        we_rule3 := list_set rule3;
        we_rule4 := list_set rule4 |}.

(** *** OEE *)

(** The columns of [data_df] that [calculate_oee_components] reads. *)
Record oee_row : Type := {
  Toplam_Uretim_Suresi : float64;
  Durma_Suresi_Saat : float64;
  Hata_Nedeni : string
}.

Record oee_components : Type := {
  availability : float64;
  performance : float64;
  quality : float64;
  oee : float64
}.

Definition calculate_oee_components (data_df : list oee_row)
  : result oee_components :=
  let total_time := pd_sum (map Toplam_Uretim_Suresi data_df) in
  let downtime := pd_sum (map Durma_Suresi_Saat data_df) in
  let availability := (total_time - downtime) / total_time * of_Z 100 in
  let performance := Fin 100 in
  let total_produced := length data_df in
  let good_products :=
    length (filter (fun r => String.eqb (Hata_Nedeni r) "-") data_df) in
  (* both counts are plain integers: the division is Python's own *)
  ratio <- py_div (inject_Z (Z.of_nat good_products))
                  (inject_Z (Z.of_nat total_produced)) ;;
  let quality := Fin (ratio * 100)%Q in
  let oee := availability * performance * quality / of_Z 10000 in
  Ok {| availability := round availability 2;
        performance := round performance 2;
        quality := round quality 2;
        oee := round oee 2 |}.

End StatisticalCalculator.

(** ** src/analysis/control_charts.py *)

Module ControlCharts.
Import Constants.

(** [self.df]: one row per motor, holding ['Motor_ID'] and the value of the
    analysed [variable]; [self.df[variable].values] is the second column. *)
Definition dataframe : Type := list (string * float64).
Definition column (df : dataframe) : list float64 := map snd df.

Inductive control_status : Type :=
| KontrolAltinda  (* "Kontrol Altinda" *)
| KontrolDisi.    (* "Kontrol Disi" *)

Inductive limit_side : Type :=
| UstLimit   (* "Ust limit asimi" / "Ust limit" *)
| AltLimit.  (* "Alt limit asimi" / "Alt limit" *)

Record x_alarm : Type := {
  xa_index : nat;
  xa_motor_id : string;
  xa_value : float64;
  xa_type : limit_side
}.

(** An entry of the moving-range chart; its ['type'] is always
    "Degiskenlik artisi". *)
Record mr_alarm : Type := {
  ma_index : nat;
  ma_value : float64
}.

Record x_chart : Type := {
  x_values : list float64;
  x_UCL : float64;
  x_CL : float64;
  x_LCL : float64;
  x_out_of_control : list x_alarm;
  x_sigma_estimate : float64
}.

Record mr_chart : Type := {
  mr_values : list float64;
  mr_UCL : float64;
  mr_CL : float64;
  mr_LCL : float64;
  mr_out_of_control : list mr_alarm
}.

Record imr_summary : Type := {
  process_mean : float64;
  process_sigma : float64;
  process_capability : float64;
  imr_control_status : control_status
}.

Record subgroup_chart : Type := {
  sg_values : list float64;
  sg_UCL : float64;
  sg_CL : float64;
  sg_LCL : float64
}.

(** The two shapes of the returned dictionary. *)
Inductive xbar_r_chart : Type :=
| IMR (x : x_chart) (mr : mr_chart) (summary : imr_summary)
| XbarR (x_bar_chart r_chart : subgroup_chart).

Definition create_xbar_r_chart (df : dataframe) (subgroup_size : Z)
  : result xbar_r_chart :=
  let data := column df in
  let n := subgroup_size in
  fallback <- CONTROL_CONSTANTS_item 1 ;;
  let constants := dict_get CONTROL_CONSTANTS n fallback in
  if (n =? 1)%Z then
    let x_values := data in
    let mr_values := map fabs (np_diff data) in
    let x_bar := np_mean x_values in
    let mr_bar := np_mean mr_values in
    let sigma_estimate := mr_bar / Fin (d2 constants) in
    let x_ucl := x_bar + of_Z 3 * sigma_estimate in
    let x_cl := x_bar in
    let x_lcl := x_bar - of_Z 3 * sigma_estimate in
    let mr_ucl := Fin (D4 constants) * mr_bar in
    let mr_cl := mr_bar in
    let mr_lcl := Fin (D3 constants) * mr_bar in
    let x_out :=
      flat_map
        (fun '(i, (motor_id, val)) =>
           if (val >? x_ucl) || (val <? x_lcl)
           then [{| xa_index := i;
                    xa_motor_id := motor_id;
                    xa_value := round val 2;
                    xa_type := if val >? x_ucl then UstLimit else AltLimit |}]
           else [])
        (combine (seq 0 (length df)) df) in
    let mr_out :=
      flat_map
        (fun '(i, val) =>
           if val >? mr_ucl
           then [{| ma_index := i; ma_value := round val 2 |}]
           else [])
        (combine (seq 0 (length mr_values)) mr_values) in
    Ok (IMR
          {| x_values := x_values;
             x_UCL := round x_ucl 2;
             x_CL := round x_cl 2;
             x_LCL := round x_lcl 2;
             x_out_of_control := x_out;
             x_sigma_estimate := round sigma_estimate 3 |}
          {| mr_values := mr_values;
             mr_UCL := round mr_ucl 2;
             mr_CL := round mr_cl 2;
             mr_LCL := round mr_lcl 2;
             mr_out_of_control := mr_out |}
          {| process_mean := round x_bar 2;
             process_sigma := round sigma_estimate 3;
             process_capability := round (x_bar / (of_Z 3 * sigma_estimate)) 3;
             imr_control_status :=
               if (length x_out =? 0)%nat then KontrolAltinda else KontrolDisi |})
  else
    idx <- py_range_step (length data) n ;;
    let subgroups :=
      flat_map
        (fun i =>
           let subgroup := slice data i (Z.to_nat n) in
           if (Z.of_nat (length subgroup) =? n)%Z then [subgroup] else [])
        idx in
    let x_bar_values := map np_mean subgroups in
    let r_values := map (fun sg => np_max sg - np_min sg) subgroups in
    let x_double_bar := np_mean x_bar_values in
    let r_bar := np_mean r_values in
    let x_ucl := x_double_bar + Fin (A2 constants) * r_bar in
    let x_lcl := x_double_bar - Fin (A2 constants) * r_bar in
    let r_ucl := Fin (D4 constants) * r_bar in
    let r_lcl := Fin (D3 constants) * r_bar in
    Ok (XbarR
          {| sg_values := x_bar_values;
             sg_UCL := round x_ucl 2;
             sg_CL := round x_double_bar 2;
             sg_LCL := round x_lcl 2 |}
          {| sg_values := r_values;
             sg_UCL := round r_ucl 2;
             sg_CL := round r_bar 2;
             sg_LCL := round r_lcl 2 |}).

(** *** EWMA chart *)

Inductive trend : Type :=
| Stabil   (* "Stabil" *)
| Artan    (* "Artan"  *)
| Azalan.  (* "Azalan" *)

Inductive sensitivity : Type :=
| KucukKaymalaraDuyarli  (* "Kucuk kaymalara duyarli", lambda < 0.3 *)
| Normal.                (* "Normal" *)

Record ewma_alarm : Type := {
  ea_index : nat;
  ea_motor_id : string;
  ea_ewma_value : float64;
  ea_actual_value : float64;
  ea_type : limit_side
}.

Record ewma_chart : Type := {
  ewma_values : list float64;
  ewma_UCL : list float64;
  ewma_CL : float64;
  ewma_LCL : list float64;
  ewma_actual_values : list float64;
  ewma_out_of_control : list ewma_alarm;
  ewma_lambda : Q;
  ewma_L : Q;
  ewma_process_mean : float64;
  ewma_process_sigma : float64;
  ewma_control_status : control_status;
  ewma_trend : trend;
  ewma_sensitivity : sensitivity
}.

(** [all(a[i] > a[i-1] for i in range(1, len(a)))] and its mirror. *)
Definition all_increasing (a : list float64) : bool :=
  forallb (fun i => nth i a NaN >? nth (i - 1) a NaN) (py_range 1 (length a)).
Definition all_decreasing (a : list float64) : bool :=
  forallb (fun i => nth i a NaN <? nth (i - 1) a NaN) (py_range 1 (length a)).

(** The trend analysis at the end of [create_ewma_chart]. *)
Definition trend_of (z : list float64) : trend :=
  if (10 <? length z)%nat then
    let recent_trend := last_n z 10 in
    if all_increasing recent_trend then Artan
    else if all_decreasing recent_trend then Azalan
    else Stabil
  else Stabil.

Definition create_ewma_chart (df : dataframe) (lambda_val L : Q)
  : result ewma_chart :=
  let data := column df in
  let n := length data in
  let mu0 := np_mean data in
  let sigma := np_std_ddof1 data in
  let z := np_zeros n in
  z <- setitem z 0%nat mu0 ;;
  (* the loop statement is the one of [calculate_ewma] *)
  z <- for_each (py_range 1 n) (StatisticalCalculator.ewma_step data lambda_val) z ;;
  limits <- map_each (py_range 0 n)
              (fun i =>
                 var_z <- StatisticalCalculator.ewma_var_factor lambda_val i ;;
                 let std_z := sigma * fsqrt (Fin var_z) in
                 Ok (mu0 + Fin L * std_z, mu0 - Fin L * std_z)) ;;
  let ucl := map fst limits in
  let lcl := map snd limits in
  let out_of_control :=
    flat_map
      (fun '(i, (motor_id, x)) =>
         let z_i := nth i z NaN in
         let u := nth i ucl NaN in
         let l := nth i lcl NaN in
         if (z_i >? u) || (z_i <? l)
         then [{| ea_index := i;
                  ea_motor_id := motor_id;
                  ea_ewma_value := round z_i 2;
                  ea_actual_value := round x 2;
                  ea_type := if z_i >? u then UstLimit else AltLimit |}]
         else [])
      (combine (seq 0 n) df) in
  Ok {| ewma_values := z;
        ewma_UCL := map (fun u => round u 2) ucl;
        ewma_CL := round mu0 2;
        ewma_LCL := map (fun l => round l 2) lcl;
        ewma_actual_values := data;
        ewma_out_of_control := out_of_control;
        ewma_lambda := lambda_val;
        ewma_L := L;
        ewma_process_mean := round mu0 2;
        ewma_process_sigma := round sigma 3;
        ewma_control_status :=
          if (length out_of_control =? 0)%nat then KontrolAltinda else KontrolDisi;
        ewma_trend := trend_of z;
        ewma_sensitivity :=
          if Qltb lambda_val 0.3 then KucukKaymalaraDuyarli else Normal |}.

(** *** CUSUM chart *)

Inductive shift_kind : Type :=
| YukariKayma  (* "Yukari kayma" *)
| AsagiKayma.  (* "Asagi kayma"  *)

Record cusum_alarm : Type := {
  ca_index : nat;
  ca_motor_id : string;
  ca_type : shift_kind;
  ca_cusum_value : float64;
  ca_actual_value : float64
}.

Record cusum_chart : Type := {
  C_plus : list float64;
  C_minus : list float64;
  h_limit : Q;
  k_reference : Q;
  alarms : list cusum_alarm;
  cusum_actual_values : list float64;
  standardized_values : list float64;
  cusum_control_status : control_status;
  total_alarms : nat;
  shift_start_index : option nat;
  cusum_target : float64;
  cusum_sigma : float64
}.

(** [np.where(c > h)[0][0]] when [any(c > h)]. *)
Definition first_above (c : list float64) (h : Q) : option nat :=
  find (fun i => nth i c NaN >? Fin h) (py_range 0 (length c)).

(** [for j in range(first, -1, -1): if c[j] == 0: shift = j + 1; break]. *)
Definition shift_onset (c : list float64) (first : nat) : option nat :=
  option_map S
    (find (fun j => feqb (nth j c NaN) (Fin 0)) (rev (seq 0 (S first)))).

Definition create_cusum_chart (df : dataframe) (k h : Q)
  : result cusum_chart :=
  let data := column df in
  let n := length data in
  let mu0 := np_mean data in
  let sigma := np_std_ddof1 data in
  let z := map (fun x => (x - mu0) / sigma) data in
  let c_plus := np_zeros n in
  let c_minus := np_zeros n in
  (* the loop statements are those of [calculate_cusum] *)
  c <- for_each (py_range 1 n) (StatisticalCalculator.cusum_step z k)
         (c_plus, c_minus) ;;
  let (c_plus, c_minus) := c in
  let alarms :=
    flat_map
      (fun '(i, (motor_id, x)) =>
         let p := nth i c_plus NaN in
         let m := nth i c_minus NaN in
         if p >? Fin h
         then [{| ca_index := i; ca_motor_id := motor_id;
                  ca_type := YukariKayma;
                  ca_cusum_value := round p 2;
                  ca_actual_value := round x 2 |}]
         else if m >? Fin h
         then [{| ca_index := i; ca_motor_id := motor_id;
                  ca_type := AsagiKayma;
                  ca_cusum_value := round m 2;
                  ca_actual_value := round x 2 |}]
         else [])
      (combine (seq 0 n) df) in
  let shift_detected :=
    match first_above c_plus h with
    | Some first_alarm_index => shift_onset c_plus first_alarm_index
    | None => None
    end in
  Ok {| C_plus := c_plus;
        C_minus := c_minus;
        h_limit := h;
        k_reference := k;
        alarms := alarms;
        cusum_actual_values := data;
        standardized_values := z;
        cusum_control_status :=
          if (length alarms =? 0)%nat then KontrolAltinda else KontrolDisi;
        total_alarms := length alarms;
        shift_start_index := shift_detected;
        cusum_target := round mu0 2;
        cusum_sigma := round sigma 3 |}.

(** *** Western Electric rules *)

Inductive direction : Type :=
| Ust   (* "Ust" *)
| Alt.  (* "Alt" *)

Record rule1_violation : Type := {
  r1_index : nat;
  r1_motor_id : string;
  r1_value : float64;
  r1_sigma_distance : float64
}.

(** An entry of rules 2 to 6: the window and what the rule adds to it
    (rule 2: motor ids and direction; rule 3: direction; rule 4: motor ids
    and side; rule 5: trend; rule 6: the constant pattern "Zigzag"). *)
Record window_violation (T : Type) : Type := {
  start_index : nat;
  end_index : nat;
  detail : T
}.
Arguments start_index {T} _.
Arguments end_index {T} _.
Arguments detail {T} _.

Inductive rule_id : Type := rule1 | rule2 | rule3 | rule4 | rule5 | rule6.

Record we_violations : Type := {
  v_rule1 : list rule1_violation;
  v_rule2 : list (window_violation (list string * direction));
  v_rule3 : list (window_violation direction);
  v_rule4 : list (window_violation (list string * direction));
  v_rule5 : list (window_violation trend);
  v_rule6 : list (window_violation unit)
}.

Record we_summary : Type := {
  total_violations : nat;
  violated_rules : list rule_id;
  we_control_status : control_status;
  most_common_violation : option rule_id
}.

Record we_result : Type := {
  violations : we_violations;
  we_sum : we_summary
}.

(** The inner loop of rule 6 over [j] in [range(2, 14)]. *)
Definition zigzag (subset : list float64) : bool :=
  forallb
    (fun j =>
       let a := nth j subset NaN in
       let b := nth (j - 1) subset NaN in
       let c := nth (j - 2) subset NaN in
       ((a >? b) && (b <? c)) || ((a <? b) && (b >? c)))
    (py_range 2 14).

(** [max(violations.items(), key=lambda x: len(x[1]))[0]]: the first rule,
    in dictionary order, with the most entries. *)
Fixpoint first_max (best : rule_id * nat) (rest : list (rule_id * nat))
  : rule_id :=
  match rest with
  | [] => fst best
  | x :: rest' =>
    if (snd best <? snd x)%nat then first_max x rest' else first_max best rest'
  end.

Definition check_western_electric_rules (df : dataframe) : we_result :=
  let data := column df in
  let n := length data in
  let mean := np_mean data in
  let sigma := np_std_ddof1 data in
  let r1 :=
    flat_map
      (fun '(i, (motor_id, x)) =>
         if fabs (x - mean) >? of_Z 3 * sigma
         then [{| r1_index := i;
                  r1_motor_id := motor_id;
                  r1_value := round x 2;
                  r1_sigma_distance := round ((x - mean) / sigma) 2 |}]
         else [])
      (combine (seq 0 n) df) in
  let r2 :=
    flat_map
      (fun i =>
         let subset := slice data i 3 in
         let above := count_if (fun x => x >? mean + of_Z 2 * sigma) subset in
         let below := count_if (fun x => x <? mean - of_Z 2 * sigma) subset in
         if (2 <=? above)%nat || (2 <=? below)%nat
         then [{| start_index := i;
                  end_index := (i + 2)%nat;
                  detail := (map fst (slice df i 3),
                             if (2 <=? above)%nat then Ust else Alt) |}]
         else [])
      (py_range 0 (n - 2)) in
  let r3 :=
    flat_map
      (fun i =>
         let subset := slice data i 5 in
         let above := count_if (fun x => x >? mean + sigma) subset in
         let below := count_if (fun x => x <? mean - sigma) subset in
         if (4 <=? above)%nat || (4 <=? below)%nat
         then [{| start_index := i;
                  end_index := (i + 4)%nat;
                  detail := if (4 <=? above)%nat then Ust else Alt |}]
         else [])
      (py_range 0 (n - 4)) in
  let r4 :=
    flat_map
      (fun i =>
         let subset := slice data i 8 in
         if forallb (fun x => x >? mean) subset
            || forallb (fun x => x <? mean) subset
         then [{| start_index := i;
                  end_index := (i + 7)%nat;
                  detail := (map fst (slice df i 8),
                             if nth 0 subset NaN >? mean then Ust else Alt) |}]
         else [])
      (py_range 0 (n - 7)) in
  let r5 :=
    flat_map
      (fun i =>
         let subset := slice data i 6 in
         let increasing :=
           forallb (fun j => nth j subset NaN >? nth (j - 1) subset NaN)
                   (py_range 1 6) in
         let decreasing :=
           forallb (fun j => nth j subset NaN <? nth (j - 1) subset NaN)
                   (py_range 1 6) in
         if increasing || decreasing
         then [{| start_index := i;
                  end_index := (i + 5)%nat;
                  detail := if increasing then Artan else Azalan |}]
         else [])
      (py_range 0 (n - 5)) in
  let r6 :=
    flat_map
      (fun i =>
         let subset := slice data i 14 in
         if zigzag subset
         then [{| start_index := i; end_index := (i + 13)%nat; detail := tt |}]
         else [])
      (py_range 0 (n - 13)) in
  let sizes :=
    [(rule1, length r1); (rule2, length r2); (rule3, length r3);
     (rule4, length r4); (rule5, length r5); (rule6, length r6)] in
  let total := fold_left Nat.add (map snd sizes) 0%nat in
  {| violations :=
       {| v_rule1 := r1; v_rule2 := r2; v_rule3 := r3;
          v_rule4 := r4; v_rule5 := r5; v_rule6 := r6 |};
     we_sum :=
       {| total_violations := total;
          violated_rules :=
            map fst (filter (fun x => (0 <? snd x)%nat) sizes);
          we_control_status :=
            if (total =? 0)%nat then KontrolAltinda else KontrolDisi;
          most_common_violation :=
            if (0 <? total)%nat
            then Some (first_max (rule1, length r1) (tl sizes))
            else None |} |}.

(** *** The overall report *)

Inductive overall_status : Type :=
| SurecKontrolAltinda  (* "Surec Kontrol Altinda" *)
| SurecKontrolDisi     (* "Surec Kontrol Disi - Acil Mudahale Gerekli" *)
| SurecIzlenmeli.      (* "Surec Izlenmeli - Potansiyel Problem" *)

Definition is_altinda (s : control_status) : bool :=
  match s with KontrolAltinda => true | KontrolDisi => false end.
Definition is_disi (s : control_status) : bool :=
  match s with KontrolAltinda => false | KontrolDisi => true end.

Definition _determine_overall_status (statuses : list control_status)
  : overall_status :=
  if forallb is_altinda statuses then SurecKontrolAltinda
  else if (2 <=? count_if is_disi statuses)%nat then SurecKontrolDisi
  else SurecIzlenmeli.

(** The columns of [self.df] the report reads. *)
Record motor_row : Type := {
  Motor_ID : string;
  Toplam_Uretim_Suresi : float64;
  Verimlilik : float64;
  Aktif_Calisma_Saat : float64
}.

(** [self.df[variable]] together with the motor ids. *)
Definition variable_of (f : motor_row -> float64) (df : list motor_row)
  : dataframe :=
  map (fun r => (Motor_ID r, f r)) df.

Record control_chart_report : Type := {
  rep_xbar_status : control_status;
  rep_xbar_out_of_control_count : nat;
  rep_xbar_process_mean : float64;
  rep_xbar_process_sigma : float64;
  rep_ewma_status : control_status;
  rep_ewma_trend : trend;
  rep_ewma_out_of_control_count : nat;
  rep_cusum_status : control_status;
  rep_cusum_alarms : nat;
  rep_we_status : control_status;
  rep_we_total_violations : nat;
  rep_we_violated_rules : list rule_id;
  rep_overall_status : overall_status
}.

(** The four analyses run with their default parameters:
    [subgroup_size=1], [lambda_val=0.2], [L=3], [k=0.5], [h=5].  With
    [subgroup_size=1] the X-bar/R chart has the individuals shape; the other
    shape has no ['summary'] key. *)
Definition generate_control_chart_report (df : list motor_row)
  : result control_chart_report :=
  xbar_r <- create_xbar_r_chart (variable_of Toplam_Uretim_Suresi df) 1 ;;
  ewma <- create_ewma_chart (variable_of Verimlilik df) 0.2 3 ;;
  cusum <- create_cusum_chart (variable_of Toplam_Uretim_Suresi df) 0.5 5 ;;
  let we_rules := check_western_electric_rules (variable_of Aktif_Calisma_Saat df) in
  match xbar_r with
  | XbarR _ _ => Raise KeyError
  | IMR x _ summary =>
    Ok {| rep_xbar_status := imr_control_status summary;
          rep_xbar_out_of_control_count := length (x_out_of_control x);
          rep_xbar_process_mean := process_mean summary;
          rep_xbar_process_sigma := process_sigma summary;
          rep_ewma_status := ewma_control_status ewma;
          rep_ewma_trend := ewma_trend ewma;
          rep_ewma_out_of_control_count := length (ewma_out_of_control ewma);
          rep_cusum_status := cusum_control_status cusum;
          rep_cusum_alarms := length (alarms cusum);
          rep_we_status := we_control_status (we_sum we_rules);
          rep_we_total_violations := total_violations (we_sum we_rules);
          rep_we_violated_rules := violated_rules (we_sum we_rules);
          rep_overall_status :=
            _determine_overall_status
              [imr_control_status summary;
               ewma_control_status ewma;
               cusum_control_status cusum;
               we_control_status (we_sum we_rules)] |}
  end.

End ControlCharts.

(** ** src/analysis/capability_analysis.py *)

Module ProcessCapability.
Import Constants.

(** The seven strings of the nested [interpret_capability]. *)
Inductive capability_status : Type :=
| SpecDisinda      (* "Surec spec disinda uretiyor - Acil mudahale!",  Cpk < 0    *)
| Yetersiz         (* "Yetersiz - Surec iyilestirmesi kritik",        Cpk < 0.67 *)
| Zayif            (* "Zayif - 3-sigma alti, iyilestirme gerekli",    Cpk < 1.00 *)
| KabulEdilebilir  (* "Kabul edilebilir - 3-sigma seviyesi",          Cpk < 1.33 *)
| Iyi              (* "Iyi - 4-sigma seviyesi",                       Cpk < 1.67 *)
| Mukemmel         (* "Mukemmel - 5-sigma seviyesi",                  Cpk < 2.00 *)
| DunyaSinifi.     (* "Dunya sinifi - 6-sigma seviyesi",              otherwise  *)

Definition interpret_capability (cpk_val : float64) : capability_status :=
  if cpk_val <? Fin 0 then SpecDisinda
  else if cpk_val <? Fin 0.67 then Yetersiz
  else if cpk_val <? Fin 1.00 then Zayif
  else if cpk_val <? Fin 1.33 then KabulEdilebilir
  else if cpk_val <? Fin 1.67 then Iyi
  else if cpk_val <? Fin 2.00 then Mukemmel
  else DunyaSinifi.

Inductive centering : Type :=
| IyiMerkezlenmis  (* "Iyi merkezlenmis", k < 0.2 *)
| KaymaVar.        (* "Kayma var" *)

Inductive variation_control : Type :=
| VaryasyonIyi     (* "Iyi", Cp > 1.33 *)
| YuksekVaryasyon. (* "Yuksek varyasyon" *)

(** The five strings of [_get_recommendation], in source order. *)
Inductive recommendation : Type :=
| AcilKaydirVeAzalt
| SadeceMerkezleme
| VaryasyonCokYuksek
| SurecYeterli
| MerkezlemeVeVaryasyon.

Definition _get_recommendation (cp cpk k : float64) : recommendation :=
  if cpk <? Fin 0.67 then AcilKaydirVeAzalt
  else if (cp >? Fin 1.33) && (cpk <? Fin 1.00) then SadeceMerkezleme
  else if cp <? Fin 1.00 then VaryasyonCokYuksek
  else if fge cpk (Fin 1.33) then SurecYeterli
  else MerkezlemeVeVaryasyon.

Record indices : Type := {
  Cp : float64;
  Cpk : float64;
  CPU : float64;
  CPL : float64;
  Cpm : float64;
  Pp : float64;
  Ppk : float64;
  k : float64
}.

Record statistics : Type := {
  st_mean : float64;
  st_target : float64;
  st_sigma_within : float64;
  st_sigma_overall : float64;
  st_USL : float64;
  st_LSL : float64
}.

Record ppm : Type := {
  expected_above_USL : float64;
  expected_below_LSL : float64;
  expected_total : float64;
  observed_total : float64
}.

Record interpretation : Type := {
  in_capability_status : capability_status;
  in_centering : centering;
  in_variation_control : variation_control;
  in_recommendation : recommendation
}.

Record capability_result : Type := {
  cr_indices : indices;
  cr_statistics : statistics;
  sigma_level : float64;
  cr_ppm : ppm;
  cr_interpretation : interpretation
}.

(** [sum(data > x)] and [sum(data < x)]: how many points lie beyond [x]. *)
Definition count_above (data : list float64) (x : float64) : nat :=
  length (filter (fun v => v >? x) data).
Definition count_below (data : list float64) (x : float64) : nat :=
  length (filter (fun v => v <? x) data).

Section Capability.
(** [scipy.stats.norm.cdf], library code kept abstract. *)
Variable norm_cdf : float64 -> float64.

(** [data] is [self.df[variable].values]; [variable] is still needed for
    the look-up in [SPEC_LIMITS]. *)
Definition calculate_capability_indices
           (data : list float64) (variable : string)
           (usl lsl target : option Q)
  : result capability_result :=
  let '(usl, lsl, target) :=
    match usl, lsl with
    | Some u, Some l => (Fin u, Fin l, option_map Fin target)
    | _, _ =>
      match sdict_find SPEC_LIMITS variable with
      | Some spec =>
        let u := USL spec in
        let l := LSL spec in
        (Fin u, Fin l,
         Some (Fin match Target spec with
                   | Some t => t
                   | None => ((u + l) / 2)%Q
                   end))
      | None =>
        let mean := np_mean data in
        let std := np_std_ddof1 data in
        (mean + of_Z 3 * std, mean - of_Z 3 * std, Some mean)
      end
    end in
  let target :=
    match target with
    | Some t => t
    | None => (usl + lsl) / of_Z 2
    end in
  let mean := np_mean data in
  let mr := map fabs (np_diff data) in
  let mr_bar := np_mean mr in
  let sigma_within := mr_bar / Fin 1.128 in
  let sigma_overall := np_std_ddof1 data in
  let cp := (usl - lsl) / (of_Z 6 * sigma_within) in
  let cpu := (usl - mean) / (of_Z 3 * sigma_within) in
  let cpl := (mean - lsl) / (of_Z 3 * sigma_within) in
  let cpk := py_min cpu cpl in
  let msd := sigma_within * sigma_within + (mean - target) * (mean - target) in
  let cpm := (usl - lsl) / (of_Z 6 * fsqrt msd) in
  let pp := (usl - lsl) / (of_Z 6 * sigma_overall) in
  let ppu := (usl - mean) / (of_Z 3 * sigma_overall) in
  let ppl := (mean - lsl) / (of_Z 3 * sigma_overall) in
  let ppk := py_min ppu ppl in
  let k := fabs (mean - target) / ((usl - lsl) / of_Z 2) in
  let z_bench := of_Z 3 * cpk in
  let sigma_level := z_bench + Fin 1.5 in
  let z_usl := (usl - mean) / sigma_within in
  let z_lsl := (lsl - mean) / sigma_within in
  let p_above_usl := of_Z 1 - norm_cdf z_usl in
  let p_below_lsl := norm_cdf z_lsl in
  let ppm_above := p_above_usl * of_Z 1000000 in
  let ppm_below := p_below_lsl * of_Z 1000000 in
  let ppm_total := ppm_above + ppm_below in
  let actual_above := count_above data usl in
  let actual_below := count_below data lsl in
  let actual_total := (actual_above + actual_below)%nat in
  (* on an empty series [actual_total] is the plain integer 0 and the
     division by [len(data)] is Python's own *)
  actual_ratio <-
    (if (length data =? 0)%nat then Raise ZeroDivisionError
     else Ok (of_nat actual_total / of_nat (length data))) ;;
  let actual_ppm := actual_ratio * of_Z 1000000 in
  Ok {| cr_indices :=
          {| Cp := round cp 3;
             Cpk := round cpk 3;
             CPU := round cpu 3;
             CPL := round cpl 3;
             Cpm := round cpm 3;
             Pp := round pp 3;
             Ppk := round ppk 3;
             k := round k 3 |};
        cr_statistics :=
          {| st_mean := round mean 2;
             st_target := round target 2;
             st_sigma_within := round sigma_within 3;
             st_sigma_overall := round sigma_overall 3;
             st_USL := usl;
             st_LSL := lsl |};
        sigma_level := round sigma_level 2;
        cr_ppm :=
          {| expected_above_USL := round ppm_above 0;
             expected_below_LSL := round ppm_below 0;
             expected_total := round ppm_total 0;
             observed_total := round actual_ppm 0 |};
        cr_interpretation :=
          {| in_capability_status := interpret_capability cpk;
             in_centering :=
               if k <? Fin 0.2 then IyiMerkezlenmis else KaymaVar;
             in_variation_control :=
               if cp >? Fin 1.33 then VaryasyonIyi else YuksekVaryasyon;
             in_recommendation := _get_recommendation cp cpk k |} |}.
(** *** Improvement analysis *)

Record improvement : Type := {
  im_cpk : float64;                   (* current_state['cpk'] *)
  im_sigma : float64;                 (* current_state['sigma'] *)
  im_mean_offset : float64;           (* current_state['mean_offset'] *)
  im_sigma_reduction_133 : float64;   (* for_cpk_1.33['sigma_reduction_%'] *)
  im_centering_adjustment : float64;  (* for_cpk_1.33['centering_adjustment'] *)
  im_sigma_reduction_167 : float64;   (* for_cpk_1.67['sigma_reduction_%'] *)
  im_defect_reduction : float64;      (* expected_benefits['defect_reduction_%'] *)
  im_ppm_improvement : float64        (* expected_benefits['ppm_improvement'] *)
}.

(** The analysis reads the rounded values of the result dictionary. *)
Definition capability_improvement_analysis
           (data : list float64) (variable : string) : result improvement :=
  current <- calculate_capability_indices data variable None None None ;;
  let current_cpk := Cpk (cr_indices current) in
  let current_sigma := st_sigma_within (cr_statistics current) in
  let current_mean := st_mean (cr_statistics current) in
  let target := st_target (cr_statistics current) in
  let sigma_reduction_needed :=
    if current_cpk <? Fin 1.33 then
      let required_sigma := fabs (current_mean - target) / Fin (1.33 * 3) in
      ((current_sigma - required_sigma) / current_sigma) * of_Z 100
    else Fin 0 in
  let centering_improvement := fabs (current_mean - target) in
  Ok {| im_cpk := current_cpk;
        im_sigma := round current_sigma 3;
        im_mean_offset := round (current_mean - target) 2;
        im_sigma_reduction_133 := round (py_max (Fin 0) sigma_reduction_needed) 1;
        im_centering_adjustment := round centering_improvement 2;
        im_sigma_reduction_167 :=
          round (py_max (Fin 0)
                        (((current_sigma
                           - fabs (current_mean - target) / Fin (1.67 * 3))
                          / current_sigma) * of_Z 100)) 1;
        im_defect_reduction :=
          if current_cpk >? Fin 0
          then round ((of_Z 1
                       - norm_cdf (Fin (-3 * 1.33)) * of_Z 2
                         / (of_Z 1 - norm_cdf (of_Z (-3) * current_cpk) * of_Z 2))
                      * of_Z 100) 1
          else Fin 0;
        im_ppm_improvement :=
          round (expected_total (cr_ppm current) - of_Z 63) 0 |}.
End Capability.

(** *** Capability by shift *)

Inductive shift_performance : Type :=
| ShiftIyi                 (* "Iyi", cpk >= 1.33 *)
| ShiftIyilestirmeGerekli. (* "Iyilestirme Gerekli" *)

Record shift_result : Type := {
  sample_size : nat;
  shift_mean : float64;
  shift_std : float64;
  shift_cpk : float64;
  shift_performance_of : shift_performance
}.

(** [Series.unique()]: the distinct values in order of first appearance. *)
Fixpoint unique (l : list string) : list string :=
  match l with
  | [] => []
  | x :: t => x :: filter (fun y => negb (String.eqb y x)) (unique t)
  end.

(** A row of [self.df] holds its ['Vardiya'] and the value of [variable].
    The dictionary returned has one entry per shift, in the order of
    [unique()]; without an entry for [variable] in [SPEC_LIMITS] it stays
    empty. *)
Definition analyze_by_shift (df : list (string * float64)) (variable : string)
  : list (string * shift_result) :=
  let shifts := unique (map fst df) in
  flat_map
    (fun shift =>
       let shift_data := filter (fun r => String.eqb (fst r) shift) df in
       let data := map snd shift_data in
       match sdict_find SPEC_LIMITS variable with
       | Some spec =>
         let mean := np_mean data in
         let std := np_std_ddof1 data in
         let cpu := (Fin (USL spec) - mean) / (of_Z 3 * std) in
         let cpl := (mean - Fin (LSL spec)) / (of_Z 3 * std) in
         let cpk := py_min cpu cpl in
         [(shift,
           {| sample_size := length data;
              shift_mean := round mean 2;
              shift_std := round std 3;
              shift_cpk := round cpk 3;
              shift_performance_of :=
                if fge cpk (Fin 1.33) then ShiftIyi
                else ShiftIyilestirmeGerekli |})]
       | None => []
       end)
    shifts.

End ProcessCapability.

(** ** src/analysis/pareto_analysis.py *)

Module ParetoAnalysis.

(** A row of [self.df], with the columns [analyze_defects] reads to build
    its table; the per-defect details and the recommendation texts, which
    do not feed the table, are not part of the model. *)
Record row : Type := {
  Motor_ID : string;
  Hata_Nedeni : string
}.

Inductive kategori : Type :=
| HayatiAzinlik_A    (* "Hayati Azinlik (A)",   cumulative percent <= 80 *)
| OrtaOnem_B         (* "Orta Onem (B)",        cumulative percent <= 95 *)
| OnemsizCogunluk_C. (* "Onemsiz Cogunluk (C)", otherwise *)

Record pareto_row : Type := {
  Hata_Turu : string;
  Adet : nat;
  Yuzde : float64;
  Kumulatif_Yuzde : float64;
  Kategori : kategori
}.

Record summary : Type := {
  toplam_hata_sayisi : nat;
  hata_cesidi_sayisi : nat;
  hata_orani : float64;
  hayati_azinlik : list string;
  hayati_azinlik_orani : float64;
  en_kritik_hata : option string;
  en_kritik_hata_orani : float64
}.

(** Without any defect the summary only holds ['toplam_hata_sayisi': 0]. *)
Inductive analysis : Type :=
| NoDefects
| Defects (data : list pareto_row) (s : summary).

(** [groupby('Hata_Nedeni').size()]: one entry per label, in key order. *)
Fixpoint count_label (label : string) (groups : list (string * nat))
  : list (string * nat) :=
  match groups with
  | [] => [(label, 1%nat)]
  | (key, c) :: rest =>
    match String.compare label key with
    | Eq => (key, S c) :: rest
    | Lt => (label, 1%nat) :: groups
    | Gt => (key, c) :: count_label label rest
    end
  end.

Definition groupby_size (labels : list string) : list (string * nat) :=
  fold_left (fun groups label => count_label label groups) labels [].

(** [sort_values(ascending=False)]: descending by count.  pandas leaves the
    order of equal counts to numpy's sorting routine, which is not stable;
    the model keeps them in key order and no statement depends on that
    order. *)
Fixpoint insert_desc (x : string * nat) (l : list (string * nat))
  : list (string * nat) :=
  match l with
  | [] => [x]
  | y :: t => if (snd y <=? snd x)%nat then x :: l else y :: insert_desc x t
  end.

Definition sort_values_desc (l : list (string * nat)) : list (string * nat) :=
  fold_right insert_desc [] l.

(** [Series.cumsum()]. *)
Fixpoint cumsum_from (acc : float64) (l : list float64) : list float64 :=
  match l with
  | [] => []
  | x :: t => (acc + x) :: cumsum_from (acc + x) t
  end.

Definition cumsum (l : list float64) : list float64 :=
  match l with
  | [] => []
  | x :: t => x :: cumsum_from x t
  end.

(** The [lambda] applied to ['Kumulatif_Yuzde']. *)
Definition kategori_of (x : float64) : kategori :=
  if x <=? Fin 80 then HayatiAzinlik_A
  else if x <=? Fin 95 then OrtaOnem_B
  else OnemsizCogunluk_C.

Definition is_vital (r : pareto_row) : bool :=
  match Kategori r with
  | HayatiAzinlik_A => true
  | _ => false
  end.

Definition analyze_defects (df : list row) : analysis :=
  let defects_df :=
    filter (fun r => negb (String.eqb (Hata_Nedeni r) "-")) df in
  if (length defects_df =? 0)%nat then NoDefects
  else
    let pareto_df := sort_values_desc (groupby_size (map Hata_Nedeni defects_df)) in
    let total_defects := fold_left Nat.add (map snd pareto_df) 0%nat in
    let yuzde :=
      map (fun g => of_nat (snd g) / of_nat total_defects * of_Z 100) pareto_df in
    let kumulatif := cumsum yuzde in
    let table :=
      map (fun '(g, y, c) =>
             {| Hata_Turu := fst g;
                Adet := snd g;
                Yuzde := y;
                Kumulatif_Yuzde := c;
                Kategori := kategori_of c |})
          (combine (combine pareto_df yuzde) kumulatif) in
    let vital_few := map Hata_Turu (filter is_vital table) in
    Defects table
      {| toplam_hata_sayisi := total_defects;
         hata_cesidi_sayisi := length table;
         hata_orani :=
           round (of_nat total_defects / of_nat (length df) * of_Z 100) 1;
         hayati_azinlik := vital_few;
         hayati_azinlik_orani :=
           round (np_sum (map Yuzde (filter is_vital table))) 1;
         en_kritik_hata := option_map Hata_Turu (hd_error table);
         en_kritik_hata_orani :=
           match hd_error table with
           | Some r => Yuzde r
           | None => Fin 0
           end |}.

(** *** Time losses *)

(** The three columns of [self.df] that [analyze_time_losses] sums. *)
Record time_row : Type := {
  Durma_Suresi_Saat : float64;
  KK_Hazirlik_Saat : float64;
  KK_Surec_Saat : float64
}.

Inductive kayip_turu : Type :=
| PlansizDuruslar       (* "Plansiz Duruslar" *)
| KKHazirlikBeklemesi   (* "KK Hazirlik Beklemesi" *)
| KKSurecBeklemesi.     (* "KK Surec Beklemesi" *)

Inductive kritiklik : Type :=
| Kritik   (* "Kritik", cumulative percent <= 50 *)
| Orta     (* "Orta",   cumulative percent <= 80 *)
| Dusuk.   (* "Dusuk",  otherwise *)

Record loss_row : Type := {
  Kayip_Turu : kayip_turu;
  Toplam_Saat : float64;
  loss_Yuzde : float64;
  loss_Kumulatif_Yuzde : float64;
  Kritiklik : kritiklik
}.

Record loss_summary : Type := {
  toplam_kayip_saat : float64;
  ort_motor_basi_kayip : float64;
  tahmini_toplam_maliyet : float64
}.

(** [sort_values('Toplam_Saat', ascending=False)] on floats: descending,
    [nan] entries last.  The order of equal values is left to numpy's
    sorting routine; the model keeps them in their original order and no
    statement depends on it. *)
Fixpoint insert_loss (x : kayip_turu * float64) (l : list (kayip_turu * float64))
  : list (kayip_turu * float64) :=
  match l with
  | [] => [x]
  | y :: t => if snd y <=? snd x then x :: l else y :: insert_loss x t
  end.

Definition sort_losses (l : list (kayip_turu * float64))
  : list (kayip_turu * float64) :=
  fold_right insert_loss [] (filter (fun x => negb (is_nan (snd x))) l)
  ++ filter (fun x => is_nan (snd x)) l.

(** [Series.cumsum()] with pandas' [skipna=True]: a [nan] entry stays
    [nan] and leaves the running sum alone. *)
Fixpoint cumsum_skipna (acc : float64) (l : list float64) : list float64 :=
  match l with
  | [] => []
  | x :: t =>
    if is_nan x then NaN :: cumsum_skipna acc t
    else (acc + x) :: cumsum_skipna (acc + x) t
  end.

Definition kritiklik_of (x : float64) : kritiklik :=
  if x <=? Fin 50 then Kritik
  else if x <=? Fin 80 then Orta
  else Dusuk.

(** The table and the summary; the per-category details other than the
    estimated costs, and the recommendation texts, are not part of the
    model. *)
Definition analyze_time_losses (df : list time_row)
  : list loss_row * loss_summary :=
  let time_losses :=
    [(PlansizDuruslar, pd_sum (map Durma_Suresi_Saat df));
     (KKHazirlikBeklemesi, pd_sum (map KK_Hazirlik_Saat df));
     (KKSurecBeklemesi, pd_sum (map KK_Surec_Saat df))] in
  let pareto_df := sort_losses time_losses in
  let total_loss := pd_sum (map snd pareto_df) in
  let yuzde := map (fun g => snd g / total_loss * of_Z 100) pareto_df in
  let kumulatif := cumsum_skipna (Fin 0) yuzde in
  let table :=
    map (fun '(g, y, c) =>
           {| Kayip_Turu := fst g;
              Toplam_Saat := snd g;
              loss_Yuzde := y;
              loss_Kumulatif_Yuzde := c;
              Kritiklik := kritiklik_of c |})
        (combine (combine pareto_df yuzde) kumulatif) in
  let costs :=
    [round (pd_sum (map Durma_Suresi_Saat df) * of_Z 500) 0;
     round (pd_sum (map KK_Hazirlik_Saat df) * of_Z 300) 0;
     round (pd_sum (map KK_Surec_Saat df) * of_Z 350) 0] in
  (table,
   {| toplam_kayip_saat := round total_loss 1;
      ort_motor_basi_kayip := round (total_loss / of_nat (length df)) 2;
      tahmini_toplam_maliyet := fold_left fadd costs (Fin 0) |}).

End ParetoAnalysis.

(** ** src/analysis/descriptive_stats.py *)

Module DescriptiveStats.

Inductive skew_label : Type :=
| Simetrik     (* "Simetrik dagilim" *)
| SagaCarpik   (* "Saga carpik (pozitif carpik)" *)
| SolaCarpik.  (* "Sola carpik (negatif carpik)" *)

Inductive kurt_label : Type :=
| Mesokurtic   (* "Normal basiklik (mesokurtic)" *)
| Leptokurtic  (* "Sivri dagilim (leptokurtic)" *)
| Platykurtic. (* "Basik dagilim (platykurtic)" *)

(** The two parts that [", ".join(interpretation)] glues together. *)
Definition _interpret_distribution (skew kurt : float64)
  : skew_label * kurt_label :=
  (if fabs skew <? Fin 0.5 then Simetrik
   else if skew >? Fin 0.5 then SagaCarpik
   else SolaCarpik,
   if fabs kurt <? Fin 0.5 then Mesokurtic
   else if kurt >? Fin 0.5 then Leptokurtic
   else Platykurtic).

End DescriptiveStats.

(** ** src/utils/data_loader.py *)

Module DataLoader.

Inductive kategori : Type :=
| HayatiAzinlik     (* "Hayati Azinlik", cumulative percent <= 80 *)
| OnemsizCogunluk.  (* "Onemsiz Cogunluk" *)

Record pareto_row : Type := {
  Hata_Nedeni : string;
  Adet : nat;
  Yuzde : float64;
  Kumulatif_Yuzde : float64;
  Kategori : kategori
}.

(** [hata_nedeni] is the ['Hata_Nedeni'] column of [self.processed_df];
    the empty [pd.DataFrame()] is the empty list of rows.  The pandas
    pipeline is the one of [ParetoAnalysis.analyze_defects]. *)
Definition get_pareto_data (hata_nedeni : list string) : list pareto_row :=
  let hata_df := filter (fun h => negb (String.eqb h "-")) hata_nedeni in
  if (length hata_df =? 0)%nat then []
  else
    let pareto :=
      ParetoAnalysis.sort_values_desc (ParetoAnalysis.groupby_size hata_df) in
    let adet_sum := fold_left Nat.add (map snd pareto) 0%nat in
    let yuzde :=
      map (fun g => of_nat (snd g) / of_nat adet_sum * of_Z 100) pareto in
    let kumulatif := ParetoAnalysis.cumsum yuzde in
    map (fun '(g, y, c) =>
           {| Hata_Nedeni := fst g;
              Adet := snd g;
              Yuzde := y;
              Kumulatif_Yuzde := c;
              Kategori := if c <=? Fin 80 then HayatiAzinlik
                          else OnemsizCogunluk |})
        (combine (combine pareto yuzde) kumulatif).

End DataLoader.

(** * Properties *)

(** ** Arrays and loops *)

Section ArrayLemmas.
Context {A : Type}.
Implicit Types (a : list A) (i j : nat) (v d : A).

Lemma getitem_in_range a i d :
  (i < length a)%nat -> getitem a i = Ok (nth i a d).
Proof.
  intros Hi. unfold getitem.
  destruct (nth_error a i) as [x|] eqn:E.
  - now rewrite (nth_error_nth _ _ d E).
  - apply nth_error_None in E. lia.
Qed.

Lemma setitem_in_range a i v :
  (i < length a)%nat ->
  setitem a i v = Ok (firstn i a ++ v :: skipn (S i) a).
Proof.
  intros Hi. unfold setitem.
  destruct (Nat.ltb_spec i (length a)); [reflexivity | lia].
Qed.

Lemma setitem_out_of_range a i v :
  (length a <= i)%nat -> setitem a i v = Raise IndexError.
Proof.
  intros Hi. unfold setitem.
  destruct (Nat.ltb_spec i (length a)); [lia | reflexivity].
Qed.

Lemma length_update a i v :
  (i < length a)%nat ->
  length (firstn i a ++ v :: skipn (S i) a) = length a.
Proof.
  intros Hi. rewrite length_app, length_firstn.
  change (length (v :: skipn (S i) a)) with (S (length (skipn (S i) a))).
  rewrite length_skipn. lia.
Qed.

Lemma nth_update_same a i v d :
  (i < length a)%nat ->
  nth i (firstn i a ++ v :: skipn (S i) a) d = v.
Proof.
  intros Hi.
  rewrite app_nth2; rewrite length_firstn; [|lia].
  replace (i - Nat.min i (length a))%nat with 0%nat by lia.
  reflexivity.
Qed.

Lemma nth_update_other a i j v d :
  (i < length a)%nat -> j <> i ->
  nth j (firstn i a ++ v :: skipn (S i) a) d = nth j a d.
Proof.
  intros Hi Hj.
  destruct (Nat.lt_ge_cases j i) as [Hlt|Hge].
  - rewrite app_nth1 by (rewrite length_firstn; lia).
    now rewrite nth_firstn, (proj2 (Nat.ltb_lt j i) Hlt).
  - rewrite app_nth2 by (rewrite length_firstn; lia).
    rewrite length_firstn.
    replace (j - Nat.min i (length a))%nat with (S (j - S i)) by lia.
    cbn [nth]. rewrite nth_skipn. f_equal. lia.
Qed.

(** The loop rule: an invariant indexed by the next index to run. *)
Lemma for_each_seq_invariant {S : Type} (body : nat -> S -> result S)
      (Inv : nat -> S -> Prop) (len : nat) :
  forall (start : nat) (s : S),
    Inv start s ->
    (forall i s0,
        (start <= i < start + len)%nat -> Inv i s0 ->
        exists s1, body i s0 = Ok s1 /\ Inv (Datatypes.S i) s1) ->
    exists s', for_each (seq start len) body s = Ok s' /\ Inv (start + len)%nat s'.
Proof.
  induction len as [|len IH]; intros start s H0 Hstep; simpl.
  - exists s. now rewrite Nat.add_0_r.
  - destruct (Hstep start s) as (s1 & Hb & H1); [lia | exact H0 |].
    rewrite Hb. simpl.
    destruct (IH (Datatypes.S start) s1 H1) as (s' & Hf & H').
    + intros i s0 Hi. apply Hstep. lia.
    + exists s'. split; [exact Hf|].
      now replace (start + Datatypes.S len)%nat with (Datatypes.S start + len)%nat by lia.
Qed.

Lemma map_each_total {B : Type} (idx : list nat) (f : nat -> result B)
      (g : nat -> B) :
  (forall i, In i idx -> f i = Ok (g i)) ->
  map_each idx f = Ok (map g idx).
Proof.
  induction idx as [|i idx IH]; intros Hf; simpl; [reflexivity|].
  rewrite (Hf i) by now left. simpl.
  rewrite IH by (intros; apply Hf; now right).
  reflexivity.
Qed.
End ArrayLemmas.

Lemma length_np_zeros n : length (np_zeros n) = n.
Proof. apply repeat_length. Qed.

Lemma nth_np_zeros n i : (i < n)%nat -> nth i (np_zeros n) NaN = Fin 0.
Proof.
  intros Hi. unfold np_zeros.
  apply nth_repeat_lt. exact Hi.
Qed.

(** ** Comparisons of idealised floats *)

Lemma Qltb_lt (x y : Q) : Qltb x y = true <-> (x < y)%Q.
Proof.
  unfold Qltb. rewrite negb_true_iff.
  destruct (Qle_bool y x) eqn:E.
  - apply Qle_bool_iff in E. split; [discriminate | intros H; exfalso; lra].
  - split; [intros _ | reflexivity].
    destruct (Qlt_le_dec x y) as [H|H]; [exact H|].
    apply Qle_bool_iff in H. congruence.
Qed.

Lemma Qltb_ge (x y : Q) : Qltb x y = false <-> (y <= x)%Q.
Proof.
  unfold Qltb. rewrite negb_false_iff. apply Qle_bool_iff.
Qed.

Lemma Qeq_bool_false (x y : Q) : Qeq_bool x y = false <-> ~ (x == y)%Q.
Proof.
  split.
  - intros E H. apply Qeq_bool_iff in H. congruence.
  - intros H. destruct (Qeq_bool x y) eqn:E; [|reflexivity].
    apply Qeq_bool_iff in E. contradiction.
Qed.

Lemma py_max_zero_nonneg (v : float64) :
  (Fin 0 <=? py_max (Fin 0) v) = true.
Proof.
  unfold py_max, fgt.
  destruct (Fin 0 <? v) eqn:E; [|reflexivity].
  destruct v as [q| | |]; simpl in *; try discriminate; try reflexivity.
  apply Qltb_lt in E. apply Qle_bool_iff. lra.
Qed.

(** ** CUSUM: the one-sided sums *)

(** [z[i] = (x[i] - mean) / sigma], with the sample standard deviation. *)
Definition standardize (data : list float64) : list float64 :=
  map (fun x => (x - np_mean data) / np_std_ddof1 data) data.

(** What the design document asks of the two sequences: they start at
    zero, follow the two recurrences from index 1 on, and never go below
    zero. *)
Definition cusum_sums (z : list float64) (k : Q)
           (c_plus c_minus : list float64) : Prop :=
  length c_plus = length z /\
  length c_minus = length z /\
  ((0 < length z)%nat ->
     nth 0 c_plus NaN = Fin 0 /\ nth 0 c_minus NaN = Fin 0) /\
  (forall i, (1 <= i < length z)%nat ->
     nth i c_plus NaN
       = py_max (Fin 0) (nth i z NaN - Fin k + nth (i - 1) c_plus NaN) /\
     nth i c_minus NaN
       = py_max (Fin 0) (fopp (nth i z NaN) - Fin k + nth (i - 1) c_minus NaN)) /\
  (forall i, (i < length z)%nat ->
     (Fin 0 <=? nth i c_plus NaN) = true /\
     (Fin 0 <=? nth i c_minus NaN) = true).

Section CusumLoop.
Variables (z : list float64) (k : Q).
Let n := length z.

(** The loop invariant before iteration [i]: entries from [i] on are
    still the zeros of [np.zeros], entries below [i] obey the
    recurrences. *)
Definition cusum_inv (i : nat) (c : list float64 * list float64) : Prop :=
  let (c_plus, c_minus) := c in
  length c_plus = n /\
  length c_minus = n /\
  ((0 < n)%nat -> nth 0 c_plus NaN = Fin 0 /\ nth 0 c_minus NaN = Fin 0) /\
  (forall j, (1 <= j < i)%nat ->
     nth j c_plus NaN
       = py_max (Fin 0) (nth j z NaN - Fin k + nth (j - 1) c_plus NaN) /\
     nth j c_minus NaN
       = py_max (Fin 0) (fopp (nth j z NaN) - Fin k + nth (j - 1) c_minus NaN)) /\
  (forall j, (j < n)%nat ->
     (Fin 0 <=? nth j c_plus NaN) = true /\
     (Fin 0 <=? nth j c_minus NaN) = true).

Lemma cusum_inv_init : cusum_inv 1 (np_zeros n, np_zeros n).
Proof.
  unfold cusum_inv. rewrite !length_np_zeros.
  repeat split; try (rewrite nth_np_zeros by lia; reflexivity); lia.
Qed.

Lemma cusum_step_preserves (i : nat) (c : list float64 * list float64) :
  (1 <= i < n)%nat -> cusum_inv i c ->
  exists c', StatisticalCalculator.cusum_step z k i c = Ok c' /\
             cusum_inv (S i) c'.
Proof.
  intros Hi. destruct c as [cp cm].
  intros (Lp & Lm & H0 & Hrec & Hpos).
  unfold StatisticalCalculator.cusum_step.
  rewrite (getitem_in_range z i NaN) by (fold n; lia). cbn [bind].
  rewrite (getitem_in_range cp (i - 1) NaN) by lia. cbn [bind].
  rewrite setitem_in_range by lia. cbn [bind].
  rewrite (getitem_in_range cm (i - 1) NaN) by lia. cbn [bind].
  rewrite setitem_in_range by lia. cbn [bind].
  eexists. split; [reflexivity|].
  unfold cusum_inv.
  rewrite !length_update by lia.
  split; [exact Lp|]. split; [exact Lm|]. split; [|split].
  - intros Hn. rewrite !nth_update_other by lia. now apply H0.
  - intros j Hj.
    destruct (Nat.eq_dec j i) as [->|Hne].
    + rewrite !nth_update_same by lia.
      rewrite !nth_update_other by lia. split; reflexivity.
    + rewrite !(nth_update_other _ i j) by lia.
      rewrite !(nth_update_other _ i (j - 1)) by lia.
      apply Hrec. lia.
  - intros j Hj.
    destruct (Nat.eq_dec j i) as [->|Hne].
    + rewrite !nth_update_same by lia.
      split; apply py_max_zero_nonneg.
    + rewrite !nth_update_other by lia. now apply Hpos.
Qed.

Lemma cusum_loop_sums :
  exists c_plus c_minus,
    for_each (py_range 1 n) (StatisticalCalculator.cusum_step z k)
             (np_zeros n, np_zeros n) = Ok (c_plus, c_minus) /\
    cusum_sums z k c_plus c_minus.
Proof.
  destruct (for_each_seq_invariant
              (StatisticalCalculator.cusum_step z k) cusum_inv (n - 1) 1
              (np_zeros n, np_zeros n) cusum_inv_init)
    as ([cp cm] & Hrun & Hinv).
  - intros i c Hi. apply cusum_step_preserves. lia.
  - exists cp, cm. split; [exact Hrun|].
    destruct Hinv as (Lp & Lm & H0 & Hrec & Hpos).
    unfold cusum_sums. fold n.
    repeat split; try assumption; try (now apply H0);
      try (apply Hrec; lia); now apply Hpos.
Qed.
End CusumLoop.

Lemma length_standardize data : length (standardize data) = length data.
Proof. apply length_map. Qed.

(** C8.  For every series and every pair [(k, h)], both CUSUM entry points
    return, and the sums they return start at [C+[0] = C-[0] = 0], satisfy
    [C+[i] = max(0, z[i] - k + C+[i-1])] and
    [C-[i] = max(0, -z[i] - k + C-[i-1])] for [i >= 1], and are
    non-negative at every index. *)
Theorem cusum_recurrences_and_nonnegativity
        (data : list float64) (df : ControlCharts.dataframe) (k h : Q) :
  (exists r,
      StatisticalCalculator.calculate_cusum data k h = Ok r /\
      cusum_sums (standardize data) k
                 (StatisticalCalculator.C_plus r)
                 (StatisticalCalculator.C_minus r)) /\
  (exists r,
      ControlCharts.create_cusum_chart df k h = Ok r /\
      ControlCharts.standardized_values r = standardize (ControlCharts.column df) /\
      cusum_sums (standardize (ControlCharts.column df)) k
                 (ControlCharts.C_plus r)
                 (ControlCharts.C_minus r)).
Proof.
  split.
  - destruct (cusum_loop_sums (standardize data) k) as (cp & cm & Hrun & Hs).
    rewrite length_standardize in Hrun.
    unfold StatisticalCalculator.calculate_cusum.
    fold (standardize data). rewrite Hrun. cbn [bind].
    eexists. split; [reflexivity|]. exact Hs.
  - set (d := ControlCharts.column df).
    destruct (cusum_loop_sums (standardize d) k) as (cp & cm & Hrun & Hs).
    rewrite length_standardize in Hrun.
    unfold ControlCharts.create_cusum_chart.
    fold d. fold (standardize d). rewrite Hrun. cbn [bind].
    eexists. split; [reflexivity|]. split; [reflexivity|]. exact Hs.
Qed.

(** ** Control limits: chart types and subgroup sizes *)

Section ControlLimits.
Import Constants StatisticalCalculator.

(** The row the two [.get(n, CONTROL_CONSTANTS[1])] fall back to. *)
Definition individuals_row : control_constants :=
  {| A2 := 2.659; D3 := 0; D4 := 3.267; d2 := 1.128 |}.

Lemma CONTROL_CONSTANTS_item_1 :
  CONTROL_CONSTANTS_item 1 = Ok individuals_row.
Proof. reflexivity. Qed.

Lemma dict_find_untabulated (n : Z) :
  (n < 1 \/ 5 < n)%Z -> dict_find CONTROL_CONSTANTS n = None.
Proof.
  intros Hn. unfold CONTROL_CONSTANTS. cbn [dict_find].
  repeat match goal with
         | |- context [(?c =? n)%Z] =>
           destruct (Z.eqb_spec c n); [lia|]
         end.
  reflexivity.
Qed.

Lemma dict_find_tabulated (n : Z) :
  (1 <= n <= 5)%Z -> exists row, dict_find CONTROL_CONSTANTS n = Some row.
Proof.
  intros Hn.
  assert (n = 1 \/ n = 2 \/ n = 3 \/ n = 4 \/ n = 5)%Z
    as [->|[->|[->|[->| ->]]]] by lia;
    eexists; reflexivity.
Qed.

Lemma py_range_step_nonzero (stop : nat) (step : Z) :
  step <> 0%Z -> exists idx, py_range_step stop step = Ok idx.
Proof.
  intros Hs. unfold py_range_step.
  destruct (Z.eqb_spec step 0); [contradiction|].
  destruct (step <? 0)%Z; eexists; reflexivity.
Qed.

Lemma subgroup_ranges_nonzero (data : list float64) (n : Z) :
  n <> 0%Z -> exists ranges, subgroup_ranges data n = Ok ranges.
Proof.
  intros Hn. unfold subgroup_ranges.
  destruct (py_range_step_nonzero (length data) n Hn) as (idx & ->).
  eexists. reflexivity.
Qed.

(** A zero subgroup size stops in [range(0, len(data), 0)]. *)
Lemma zero_subgroup_size_raises (data : list float64) :
  calculate_control_limits data "xbar" 0 = Raise ValueError /\
  calculate_control_limits data "r" 0 = Raise ValueError.
Proof. split; reflexivity. Qed.
End ControlLimits.

(** C10.  With a [chart_type] other than ['xbar'], ['mr'] and ['r'],
    [calculate_control_limits] takes no branch and returns [None], for
    every data array and every subgroup size. *)
Theorem unknown_chart_type_returns_None
        (data : list float64) (chart_type : string) (subgroup_size : Z) :
  chart_type <> "xbar"%string ->
  chart_type <> "mr"%string ->
  chart_type <> "r"%string ->
  StatisticalCalculator.calculate_control_limits data chart_type subgroup_size
  = Ok None.
Proof.
  intros Hx Hm Hr.
  unfold StatisticalCalculator.calculate_control_limits.
  rewrite CONTROL_CONSTANTS_item_1. cbn [bind].
  apply String.eqb_neq in Hx, Hm, Hr.
  now rewrite Hx, Hm, Hr.
Qed.

Lemma unknown_chart_type_returns_None_witness :
  "ewma"%string <> "xbar"%string /\
  "ewma"%string <> "mr"%string /\
  "ewma"%string <> "r"%string /\
  StatisticalCalculator.calculate_control_limits
    (map Fin [10; 12; 11; 13; 50]%Q) "ewma" 1 = Ok None.
Proof.
  assert (H1 : "ewma"%string <> "xbar"%string) by discriminate.
  assert (H2 : "ewma"%string <> "mr"%string) by discriminate.
  assert (H3 : "ewma"%string <> "r"%string) by discriminate.
  split; [exact H1|]. split; [exact H2|]. split; [exact H3|].
  exact (unknown_chart_type_returns_None _ "ewma" 1 H1 H2 H3).
Defined.

(** The statement of C2 fails on the source: subgroup size 6 has no row in
    [CONTROL_CONSTANTS], yet both entry points return numeric limits. *)
Lemma untabulated_subgroup_size_counterexample :
  StatisticalCalculator.calculate_control_limits
    (map Fin [1; 2; 3; 4; 5; 6; 7; 8; 9; 10; 11; 12]%Q) "xbar" 6
  = Ok (Some {| StatisticalCalculator.lim_UCL := Fin 19.80;
                StatisticalCalculator.lim_CL := Fin 6.50;
                StatisticalCalculator.lim_LCL := Fin (-6.80);
                StatisticalCalculator.lim_sigma := Some (Fin 4.433) |}) /\
  ~ raises (StatisticalCalculator.calculate_control_limits
              (map Fin [1; 2; 3; 4; 5; 6; 7; 8; 9; 10; 11; 12]%Q) "xbar" 6) /\
  ~ raises (ControlCharts.create_xbar_r_chart
              (map (fun x => ("M"%string, Fin x))
                   [1; 2; 3; 4; 5; 6; 7; 8; 9; 10; 11; 12]%Q) 6).
Proof.
  split; [vm_compute; reflexivity|].
  split; intros [e He]; vm_compute in He; discriminate He.
Qed.

(** C2, as the source has it.  For a subgroup size [n] outside [1..5] the
    constants fall back to the row of [n = 1]; when moreover [n <> 0], no
    exception is raised and limits are returned, computed with that row
    ([A2 = 2.659], [D3 = 0], [D4 = 3.267], [d2 = 1.128]). *)
Theorem untabulated_subgroup_size_falls_back
        (data : list float64) (df : ControlCharts.dataframe) (n : Z) :
  (n < 1 \/ 5 < n)%Z -> n <> 0%Z ->
  dict_get Constants.CONTROL_CONSTANTS n individuals_row = individuals_row /\
  (exists ranges lx lr lmr,
      StatisticalCalculator.subgroup_ranges data n = Ok ranges /\
      StatisticalCalculator.calculate_control_limits data "xbar" n = Ok (Some lx) /\
      StatisticalCalculator.lim_sigma lx
        = Some (round (np_mean ranges / Fin 1.128) 3) /\
      StatisticalCalculator.lim_UCL lx
        = round (np_mean data + of_Z 3 * (np_mean ranges / Fin 1.128)) 2 /\
      StatisticalCalculator.lim_LCL lx
        = round (np_mean data - of_Z 3 * (np_mean ranges / Fin 1.128)) 2 /\
      StatisticalCalculator.calculate_control_limits data "r" n = Ok (Some lr) /\
      StatisticalCalculator.lim_UCL lr = round (Fin 3.267 * np_mean ranges) 2 /\
      StatisticalCalculator.lim_LCL lr = round (Fin 0 * np_mean ranges) 2 /\
      StatisticalCalculator.calculate_control_limits data "mr" n = Ok (Some lmr) /\
      StatisticalCalculator.lim_UCL lmr
        = round (Fin 3.267 * np_mean (map fabs (np_diff data))) 2) /\
  (exists xb rc,
      ControlCharts.create_xbar_r_chart df n = Ok (ControlCharts.XbarR xb rc) /\
      ControlCharts.sg_UCL xb
        = round (np_mean (ControlCharts.sg_values xb)
                 + Fin 2.659 * np_mean (ControlCharts.sg_values rc)) 2 /\
      ControlCharts.sg_LCL xb
        = round (np_mean (ControlCharts.sg_values xb)
                 - Fin 2.659 * np_mean (ControlCharts.sg_values rc)) 2 /\
      ControlCharts.sg_UCL rc
        = round (Fin 3.267 * np_mean (ControlCharts.sg_values rc)) 2 /\
      ControlCharts.sg_LCL rc
        = round (Fin 0 * np_mean (ControlCharts.sg_values rc)) 2).
Proof.
  intros Hn Hz.
  assert (Hget : dict_get Constants.CONTROL_CONSTANTS n individuals_row
                 = individuals_row).
  { unfold dict_get. now rewrite dict_find_untabulated. }
  assert (Hn1 : (n =? 1)%Z = false) by (apply Z.eqb_neq; lia).
  split; [exact Hget|]. split.
  - destruct (subgroup_ranges_nonzero data n Hz) as (ranges & Hr).
    unfold StatisticalCalculator.calculate_control_limits.
    rewrite CONTROL_CONSTANTS_item_1. cbn [bind].
    rewrite Hget, Hn1, Hr. cbn [bind String.eqb Ascii.eqb Bool.eqb].
    do 4 eexists.
    repeat (split; [reflexivity|]). reflexivity.
  - unfold ControlCharts.create_xbar_r_chart.
    rewrite CONTROL_CONSTANTS_item_1. cbn [bind].
    rewrite Hget, Hn1.
    destruct (py_range_step_nonzero (length (ControlCharts.column df)) n Hz)
      as (idx & ->).
    cbn [bind]. do 2 eexists.
    repeat (split; [reflexivity|]). reflexivity.
Qed.

Lemma untabulated_subgroup_size_falls_back_witness :
  (6 < 1 \/ 5 < 6)%Z /\ 6%Z <> 0%Z /\
  dict_get Constants.CONTROL_CONSTANTS 6 individuals_row = individuals_row.
Proof.
  assert (H1 : (6 < 1 \/ 5 < 6)%Z) by (right; reflexivity).
  assert (H2 : 6%Z <> 0%Z) by discriminate.
  split; [exact H1|]. split; [exact H2|].
  exact (proj1 (untabulated_subgroup_size_falls_back
                  (map Fin [1; 2; 3; 4; 5; 6; 7; 8; 9; 10; 11; 12]%Q)
                  (map (fun x => ("M"%string, Fin x)) [1; 2; 3; 4; 5; 6]%Q)
                  6 H1 H2)).
Defined.

(** ** Finite series *)

Definition Qsum (qs : list Q) : Q := fold_left Qplus qs 0%Q.

Definition Qmean (qs : list Q) : Q :=
  (Qsum qs / inject_Z (Z.of_nat (length qs)))%Q.

Lemma fold_fadd_finite (qs : list Q) (a : Q) :
  fold_left fadd (map Fin qs) (Fin a) = Fin (fold_left Qplus qs a).
Proof.
  revert a. induction qs as [|q qs IH]; intros a; simpl; [reflexivity|].
  apply IH.
Qed.

Lemma np_sum_finite (qs : list Q) : np_sum (map Fin qs) = Fin (Qsum qs).
Proof. apply fold_fadd_finite. Qed.

Lemma inject_nat_nonzero (n : nat) :
  (0 < n)%nat -> Qeq_bool (inject_Z (Z.of_nat n)) 0 = false.
Proof.
  intros Hn. apply Qeq_bool_false.
  unfold Qeq, inject_Z. simpl. lia.
Qed.

Lemma np_mean_finite (qs : list Q) :
  qs <> [] -> np_mean (map Fin qs) = Fin (Qmean qs).
Proof.
  intros Hne. unfold np_mean, Qmean.
  rewrite np_sum_finite, length_map. unfold of_nat, fdiv.
  rewrite inject_nat_nonzero; [reflexivity|].
  destruct qs; [contradiction | simpl; lia].
Qed.

Lemma nth_map_Fin (qs : list Q) (i : nat) :
  (i < length qs)%nat -> nth i (map Fin qs) NaN = Fin (nth i qs 0%Q).
Proof.
  intros Hi. rewrite (nth_indep _ NaN (Fin 0%Q)) by now rewrite length_map.
  apply (map_nth Fin).
Qed.

(** ** EWMA: the smoothed sequence *)

(** [z[0] = mean(series)] and
    [z[i] = lambda * x[i] + (1 - lambda) * z[i-1]] for [i >= 1]. *)
Definition ewma_sequence (data : list float64) (lambda_val : Q)
           (z : list float64) : Prop :=
  length z = length data /\
  nth 0 z NaN = np_mean data /\
  (forall i, (1 <= i < length data)%nat ->
     nth i z NaN
       = Fin lambda_val * nth i data NaN
         + Fin (1 - lambda_val)%Q * nth (i - 1) z NaN).

Section EwmaLoop.
Variables (data : list float64) (lambda_val : Q).
Let n := length data.

Definition ewma_inv (i : nat) (z : list float64) : Prop :=
  length z = n /\
  nth 0 z NaN = np_mean data /\
  (forall j, (1 <= j < i)%nat ->
     nth j z NaN
       = Fin lambda_val * nth j data NaN
         + Fin (1 - lambda_val)%Q * nth (j - 1) z NaN).

Lemma ewma_step_preserves (i : nat) (z : list float64) :
  (1 <= i < n)%nat -> ewma_inv i z ->
  exists z', StatisticalCalculator.ewma_step data lambda_val i z = Ok z' /\
             ewma_inv (S i) z'.
Proof.
  intros Hi (Lz & H0 & Hrec).
  unfold StatisticalCalculator.ewma_step.
  rewrite (getitem_in_range data i NaN) by (fold n; lia). cbn [bind].
  rewrite (getitem_in_range z (i - 1) NaN) by lia. cbn [bind].
  rewrite setitem_in_range by lia.
  eexists. split; [reflexivity|].
  unfold ewma_inv. rewrite length_update by lia.
  split; [exact Lz|]. split.
  - rewrite nth_update_other by lia. exact H0.
  - intros j Hj.
    destruct (Nat.eq_dec j i) as [->|Hne].
    + rewrite nth_update_same by lia.
      rewrite nth_update_other by lia. reflexivity.
    + rewrite (nth_update_other _ i j) by lia.
      rewrite (nth_update_other _ i (j - 1)) by lia.
      apply Hrec. lia.
Qed.

(** The first two statements after [z = np.zeros(n)]: the assignment to
    [z[0]] needs a point to exist, the loop then fills the rest. *)
Lemma ewma_loop_sequence :
  data <> [] ->
  exists z,
    (z0 <- setitem (np_zeros n) 0%nat (np_mean data) ;;
     for_each (py_range 1 n) (StatisticalCalculator.ewma_step data lambda_val) z0)
    = Ok z /\
    ewma_sequence data lambda_val z.
Proof.
  intros Hne.
  assert (Hn : (0 < n)%nat).
  { subst n. destruct data; [contradiction | simpl; lia]. }
  rewrite setitem_in_range by (rewrite length_np_zeros; exact Hn).
  cbn [bind].
  set (z0 := firstn 0 (np_zeros n) ++ np_mean data :: skipn 1 (np_zeros n)).
  assert (H0 : ewma_inv 1 z0).
  { unfold ewma_inv, z0. rewrite length_update by (rewrite length_np_zeros; lia).
    rewrite length_np_zeros.
    split; [reflexivity|]. split; [reflexivity|]. intros j Hj. lia. }
  destruct (for_each_seq_invariant
              (StatisticalCalculator.ewma_step data lambda_val)
              ewma_inv (n - 1) 1 z0 H0) as (z & Hrun & Hinv).
  - intros i s Hi. apply ewma_step_preserves. lia.
  - exists z. split; [exact Hrun|].
    destruct Hinv as (Lz & Hz0 & Hrec).
    unfold ewma_sequence. fold n.
    split; [exact Lz|]. split; [exact Hz0|].
    intros i Hi. apply Hrec. lia.
Qed.

Lemma ewma_loop_empty :
  data = [] ->
  (z0 <- setitem (np_zeros n) 0%nat (np_mean data) ;;
   for_each (py_range 1 n) (StatisticalCalculator.ewma_step data lambda_val) z0)
  = Raise IndexError.
Proof.
  intros He. subst n. rewrite He. reflexivity.
Qed.

(** The limits loop runs unless [2 - lambda_val] is zero. *)
Lemma ewma_var_factor_defined (i : nat) :
  ~ (lambda_val == 2)%Q ->
  StatisticalCalculator.ewma_var_factor lambda_val i
  = Ok (lambda_val / (2 - lambda_val)
        * (1 - (1 - lambda_val) ^ (2 * (Z.of_nat i + 1))))%Q.
Proof.
  intros Hl. unfold StatisticalCalculator.ewma_var_factor, py_div.
  assert (E : Qeq_bool (2 - lambda_val) 0 = false).
  { apply Qeq_bool_false. intros H. apply Hl. lra. }
  rewrite E. reflexivity.
Qed.
End EwmaLoop.

Lemma calculate_ewma_returns (data : list float64) (lambda_val L : Q) :
  data <> [] -> ~ (lambda_val == 2)%Q ->
  exists r,
    StatisticalCalculator.calculate_ewma data lambda_val L = Ok r /\
    ewma_sequence data lambda_val (StatisticalCalculator.ewma_values r).
Proof.
  intros Hne Hl.
  destruct (ewma_loop_sequence data lambda_val Hne) as (z & Hrun & Hseq).
  unfold StatisticalCalculator.calculate_ewma.
  destruct (setitem (np_zeros (length data)) 0 (np_mean data)) as [z0|e] eqn:E0;
    cbn [bind] in Hrun |- *; [|discriminate Hrun].
  rewrite Hrun. cbn [bind].
  erewrite map_each_total.
  2:{ intros i _. rewrite ewma_var_factor_defined by exact Hl.
      cbn [bind]. reflexivity. }
  cbn [bind]. eexists. split; [reflexivity|]. exact Hseq.
Qed.

Lemma create_ewma_chart_returns
      (df : ControlCharts.dataframe) (lambda_val L : Q) :
  df <> [] -> ~ (lambda_val == 2)%Q ->
  exists r,
    ControlCharts.create_ewma_chart df lambda_val L = Ok r /\
    ewma_sequence (ControlCharts.column df) lambda_val
                  (ControlCharts.ewma_values r) /\
    ControlCharts.ewma_trend r
    = ControlCharts.trend_of (ControlCharts.ewma_values r).
Proof.
  intros Hne Hl.
  assert (Hd : ControlCharts.column df <> []).
  { unfold ControlCharts.column. destruct df; [contradiction | discriminate]. }
  destruct (ewma_loop_sequence (ControlCharts.column df) lambda_val Hd)
    as (z & Hrun & Hseq).
  unfold ControlCharts.create_ewma_chart.
  destruct (setitem (np_zeros (length (ControlCharts.column df))) 0
                    (np_mean (ControlCharts.column df))) as [z0|e] eqn:E0;
    cbn [bind] in Hrun |- *; [|discriminate Hrun].
  rewrite Hrun. cbn [bind].
  erewrite map_each_total.
  2:{ intros i _. rewrite ewma_var_factor_defined by exact Hl.
      cbn [bind]. reflexivity. }
  cbn [bind]. eexists. split; [reflexivity|].
  split; [exact Hseq | reflexivity].
Qed.

(** *** Smoothing weight 1 *)

(** With [lambda = 1] the sequence is the series itself from the second
    point on, while the first point stays the series mean. *)
Definition lambda_one_sequence (qs : list Q) (z : list float64) : Prop :=
  length z = length qs /\
  nth 0 z NaN = Fin (Qmean qs) /\
  (forall i, (1 <= i < length qs)%nat ->
     nth i z NaN =~ Fin (nth i qs 0%Q)).

Lemma ewma_sequence_lambda_one (qs : list Q) (z : list float64) :
  qs <> [] ->
  ewma_sequence (map Fin qs) 1 z -> lambda_one_sequence qs z.
Proof.
  intros Hne (Lz & H0 & Hrec).
  rewrite length_map in Lz, Hrec.
  rewrite np_mean_finite in H0 by exact Hne.
  assert (Hfin : forall i, (i < length qs)%nat ->
                 exists q, nth i z NaN = Fin q /\
                           ((1 <= i)%nat -> (q == nth i qs 0)%Q)).
  { induction i as [|i IH]; intros Hi.
    - exists (Qmean qs). split; [exact H0 | lia].
    - destruct IH as (q & Hq & _); [lia|].
      rewrite Hrec by lia.
      replace (S i - 1)%nat with i by lia.
      rewrite Hq, nth_map_Fin by lia. cbn [fmul fadd].
      eexists. split; [reflexivity|]. intros _. ring. }
  split; [exact Lz|]. split; [exact H0|].
  intros i Hi. destruct (Hfin i) as (q & -> & Hq); [lia|].
  simpl. apply Hq. lia.
Qed.

Lemma column_of_rows (rows : list (string * Q)) :
  ControlCharts.column (map (fun row => (fst row, Fin (snd row))) rows)
  = map Fin (map snd rows).
Proof.
  unfold ControlCharts.column. rewrite !map_map. reflexivity.
Qed.

(** The statement of C5 fails on the source at the first point: for the
    series [1, 3] and [lambda = 1], [z[0]] is the mean 2, not [x[0] = 1]. *)
Lemma ewma_lambda_one_counterexample :
  exists r,
    StatisticalCalculator.calculate_ewma (map Fin [1; 3]%Q) 1 3 = Ok r /\
    ~ (forall i, (i < 2)%nat ->
         nth i (StatisticalCalculator.ewma_values r) NaN
         =~ nth i (map Fin [1; 3]%Q) NaN).
Proof.
  eexists. split; [vm_compute; reflexivity|].
  intros H. specialize (H 0%nat ltac:(lia)).
  vm_compute in H. discriminate H.
Qed.

(** C5, as the source has it.  For every non-empty series, the EWMA with
    [lambda = 1] returns [z[i] == x[i]] for all [i >= 1]; the anchored first
    point is [z[0] = mean(series)], not [x[0]]. *)
Theorem ewma_lambda_one_is_series_after_anchor
        (rows : list (string * Q)) (L : Q) :
  rows <> [] ->
  (exists r,
      StatisticalCalculator.calculate_ewma (map Fin (map snd rows)) 1 L = Ok r /\
      lambda_one_sequence (map snd rows) (StatisticalCalculator.ewma_values r)) /\
  (exists r,
      ControlCharts.create_ewma_chart
        (map (fun row => (fst row, Fin (snd row))) rows) 1 L = Ok r /\
      lambda_one_sequence (map snd rows) (ControlCharts.ewma_values r)).
Proof.
  intros Hne.
  assert (Hqs : map snd rows <> []).
  { destruct rows; [contradiction | discriminate]. }
  assert (Hl : ~ (1 == 2)%Q) by (intros H; discriminate H).
  split.
  - destruct (calculate_ewma_returns (map Fin (map snd rows)) 1 L)
      as (r & Hr & Hseq); [destruct rows; [contradiction|discriminate] | exact Hl |].
    exists r. split; [exact Hr|].
    now apply ewma_sequence_lambda_one.
  - destruct (create_ewma_chart_returns
                (map (fun row => (fst row, Fin (snd row))) rows) 1 L)
      as (r & Hr & Hseq & _);
      [destruct rows; [contradiction|discriminate] | exact Hl |].
    exists r. split; [exact Hr|].
    rewrite column_of_rows in Hseq.
    now apply ewma_sequence_lambda_one.
Qed.

Lemma ewma_lambda_one_is_series_after_anchor_witness :
  [("M1"%string, 1%Q); ("M2"%string, 3%Q)] <> [] /\
  exists r,
    StatisticalCalculator.calculate_ewma (map Fin [1; 3]%Q) 1 3 = Ok r /\
    lambda_one_sequence [1; 3]%Q (StatisticalCalculator.ewma_values r).
Proof.
  assert (H : [("M1"%string, 1%Q); ("M2"%string, 3%Q)] <> []) by discriminate.
  split; [exact H|].
  exact (proj1 (ewma_lambda_one_is_series_after_anchor
                  [("M1"%string, 1%Q); ("M2"%string, 3%Q)] 3 H)).
Defined.

(** *** Trend of the last ten EWMA values *)

Definition strictly_increasing (a : list float64) : Prop :=
  forall i, (S i < length a)%nat -> (nth i a NaN <? nth (S i) a NaN) = true.

Definition strictly_decreasing (a : list float64) : Prop :=
  forall i, (S i < length a)%nat -> (nth (S i) a NaN <? nth i a NaN) = true.

Lemma all_increasing_spec (a : list float64) :
  ControlCharts.all_increasing a = true <-> strictly_increasing a.
Proof.
  unfold ControlCharts.all_increasing, strictly_increasing, py_range, fgt.
  rewrite forallb_forall. split.
  - intros H i Hi. specialize (H (S i)).
    replace (S i - 1)%nat with i in H by lia.
    apply H. apply in_seq. lia.
  - intros H i Hi. apply in_seq in Hi.
    destruct i as [|i]; [lia|].
    replace (S i - 1)%nat with i by lia. apply H. lia.
Qed.

Lemma all_decreasing_spec (a : list float64) :
  ControlCharts.all_decreasing a = true <-> strictly_decreasing a.
Proof.
  unfold ControlCharts.all_decreasing, strictly_decreasing, py_range.
  rewrite forallb_forall. split.
  - intros H i Hi. specialize (H (S i)).
    replace (S i - 1)%nat with i in H by lia.
    apply H. apply in_seq. lia.
  - intros H i Hi. apply in_seq in Hi.
    destruct i as [|i]; [lia|].
    replace (S i - 1)%nat with i by lia. apply H. lia.
Qed.

Lemma flt_asymmetric (a b : float64) : (a <? b) = true -> (b <? a) = false.
Proof.
  destruct a as [x| | |], b as [y| | |]; simpl; try discriminate; try reflexivity.
  intros H. apply Qltb_lt in H. apply Qltb_ge. lra.
Qed.

Lemma increasing_not_decreasing (a : list float64) :
  (2 <= length a)%nat -> strictly_increasing a -> ~ strictly_decreasing a.
Proof.
  intros Hlen Hinc Hdec.
  specialize (Hinc 0%nat ltac:(lia)). specialize (Hdec 0%nat ltac:(lia)).
  apply flt_asymmetric in Hinc. congruence.
Qed.

Lemma length_last_n {A : Type} (a : list A) (n : nat) :
  (n <= length a)%nat -> length (last_n a n) = n.
Proof.
  intros Hn. unfold last_n. rewrite length_skipn. lia.
Qed.

(** What [trend_of] answers, case by case. *)
Lemma trend_of_spec (z : list float64) :
  ((10 < length z)%nat ->
     (ControlCharts.trend_of z = ControlCharts.Artan
        <-> strictly_increasing (last_n z 10)) /\
     (ControlCharts.trend_of z = ControlCharts.Azalan
        <-> strictly_decreasing (last_n z 10)) /\
     (ControlCharts.trend_of z = ControlCharts.Stabil
        <-> ~ strictly_increasing (last_n z 10) /\
            ~ strictly_decreasing (last_n z 10))) /\
  ((length z <= 10)%nat -> ControlCharts.trend_of z = ControlCharts.Stabil).
Proof.
  unfold ControlCharts.trend_of. split.
  - intros Hlen.
    destruct (Nat.ltb_spec 10 (length z)) as [_|]; [|lia].
    assert (L10 : (2 <= length (last_n z 10))%nat)
      by (rewrite length_last_n; lia).
    pose proof (all_increasing_spec (last_n z 10)) as Hi.
    pose proof (all_decreasing_spec (last_n z 10)) as Hd.
    pose proof (increasing_not_decreasing (last_n z 10) L10) as Hx.
    destruct (ControlCharts.all_increasing (last_n z 10));
      destruct (ControlCharts.all_decreasing (last_n z 10));
      repeat split; try discriminate; try tauto;
        intuition (try discriminate; try congruence).
  - intros Hlen.
    destruct (Nat.ltb_spec 10 (length z)) as [|_]; [lia | reflexivity].
Qed.

(** The statement of C7 fails on the source at exactly ten points: the
    ten EWMA values of this series rise strictly, yet the trend is
    "Stabil". *)
Lemma ewma_trend_ten_points_counterexample :
  exists r,
    ControlCharts.create_ewma_chart
      (map (fun x => ("M"%string, Fin x))
           [-100; 1; 2; 3; 4; 5; 6; 7; 8; 9]%Q) 1 3 = Ok r /\
    length (ControlCharts.ewma_values r) = 10%nat /\
    strictly_increasing (last_n (ControlCharts.ewma_values r) 10) /\
    ControlCharts.ewma_trend r <> ControlCharts.Artan.
Proof.
  eexists. split; [vm_compute; reflexivity|].
  split; [reflexivity|]. split.
  - apply all_increasing_spec. vm_compute. reflexivity.
  - vm_compute. discriminate.
Qed.

(** C7, as the source has it.  For every non-empty series (and
    [lambda <> 2]) the chart is returned; when it has more than ten points
    the trend is "Artan" exactly when the last ten EWMA values rise
    strictly, "Azalan" exactly when they fall strictly, and "Stabil"
    otherwise; with ten points or fewer the trend is always "Stabil". *)
Theorem ewma_trend_of_last_ten
        (df : ControlCharts.dataframe) (lambda_val L : Q) :
  df <> [] -> ~ (lambda_val == 2)%Q ->
  exists r,
    ControlCharts.create_ewma_chart df lambda_val L = Ok r /\
    length (ControlCharts.ewma_values r) = length df /\
    ((10 < length df)%nat ->
       let recent := last_n (ControlCharts.ewma_values r) 10 in
       (ControlCharts.ewma_trend r = ControlCharts.Artan
          <-> strictly_increasing recent) /\
       (ControlCharts.ewma_trend r = ControlCharts.Azalan
          <-> strictly_decreasing recent) /\
       (ControlCharts.ewma_trend r = ControlCharts.Stabil
          <-> ~ strictly_increasing recent /\ ~ strictly_decreasing recent)) /\
    ((length df <= 10)%nat ->
       ControlCharts.ewma_trend r = ControlCharts.Stabil).
Proof.
  intros Hne Hl.
  destruct (create_ewma_chart_returns df lambda_val L Hne Hl)
    as (r & Hr & (Lz & _) & Ht).
  unfold ControlCharts.column in Lz. rewrite length_map in Lz.
  exists r. split; [exact Hr|]. split; [exact Lz|].
  rewrite Ht, <- Lz. apply trend_of_spec.
Qed.

Lemma ewma_trend_of_last_ten_witness :
  map (fun x => ("M"%string, Fin x))
      [-100; 1; 2; 3; 4; 5; 6; 7; 8; 9; 10]%Q <> [] /\
  ~ (1 == 2)%Q /\
  exists r,
    ControlCharts.create_ewma_chart
      (map (fun x => ("M"%string, Fin x))
           [-100; 1; 2; 3; 4; 5; 6; 7; 8; 9; 10]%Q) 1 3 = Ok r /\
    length (ControlCharts.ewma_values r) = 11%nat.
Proof.
  assert (H1 : map (fun x => ("M"%string, Fin x))
                   [-100; 1; 2; 3; 4; 5; 6; 7; 8; 9; 10]%Q <> [])
    by discriminate.
  assert (H2 : ~ (1 == 2)%Q) by (intros H; discriminate H).
  split; [exact H1|]. split; [exact H2|].
  destruct (ewma_trend_of_last_ten _ 1 3 H1 H2) as (r & Hr & Hlen & _).
  exists r. split; [exact Hr | exact Hlen].
Defined.

(** ** Rounding *)

Lemma rint_wd (x y : Q) : (x == y)%Q -> rint x = rint y.
Proof.
  intros E. unfold rint.
  rewrite (Qfloor_comp _ _ E).
  assert (E' : (x - inject_Z (Qfloor y) == y - inject_Z (Qfloor y))%Q)
    by (rewrite E; reflexivity).
  now rewrite (Qcompare_comp _ _ E' (1 # 2) (1 # 2) (Qeq_refl _)).
Qed.

Lemma Qfloor_bounds (x : Q) :
  (inject_Z (Qfloor x) <= x /\ x < inject_Z (Qfloor x) + 1)%Q.
Proof.
  split; [apply Qfloor_le|].
  pose proof (Qlt_floor x) as H.
  rewrite inject_Z_plus in H. exact H.
Qed.

Lemma rint_cases (x : Q) :
  rint x = Qfloor x \/ rint x = (Qfloor x + 1)%Z.
Proof.
  unfold rint.
  destruct (Qcompare (x - inject_Z (Qfloor x)) (1 # 2)); auto.
  destruct (Z.even (Qfloor x)); auto.
Qed.

Lemma rint_monotone (x y : Q) : (x <= y)%Q -> (rint x <= rint y)%Z.
Proof.
  intros Hxy.
  pose proof (Qfloor_resp_le _ _ Hxy) as Hfl.
  destruct (Z.eq_dec (Qfloor x) (Qfloor y)) as [E|NE].
  - unfold rint. rewrite <- E.
    destruct (Qcompare_spec (x - inject_Z (Qfloor x)) (1 # 2)) as [Hx|Hx|Hx];
      destruct (Qcompare_spec (y - inject_Z (Qfloor x)) (1 # 2)) as [Hy|Hy|Hy];
      try lia; try (exfalso; lra);
        destruct (Z.even (Qfloor x)); lia.
  - destruct (rint_cases x) as [-> | ->], (rint_cases y) as [-> | ->]; lia.
Qed.

Lemma pow10_pos (d : nat) : (0 < inject_Z (10 ^ Z.of_nat d))%Q.
Proof.
  change 0%Q with (inject_Z 0). rewrite <- Zlt_Qlt.
  apply Z.pow_pos_nonneg; lia.
Qed.

Lemma Qround_nd_wd (x y : Q) (d : nat) :
  (x == y)%Q -> (Qround_nd x d == Qround_nd y d)%Q.
Proof.
  intros E. unfold Qround_nd.
  rewrite (rint_wd (x * inject_Z (10 ^ Z.of_nat d))
                   (y * inject_Z (10 ^ Z.of_nat d))) by (rewrite E; reflexivity).
  reflexivity.
Qed.

Lemma Qround_nd_monotone (x y : Q) (d : nat) :
  (x <= y)%Q -> (Qround_nd x d <= Qround_nd y d)%Q.
Proof.
  intros Hxy. unfold Qround_nd.
  pose proof (pow10_pos d) as Hs.
  set (s := inject_Z (10 ^ Z.of_nat d)) in *.
  assert (Hm : (x * s <= y * s)%Q) by (apply Qmult_le_compat_r; lra).
  apply rint_monotone in Hm. rewrite Zle_Qle in Hm.
  apply Qle_shift_div_l; [exact Hs|].
  setoid_replace (inject_Z (rint (x * s)) / s * s)%Q
    with (inject_Z (rint (x * s))) by (field; lra).
  exact Hm.
Qed.

Lemma Qround_nd_zero (d : nat) : (Qround_nd 0 d == 0)%Q.
Proof.
  unfold Qround_nd.
  rewrite (rint_wd (0 * inject_Z (10 ^ Z.of_nat d)) 0) by ring.
  change (rint 0) with 0%Z.
  pose proof (pow10_pos d). field. lra.
Qed.

(** ** Moving range and sample standard deviation of a finite series *)

Fixpoint Qdiff (qs : list Q) : list Q :=
  match qs with
  | x :: (y :: _) as t => (y - x)%Q :: Qdiff t
  | _ => []
  end.

Definition Qvar (qs : list Q) : Q :=
  (Qsum (map (fun q => (q - Qmean qs) * (q - Qmean qs)) qs)
   / inject_Z (Z.of_nat (length qs - 1)))%Q.

Lemma np_diff_finite (qs : list Q) : np_diff (map Fin qs) = map Fin (Qdiff qs).
Proof.
  induction qs as [|x [|y t] IH]; try reflexivity.
  change (Fin y - Fin x :: np_diff (map Fin (y :: t))
          = Fin (y - x)%Q :: map Fin (Qdiff (y :: t))).
  rewrite IH. reflexivity.
Qed.

Lemma length_Qdiff (qs : list Q) : length (Qdiff qs) = (length qs - 1)%nat.
Proof.
  induction qs as [|x [|y t] IH]; try reflexivity.
  change (Qdiff (x :: y :: t)) with ((y - x)%Q :: Qdiff (y :: t)).
  cbn [length]. rewrite IH. cbn [length]. lia.
Qed.

Lemma moving_range_finite (qs : list Q) :
  map fabs (np_diff (map Fin qs)) = map Fin (map Qabs (Qdiff qs)).
Proof.
  rewrite np_diff_finite, !map_map. reflexivity.
Qed.

(** The moving-range list, index by index:
    [|x[i] - x[i-1]|] for [i] in [1 .. N-1]. *)
Lemma moving_range_by_index (data : list float64) :
  map fabs (np_diff data)
  = map (fun i => fabs (nth i data NaN - nth (i - 1) data NaN))
        (py_range 1 (length data)).
Proof.
  unfold py_range.
  induction data as [|x [|y t] IH]; try reflexivity.
  change (fabs (y - x) :: map fabs (np_diff (y :: t))
          = map (fun i => fabs (nth i (x :: y :: t) NaN
                                - nth (i - 1) (x :: y :: t) NaN))
                (seq 1 (S (length t)))).
  rewrite IH. cbn [seq map]. f_equal.
  replace (length (y :: t) - 1)%nat with (length t) by (simpl; lia).
  rewrite <- (seq_shift (length t) 1), map_map.
  apply map_ext_in. intros i Hi. apply in_seq in Hi.
  destruct i as [|i]; [lia|].
  replace (S (S i) - 1)%nat with (S (S i - 1)) by lia. reflexivity.
Qed.

Lemma mean_moving_range_finite (qs : list Q) :
  (2 <= length qs)%nat ->
  np_mean (map fabs (np_diff (map Fin qs)))
  = Fin (Qmean (map Qabs (Qdiff qs))).
Proof.
  intros Hlen. rewrite moving_range_finite.
  apply np_mean_finite.
  intros E. apply (f_equal (@length Q)) in E.
  rewrite length_map, length_Qdiff in E. simpl in E. lia.
Qed.

Lemma Qsum_from_nonneg (qs : list Q) (a : Q) :
  (0 <= a)%Q -> Forall (fun q => 0 <= q)%Q qs -> (0 <= fold_left Qplus qs a)%Q.
Proof.
  revert a. induction qs as [|q qs IH]; intros a Ha Hq; simpl; [exact Ha|].
  inversion Hq; subst. apply IH; [lra | assumption].
Qed.

Lemma Qsum_from_zero (qs : list Q) (a : Q) :
  Forall (fun q => q == 0)%Q qs -> (fold_left Qplus qs a == a)%Q.
Proof.
  revert a. induction qs as [|q qs IH]; intros a Hq; simpl; [reflexivity|].
  inversion Hq; subst. rewrite IH by assumption. lra.
Qed.

Lemma Qsum_repeat (c : Q) (n : nat) (a : Q) :
  (fold_left Qplus (repeat c n) a == a + inject_Z (Z.of_nat n) * c)%Q.
Proof.
  revert a. induction n as [|n IH]; intros a.
  - simpl. ring.
  - cbn [repeat fold_left]. rewrite IH.
    rewrite Nat2Z.inj_succ. unfold Z.succ. rewrite inject_Z_plus. ring.
Qed.

Lemma inject_nat_pos (n : nat) : (0 < n)%nat -> (0 < inject_Z (Z.of_nat n))%Q.
Proof.
  intros Hn. change 0%Q with (inject_Z 0). rewrite <- Zlt_Qlt. lia.
Qed.

Lemma Qmean_repeat (c : Q) (n : nat) :
  (0 < n)%nat -> (Qmean (repeat c n) == c)%Q.
Proof.
  intros Hn. unfold Qmean, Qsum.
  rewrite Qsum_repeat, repeat_length.
  pose proof (inject_nat_pos n Hn). field. lra.
Qed.

Lemma Qmean_zero (qs : list Q) :
  Forall (fun q => q == 0)%Q qs -> (Qmean qs == 0)%Q.
Proof.
  intros H. unfold Qmean, Qsum. rewrite (Qsum_from_zero qs 0 H).
  unfold Qdiv. ring.
Qed.

Lemma Qsquare_nonneg (d : Q) : (0 <= d * d)%Q.
Proof.
  destruct (Qlt_le_dec d 0) as [H|H].
  - setoid_replace (d * d)%Q with ((- d) * (- d))%Q by ring.
    apply Qmult_le_0_compat; lra.
  - apply Qmult_le_0_compat; lra.
Qed.

Lemma Qvar_nonneg (qs : list Q) : (0 <= Qvar qs)%Q.
Proof.
  unfold Qvar.
  assert (Hs : (0 <= Qsum (map (fun q => (q - Qmean qs) * (q - Qmean qs)) qs))%Q).
  { apply Qsum_from_nonneg; [lra|].
    apply Forall_forall. intros v Hv. apply in_map_iff in Hv.
    destruct Hv as (q & <- & _). apply Qsquare_nonneg. }
  destruct (length qs - 1)%nat as [|k].
  - unfold Qdiv. change (inject_Z (Z.of_nat 0)) with 0%Q.
    setoid_replace (/ 0)%Q with 0%Q by reflexivity. lra.
  - apply Qle_shift_div_l; [apply inject_nat_pos; lia | lra].
Qed.

Lemma np_std_finite (qs : list Q) :
  (2 <= length qs)%nat ->
  np_std_ddof1 (map Fin qs) = Fin (Qsqrt (Qvar qs)).
Proof.
  intros Hlen. unfold np_std_ddof1.
  rewrite np_mean_finite by (destruct qs; [simpl in Hlen; lia | discriminate]).
  rewrite map_map.
  change (map (fun x => let d := Fin x - Fin (Qmean qs) in d * d) qs)
    with (map (fun x => Fin ((x - Qmean qs) * (x - Qmean qs))%Q) qs).
  rewrite <- (map_map (fun x => ((x - Qmean qs) * (x - Qmean qs))%Q) Fin).
  rewrite np_sum_finite, length_map. unfold of_nat, fdiv.
  rewrite inject_nat_nonzero by lia.
  fold (Qvar qs). unfold fsqrt.
  destruct (Qltb (Qvar qs) 0) eqn:E; [|reflexivity].
  apply Qltb_lt in E. pose proof (Qvar_nonneg qs). lra.
Qed.

Lemma Qsqrt_wd (x y : Q) : (x == y)%Q -> Qsqrt x = Qsqrt y.
Proof.
  intros E. unfold Qsqrt. f_equal. f_equal. f_equal.
  apply Qfloor_comp. rewrite E. reflexivity.
Qed.

Lemma Qsqrt_zero (x : Q) : (x == 0)%Q -> (Qsqrt x == 0)%Q.
Proof.
  intros E. rewrite (Qsqrt_wd x 0 E). reflexivity.
Qed.

(** ** Capability indices *)

(** [sigma_within] of the design document:
    [mean(|x[i] - x[i-1]| for i in 1..N-1) / 1.128]. *)
Definition moving_range_sigma (data : list float64) : float64 :=
  np_mean (map (fun i => fabs (nth i data NaN - nth (i - 1) data NaN))
               (py_range 1 (length data)))
  / Fin 1.128.

(** A piecewise-linear stand-in for [scipy.stats.norm.cdf], used where a
    closed example has to run; no statement depends on its values. *)
Definition cdf_ramp (z : float64) : float64 :=
  match z with
  | Fin q =>
    if Qltb q (-4) then Fin 0
    else if Qltb 4 q then Fin 1
    else Fin ((q + 4) / 8)%Q
  | PInf => Fin 1
  | NInf => Fin 0
  | NaN => NaN
  end.

Section CapabilityFields.
Variable norm_cdf : float64 -> float64.
Import ProcessCapability.

(** The fields of the result in terms of the series, when both limits are
    passed and the series is not empty. *)
Lemma capability_indices_fields
      (data : list float64) (variable : string) (u l : Q) (target : option Q) :
  data <> [] ->
  exists r,
    calculate_capability_indices norm_cdf data variable (Some u) (Some l) target
    = Ok r /\
    let mean := np_mean data in
    let sigma_within := np_mean (map fabs (np_diff data)) / Fin 1.128 in
    let cpu := (Fin u - mean) / (of_Z 3 * sigma_within) in
    let cpl := (mean - Fin l) / (of_Z 3 * sigma_within) in
    Cp (cr_indices r) = round (Fin (u - l)%Q / (of_Z 6 * sigma_within)) 3 /\
    CPU (cr_indices r) = round cpu 3 /\
    CPL (cr_indices r) = round cpl 3 /\
    Cpk (cr_indices r) = round (py_min cpu cpl) 3 /\
    st_sigma_within (cr_statistics r) = round sigma_within 3 /\
    sigma_level r = round (of_Z 3 * py_min cpu cpl + Fin 1.5) 2.
Proof.
  intros Hne. unfold calculate_capability_indices.
  destruct data as [|x data]; [contradiction|].
  cbn [length Nat.eqb bind].
  eexists. split; [reflexivity|].
  cbv zeta. cbn [cr_indices cr_statistics sigma_level Cp Cpk CPU CPL st_sigma_within].
  repeat split; reflexivity.
Qed.

(** An empty series stops at the observed defect rate. *)
Lemma capability_indices_empty
      (variable : string) (usl lsl target : option Q) :
  calculate_capability_indices norm_cdf [] variable usl lsl target
  = Raise ZeroDivisionError.
Proof.
  unfold calculate_capability_indices.
  destruct usl, lsl, (sdict_find Constants.SPEC_LIMITS variable); reflexivity.
Qed.

Lemma process_capability_fields
      (data : list float64) (spec : Constants.spec_limits) :
  exists c,
    StatisticalCalculator.calculate_process_capability norm_cdf data (Some spec)
    = Some c /\
    let mean := np_mean data in
    let std := np_std_ddof1 data in
    let usl := Constants.USL spec in
    let lsl := Constants.LSL spec in
    let cpu := (Fin usl - mean) / (of_Z 3 * std) in
    let cpl := (mean - Fin lsl) / (of_Z 3 * std) in
    StatisticalCalculator.cap_Cp c = round (Fin (usl - lsl)%Q / (of_Z 6 * std)) 3 /\
    StatisticalCalculator.cap_Cpk c = round (py_min cpu cpl) 3 /\
    StatisticalCalculator.cap_sigma_level c = round (of_Z 3 + py_min cpu cpl) 1.
Proof.
  eexists. split; [reflexivity|].
  cbv zeta. repeat split; reflexivity.
Qed.
End CapabilityFields.

Lemma moving_range_sigma_eq (data : list float64) :
  np_mean (map fabs (np_diff data)) / Fin 1.128 = moving_range_sigma data.
Proof.
  unfold moving_range_sigma. now rewrite moving_range_by_index.
Qed.

(** C4.  The two entry points disagree on the sigma level.  On the series
    [1, 2, 3] with [USL = 8], [LSL = -4] both report a defined Cpk;
    [ProcessCapability] reports [round(3 * Cpk + 1.5, 2)],
    [StatisticalCalculator] reports [round(3 + Cpk, 1) = 5.0] where
    [3 * Cpk + 1.5] is 7.5. *)
Theorem sigma_level_entry_points_disagree :
  (exists c,
      StatisticalCalculator.calculate_process_capability
        cdf_ramp (map Fin [1; 2; 3]%Q)
        (Some {| Constants.USL := 8; Constants.LSL := -4;
                 Constants.Target := None |}) = Some c /\
      StatisticalCalculator.cap_Cpk c = Fin 2.000 /\
      StatisticalCalculator.cap_sigma_level c = Fin 5.0 /\
      of_Z 3 * StatisticalCalculator.cap_Cpk c + Fin 1.5 =~ Fin 7.5) /\
  (exists r,
      ProcessCapability.calculate_capability_indices
        cdf_ramp (map Fin [1; 2; 3]%Q) "x" (Some 8%Q) (Some (-4)%Q) None = Ok r /\
      ProcessCapability.Cpk (ProcessCapability.cr_indices r) = Fin 2.256 /\
      ProcessCapability.sigma_level r = Fin 8.27 /\
      round (of_Z 3 * Fin (1128 # 500) + Fin 1.5) 2 = Fin 8.27).
Proof.
  split; eexists; (split; [vm_compute; reflexivity|]);
    repeat split; vm_compute; reflexivity.
Qed.

(** The moving-range estimate is shared by three entry points.  With both
    limits given and a non-empty series,
    [ProcessCapability.calculate_capability_indices] reports
    [Cp = round((USL - LSL) / (6 * sigma_within), 3)] where [sigma_within]
    is the moving-range estimate, and the individuals control limits of
    both control-limit entry points report the same estimate. *)
Lemma moving_range_sigma_is_shared
      (norm_cdf : float64 -> float64) (df : ControlCharts.dataframe)
      (variable : string) (u l : Q) (target : option Q) :
  df <> [] ->
  exists r lx x mr s,
    ProcessCapability.calculate_capability_indices
      norm_cdf (ControlCharts.column df) variable (Some u) (Some l) target = Ok r /\
    ProcessCapability.Cp (ProcessCapability.cr_indices r)
    = round (Fin (u - l)%Q
             / (of_Z 6 * moving_range_sigma (ControlCharts.column df))) 3 /\
    ProcessCapability.st_sigma_within (ProcessCapability.cr_statistics r)
    = round (moving_range_sigma (ControlCharts.column df)) 3 /\
    StatisticalCalculator.calculate_control_limits
      (ControlCharts.column df) "xbar" 1 = Ok (Some lx) /\
    StatisticalCalculator.lim_sigma lx
    = Some (ProcessCapability.st_sigma_within (ProcessCapability.cr_statistics r)) /\
    ControlCharts.create_xbar_r_chart df 1 = Ok (ControlCharts.IMR x mr s) /\
    ControlCharts.x_sigma_estimate x
    = ProcessCapability.st_sigma_within (ProcessCapability.cr_statistics r).
Proof.
  intros Hne.
  assert (Hd : ControlCharts.column df <> []).
  { unfold ControlCharts.column. destruct df; [contradiction | discriminate]. }
  destruct (capability_indices_fields norm_cdf _ variable u l target Hd)
    as (r & Hr & Hcp & _ & _ & _ & Hsw & _).
  cbv zeta in Hcp, Hsw. rewrite moving_range_sigma_eq in Hcp, Hsw.
  exists r. do 4 eexists.
  split; [exact Hr|]. split; [exact Hcp|]. split; [exact Hsw|].
  split; [reflexivity|].
  split; [cbn [StatisticalCalculator.lim_sigma]; rewrite Hsw;
          rewrite <- moving_range_sigma_eq; reflexivity|].
  split; [reflexivity|].
  cbn [ControlCharts.x_sigma_estimate]. rewrite Hsw.
  rewrite <- moving_range_sigma_eq. reflexivity.
Qed.

(** C3.  The two capability entry points disagree on Cp.  On the series
    [1, 2, 3] with [USL = 8], [LSL = -4] the moving-range estimate is
    [1 / 1.128] and [(USL - LSL) / (6 * sigma_within)] rounds to 2.256,
    which is what [ProcessCapability.calculate_capability_indices]
    reports; [StatisticalCalculator.calculate_process_capability] divides
    by the sample standard deviation 1 instead and reports 2.0. *)
Theorem capability_cp_entry_points_disagree :
  (exists r,
      ProcessCapability.calculate_capability_indices
        cdf_ramp (map Fin [1; 2; 3]%Q) "x" (Some 8%Q) (Some (-4)%Q) None = Ok r /\
      ProcessCapability.st_sigma_within (ProcessCapability.cr_statistics r)
      = round (moving_range_sigma (map Fin [1; 2; 3]%Q)) 3 /\
      ProcessCapability.Cp (ProcessCapability.cr_indices r)
      = round (Fin (8 - -4)%Q
               / (of_Z 6 * moving_range_sigma (map Fin [1; 2; 3]%Q))) 3 /\
      ProcessCapability.Cp (ProcessCapability.cr_indices r) = Fin 2.256) /\
  (exists c,
      StatisticalCalculator.calculate_process_capability
        cdf_ramp (map Fin [1; 2; 3]%Q)
        (Some {| Constants.USL := 8; Constants.LSL := -4;
                 Constants.Target := None |}) = Some c /\
      StatisticalCalculator.cap_std c = Fin 1.000 /\
      StatisticalCalculator.cap_Cp c
      = round (Fin (8 - -4)%Q / (of_Z 6 * np_std_ddof1 (map Fin [1; 2; 3]%Q))) 3 /\
      StatisticalCalculator.cap_Cp c = Fin 2.000 /\
      ~ (StatisticalCalculator.cap_Cp c
         =~ round (Fin (8 - -4)%Q
                   / (of_Z 6 * moving_range_sigma (map Fin [1; 2; 3]%Q))) 3)).
Proof.
  split.
  - eexists. split; [vm_compute; reflexivity|].
    repeat split; vm_compute; reflexivity.
  - eexists. split; [vm_compute; reflexivity|].
    split; [vm_compute; reflexivity|].
    split; [vm_compute; reflexivity|].
    split; [vm_compute; reflexivity|].
    intros H. vm_compute in H. discriminate H.
Qed.

(** *** Constant series *)

Lemma Qdiff_repeat (c : Q) (n : nat) :
  Forall (fun q => q == 0)%Q (Qdiff (repeat c n)).
Proof.
  induction n as [|[|n] IH]; try (constructor; fail).
  change (Forall (fun q => q == 0)%Q ((c - c)%Q :: Qdiff (repeat c (S n)))).
  constructor; [ring | exact IH].
Qed.

Lemma moving_range_repeat (c : Q) (n : nat) :
  (Qmean (map Qabs (Qdiff (repeat c n))) == 0)%Q.
Proof.
  apply Qmean_zero. apply Forall_forall.
  intros v Hv. apply in_map_iff in Hv. destruct Hv as (q & <- & Hq).
  pose proof (Qdiff_repeat c n) as H.
  rewrite Forall_forall in H. rewrite (H q Hq). reflexivity.
Qed.

Lemma Qvar_repeat (c : Q) (n : nat) :
  (0 < n)%nat -> (Qvar (repeat c n) == 0)%Q.
Proof.
  intros Hn. unfold Qvar, Qsum.
  rewrite Qsum_from_zero; [unfold Qdiv; ring|].
  apply Forall_forall. intros v Hv. apply in_map_iff in Hv.
  destruct Hv as (q & <- & Hq). apply repeat_spec in Hq. subst q.
  rewrite (Qmean_repeat c n Hn). ring.
Qed.

Lemma fdiv_by_zero (x s : Q) : (s == 0)%Q -> Fin x / Fin s = signed_inf x.
Proof.
  intros Hs. unfold fdiv.
  now rewrite (proj2 (Qeq_bool_iff s 0) Hs).
Qed.

Lemma signed_inf_pos (x : Q) : (0 < x)%Q -> signed_inf x = PInf.
Proof.
  intros Hx. unfold signed_inf.
  now rewrite (proj1 (Qgt_alt x 0) Hx).
Qed.

Lemma signed_inf_not_finite (x : Q) : is_finite (signed_inf x) = false.
Proof. unfold signed_inf. destruct (Qcompare x 0); reflexivity. Qed.

Lemma py_min_not_finite (a b : float64) :
  is_finite a = false -> is_finite b = false -> is_finite (py_min a b) = false.
Proof. intros Ha Hb. unfold py_min. now destruct (b <? a). Qed.

Lemma round_not_finite (a : float64) (d : nat) :
  is_finite a = false -> is_finite (round a d) = false.
Proof. now destruct a. Qed.

(** [n] copies of the integer [z] on which numpy computes exactly: every
    partial sum is an integer of magnitude at most 2^53, hence a float, so
    the float sum is [n * z], the float mean is [z] itself, every deviation
    from the mean is 0 and the sample standard deviation is 0.  For a
    constant such as 55.3 the float mean differs from the constant in the
    last place and the standard deviation is tiny but positive. *)
Definition float_exact_constant (z : Z) (n : nat) : Prop :=
  (Z.abs z * Z.of_nat n <= 2 ^ 53)%Z.

(** The statement of C1 fails on the source: for the flat series
    [7, 7, 7, 7, 7] with [USL = 20], [LSL = 5] neither entry point raises;
    both divide by the zero sigma and report infinite indices. *)
Lemma constant_series_counterexample :
  ~ raises (ProcessCapability.calculate_capability_indices
              cdf_ramp (map Fin [7; 7; 7; 7; 7]%Q) "x"
              (Some 20%Q) (Some 5%Q) None) /\
  (exists r,
      ProcessCapability.calculate_capability_indices
        cdf_ramp (map Fin [7; 7; 7; 7; 7]%Q) "x"
        (Some 20%Q) (Some 5%Q) None = Ok r /\
      ProcessCapability.Cp (ProcessCapability.cr_indices r) = PInf /\
      ProcessCapability.Cpk (ProcessCapability.cr_indices r) = PInf) /\
  (exists c,
      StatisticalCalculator.calculate_process_capability
        cdf_ramp (map Fin [7; 7; 7; 7; 7]%Q)
        (Some {| Constants.USL := 20; Constants.LSL := 5;
                 Constants.Target := None |}) = Some c /\
      StatisticalCalculator.cap_Cp c = PInf /\
      StatisticalCalculator.cap_Cpk c = PInf).
Proof.
  split; [intros [e He]; vm_compute in He; discriminate He|].
  split; eexists; (split; [vm_compute; reflexivity|]);
    split; vm_compute; reflexivity.
Qed.

(** C1, as the source has it.  No error is raised on a constant series
    of at least two points with [LSL < USL].  In
    [ProcessCapability.calculate_capability_indices] the moving ranges of
    a constant series are exactly zero, so [sigma_within] is zero, Cp is
    [inf] and Cpk is not finite, whatever the constant.
    [StatisticalCalculator.calculate_process_capability] divides by the
    sample standard deviation, which is zero when the mean is computed
    exactly: for an integer constant within [float_exact_constant] its Cp
    is [inf] and its Cpk is not finite as well. *)
Theorem constant_series_gives_infinite_indices
        (norm_cdf : float64 -> float64) (c : Q) (z : Z) (n : nat)
        (variable : string) (u l : Q) (target : option Q) :
  (2 <= n)%nat -> (l < u)%Q -> float_exact_constant z n ->
  (exists r,
      ProcessCapability.calculate_capability_indices
        norm_cdf (map Fin (repeat c n)) variable (Some u) (Some l) target = Ok r /\
      ProcessCapability.st_sigma_within (ProcessCapability.cr_statistics r)
      =~ Fin 0 /\
      ProcessCapability.Cp (ProcessCapability.cr_indices r) = PInf /\
      is_finite (ProcessCapability.Cpk (ProcessCapability.cr_indices r)) = false) /\
  (exists r,
      StatisticalCalculator.calculate_process_capability
        norm_cdf (map Fin (repeat (inject_Z z) n))
        (Some {| Constants.USL := u; Constants.LSL := l;
                 Constants.Target := target |}) = Some r /\
      StatisticalCalculator.cap_std r =~ Fin 0 /\
      StatisticalCalculator.cap_Cp r = PInf /\
      is_finite (StatisticalCalculator.cap_Cpk r) = false).
Proof.
  intros Hn Hlu _.
  assert (Hul : (0 < u - l)%Q) by lra.
  split.
  - assert (Hlen : (2 <= length (repeat c n))%nat) by (rewrite repeat_length; lia).
    assert (Hne : repeat c n <> []) by (destruct n; [lia | discriminate]).
    destruct (capability_indices_fields
                norm_cdf (map Fin (repeat c n)) variable u l target)
      as (r & Hr & Hcp & _ & _ & Hcpk & Hsw & _).
    { destruct n; [lia | discriminate]. }
    cbv zeta in Hcp, Hcpk, Hsw.
    rewrite mean_moving_range_finite in Hcp, Hcpk, Hsw by exact Hlen.
    rewrite np_mean_finite in Hcpk by exact Hne.
    set (mr := Qmean (map Qabs (Qdiff (repeat c n)))) in *.
    assert (Hmr : (mr == 0)%Q) by apply moving_range_repeat.
    assert (Hs : (mr / 1.128 == 0)%Q) by (rewrite Hmr; reflexivity).
    change (Fin mr / Fin 1.128) with (Fin (mr / 1.128)%Q) in Hcp, Hcpk, Hsw.
    exists r. split; [exact Hr|]. split; [|split].
    + rewrite Hsw. cbn [round feqv].
      rewrite (Qround_nd_wd _ 0 3 Hs). apply Qround_nd_zero.
    + rewrite Hcp. cbn [of_Z fmul].
      rewrite fdiv_by_zero by (rewrite Hs; reflexivity).
      now rewrite signed_inf_pos.
    + rewrite Hcpk. apply round_not_finite.
      cbn [of_Z fmul fsub fadd fopp].
      rewrite !fdiv_by_zero by (rewrite Hs; reflexivity).
      apply py_min_not_finite; apply signed_inf_not_finite.
  - set (c' := inject_Z z).
    assert (Hlen : (2 <= length (repeat c' n))%nat) by (rewrite repeat_length; lia).
    assert (Hne : repeat c' n <> []) by (destruct n; [lia | discriminate]).
    destruct (process_capability_fields
                norm_cdf (map Fin (repeat c' n))
                {| Constants.USL := u; Constants.LSL := l;
                   Constants.Target := target |})
      as (r & Hr & Hcp & Hcpk & _).
    cbv zeta in Hcp, Hcpk. cbn [Constants.USL Constants.LSL] in Hcp, Hcpk.
    rewrite np_std_finite in Hcp, Hcpk by exact Hlen.
    rewrite np_mean_finite in Hcpk by exact Hne.
    assert (Hs : (Qsqrt (Qvar (repeat c' n)) == 0)%Q).
    { apply Qsqrt_zero. apply Qvar_repeat. lia. }
    exists r. split; [exact Hr|]. split; [|split].
    + injection Hr as <-. cbn [StatisticalCalculator.cap_std].
      rewrite np_std_finite by exact Hlen. cbn [round feqv].
      rewrite (Qround_nd_wd _ 0 3 Hs). apply Qround_nd_zero.
    + rewrite Hcp. cbn [of_Z fmul].
      rewrite fdiv_by_zero by (rewrite Hs; reflexivity).
      now rewrite signed_inf_pos.
    + rewrite Hcpk. apply round_not_finite.
      cbn [of_Z fmul fsub fadd fopp].
      rewrite !fdiv_by_zero by (rewrite Hs; reflexivity).
      apply py_min_not_finite; apply signed_inf_not_finite.
Qed.

Lemma constant_series_gives_infinite_indices_witness :
  (2 <= 5)%nat /\ (5 < 20)%Q /\ float_exact_constant 7 5 /\
  exists r,
    StatisticalCalculator.calculate_process_capability
      cdf_ramp (map Fin (repeat (inject_Z 7) 5))
      (Some {| Constants.USL := 20; Constants.LSL := 5;
               Constants.Target := None |}) = Some r /\
    StatisticalCalculator.cap_Cp r = PInf.
Proof.
  assert (H1 : (2 <= 5)%nat) by lia.
  assert (H2 : (5 < 20)%Q) by reflexivity.
  assert (H3 : float_exact_constant 7 5) by (intros H; discriminate H).
  split; [exact H1|]. split; [exact H2|]. split; [exact H3|].
  destruct (proj2 (constant_series_gives_infinite_indices
                     cdf_ramp 7 7 5 "x" 20 5 None H1 H2 H3))
    as (r & Hr & _ & Hcp & _).
  exists r. split; [exact Hr | exact Hcp].
Defined.

(** *** Cpk against Cp *)

(** The arithmetic behind the comparison, on rationals: with [s > 0] the
    smaller of the two one-sided indices is at most the two-sided one, and
    equal to it when the mean is the midpoint of the limits. *)
Lemma Qcpk_le_cp (u l m s : Q) :
  (0 < s)%Q ->
  let cpu := ((u + - m) / (inject_Z 3 * s))%Q in
  let cpl := ((m + - l) / (inject_Z 3 * s))%Q in
  let cp := ((u - l) / (inject_Z 6 * s))%Q in
  let cpk := if Qltb cpl cpu then cpl else cpu in
  (cpk <= cp)%Q /\ ((m == (u + l) / 2)%Q -> (cpk == cp)%Q).
Proof.
  intros Hs cpu cpl cp cpk.
  assert (Hsum : (cp == (cpu + cpl) * (1 # 2))%Q).
  { subst cp cpu cpl. change (inject_Z 3) with 3%Q.
    change (inject_Z 6) with 6%Q. field. lra. }
  assert (Heq : (m == (u + l) / 2)%Q -> (cpu == cpl)%Q).
  { intros Hm. subst cpu cpl. change (inject_Z 3) with 3%Q.
    rewrite Hm. field. lra. }
  subst cpk. clearbody cp cpu cpl.
  split.
  - destruct (Qltb cpl cpu) eqn:E.
    + apply Qltb_lt in E. lra.
    + apply Qltb_ge in E. lra.
  - intros Hm. specialize (Heq Hm).
    destruct (Qltb cpl cpu); lra.
Qed.

(** The statement of C6 fails on the source in its second half: the series
    [59, 61, 59, 61] under the repository's own limits for
    "Toplam_Uretim_Suresi" ([USL = 70], [LSL = 55], [Target = 60]) has
    [mean == target], yet [Cpk = 0.94] and [Cp = 1.41]. *)
Lemma cpk_equals_cp_at_target_counterexample :
  exists r,
    ProcessCapability.calculate_capability_indices
      cdf_ramp (map Fin [59; 61; 59; 61]%Q) "Toplam_Uretim_Suresi"
      None None None = Ok r /\
    ProcessCapability.st_mean (ProcessCapability.cr_statistics r) = Fin 60.00 /\
    ProcessCapability.st_target (ProcessCapability.cr_statistics r) = Fin 60.00 /\
    np_mean (map Fin [59; 61; 59; 61]%Q) =~ Fin 60 /\
    ProcessCapability.Cp (ProcessCapability.cr_indices r) = Fin 1.410 /\
    ProcessCapability.Cpk (ProcessCapability.cr_indices r) = Fin 0.940 /\
    ~ (ProcessCapability.Cpk (ProcessCapability.cr_indices r)
       =~ ProcessCapability.Cp (ProcessCapability.cr_indices r)).
Proof.
  eexists. split; [vm_compute; reflexivity|].
  repeat (split; [vm_compute; reflexivity|]).
  intros H. vm_compute in H. discriminate H.
Qed.

(** C6, as the source has it.  For every finite series whose sigma is
    positive (the mean moving range for [ProcessCapability], the sample
    standard deviation for [StatisticalCalculator]) the reported indices
    satisfy [Cpk <= Cp]; they are equal when the mean is the midpoint
    [(USL + LSL) / 2] of the limits, whatever the target is. *)
Theorem cpk_le_cp_and_equal_at_midpoint
        (norm_cdf : float64 -> float64) (qs : list Q)
        (variable : string) (u l : Q) (target : option Q) :
  (0 < Qmean (map Qabs (Qdiff qs)))%Q ->
  (0 < Qsqrt (Qvar qs))%Q ->
  (exists r,
      ProcessCapability.calculate_capability_indices
        norm_cdf (map Fin qs) variable (Some u) (Some l) target = Ok r /\
      (ProcessCapability.Cpk (ProcessCapability.cr_indices r)
       <=? ProcessCapability.Cp (ProcessCapability.cr_indices r)) = true /\
      ((Qmean qs == (u + l) / 2)%Q ->
       ProcessCapability.Cpk (ProcessCapability.cr_indices r)
       =~ ProcessCapability.Cp (ProcessCapability.cr_indices r))) /\
  (exists c,
      StatisticalCalculator.calculate_process_capability
        norm_cdf (map Fin qs)
        (Some {| Constants.USL := u; Constants.LSL := l;
                 Constants.Target := target |}) = Some c /\
      (StatisticalCalculator.cap_Cpk c <=? StatisticalCalculator.cap_Cp c) = true /\
      ((Qmean qs == (u + l) / 2)%Q ->
       StatisticalCalculator.cap_Cpk c =~ StatisticalCalculator.cap_Cp c)).
Proof.
  intros Hmr Hstd.
  assert (Hlen : (2 <= length qs)%nat).
  { destruct qs as [|x [|y t]]; simpl; try lia;
      vm_compute in Hmr; discriminate Hmr. }
  assert (Hne : qs <> []) by (destruct qs; [simpl in Hlen; lia | discriminate]).
  split.
  - destruct (capability_indices_fields norm_cdf (map Fin qs) variable u l target)
      as (r & Hr & Hcp & _ & _ & Hcpk & _).
    { destruct qs; [contradiction | discriminate]. }
    cbv zeta in Hcp, Hcpk.
    rewrite mean_moving_range_finite in Hcp, Hcpk by exact Hlen.
    rewrite np_mean_finite in Hcpk by exact Hne.
    set (mr := Qmean (map Qabs (Qdiff qs))) in *.
    change (Fin mr / Fin 1.128) with (Fin (mr / 1.128)%Q) in Hcp, Hcpk.
    assert (Hs : (0 < mr / 1.128)%Q).
    { apply Qlt_shift_div_l; [reflexivity | lra]. }
    set (s := (mr / 1.128)%Q) in *.
    assert (E3 : Qeq_bool (inject_Z 3 * s) 0 = false).
    { apply Qeq_bool_false. change (inject_Z 3) with 3%Q. lra. }
    assert (E6 : Qeq_bool (inject_Z 6 * s) 0 = false).
    { apply Qeq_bool_false. change (inject_Z 6) with 6%Q. lra. }
    cbn [of_Z fmul fsub fadd fopp fdiv] in Hcp, Hcpk.
    rewrite E6 in Hcp. rewrite E3 in Hcpk.
    unfold py_min in Hcpk. cbn [flt round] in Hcp, Hcpk.
    destruct (Qcpk_le_cp u l (Qmean qs) s Hs) as [Hle Heq]. cbv zeta in Hle, Heq.
    exists r. split; [exact Hr|]. rewrite Hcp, Hcpk.
    destruct (Qltb ((Qmean qs + - l) / (inject_Z 3 * s))
                   ((u + - Qmean qs) / (inject_Z 3 * s))); cbn [round fle feqv];
      (split; [apply Qle_bool_iff, Qround_nd_monotone, Hle
              | intros Hm; apply Qround_nd_wd, Heq, Hm]).
  - destruct (process_capability_fields
                norm_cdf (map Fin qs)
                {| Constants.USL := u; Constants.LSL := l;
                   Constants.Target := target |})
      as (c & Hc & Hcp & Hcpk & _).
    cbv zeta in Hcp, Hcpk. cbn [Constants.USL Constants.LSL] in Hcp, Hcpk.
    rewrite np_std_finite in Hcp, Hcpk by exact Hlen.
    rewrite np_mean_finite in Hcpk by exact Hne.
    set (s := Qsqrt (Qvar qs)) in *.
    assert (E3 : Qeq_bool (inject_Z 3 * s) 0 = false).
    { apply Qeq_bool_false. change (inject_Z 3) with 3%Q. lra. }
    assert (E6 : Qeq_bool (inject_Z 6 * s) 0 = false).
    { apply Qeq_bool_false. change (inject_Z 6) with 6%Q. lra. }
    cbn [of_Z fmul fsub fadd fopp fdiv] in Hcp, Hcpk.
    rewrite E6 in Hcp. rewrite E3 in Hcpk.
    unfold py_min in Hcpk. cbn [flt round] in Hcp, Hcpk.
    destruct (Qcpk_le_cp u l (Qmean qs) s Hstd) as [Hle Heq]. cbv zeta in Hle, Heq.
    exists c. split; [exact Hc|]. rewrite Hcp, Hcpk.
    destruct (Qltb ((Qmean qs + - l) / (inject_Z 3 * s))
                   ((u + - Qmean qs) / (inject_Z 3 * s))); cbn [round fle feqv];
      (split; [apply Qle_bool_iff, Qround_nd_monotone, Hle
              | intros Hm; apply Qround_nd_wd, Heq, Hm]).
Qed.

Lemma cpk_le_cp_and_equal_at_midpoint_witness :
  (0 < Qmean (map Qabs (Qdiff [1; 2; 3])))%Q /\
  (0 < Qsqrt (Qvar [1; 2; 3]))%Q /\
  exists r,
    ProcessCapability.calculate_capability_indices
      cdf_ramp (map Fin [1; 2; 3]%Q) "x" (Some 8%Q) (Some (-4)%Q) None = Ok r /\
    (ProcessCapability.Cpk (ProcessCapability.cr_indices r)
     <=? ProcessCapability.Cp (ProcessCapability.cr_indices r)) = true.
Proof.
  assert (H1 : (0 < Qmean (map Qabs (Qdiff [1; 2; 3])))%Q) by reflexivity.
  assert (H2 : (0 < Qsqrt (Qvar [1; 2; 3]))%Q) by reflexivity.
  split; [exact H1|]. split; [exact H2|].
  destruct (proj1 (cpk_le_cp_and_equal_at_midpoint
                     cdf_ramp [1; 2; 3]%Q "x" 8 (-4) None H1 H2))
    as (r & Hr & Hle & _).
  exists r. split; [exact Hr | exact Hle].
Defined.

(** ** Pareto bands *)

Section Pareto.
Import ParetoAnalysis.

(** The rows [analyze_defects] keeps: those whose defect cause is not "-". *)
Definition defect_rows (df : list row) : list row :=
  filter (fun r => negb (String.eqb (Hata_Nedeni r) "-")) df.

Lemma length_cumsum_from (acc : float64) (l : list float64) :
  length (cumsum_from acc l) = length l.
Proof.
  revert acc. induction l as [|x t IH]; intros acc; simpl; [reflexivity|].
  now rewrite IH.
Qed.

Lemma length_cumsum (l : list float64) : length (cumsum l) = length l.
Proof.
  destruct l as [|x t]; simpl; [reflexivity|].
  now rewrite length_cumsum_from.
Qed.

Lemma map_fst_combine {A B : Type} (a : list A) (b : list B) :
  length a = length b -> map fst (combine a b) = a.
Proof.
  revert b. induction a as [|x a IH]; intros [|y b] H; simpl in *;
    try reflexivity; try discriminate.
  f_equal. apply IH. lia.
Qed.

Lemma map_snd_combine {A B : Type} (a : list A) (b : list B) :
  length a = length b -> map snd (combine a b) = b.
Proof.
  revert b. induction a as [|x a IH]; intros [|y b] H; simpl in *;
    try reflexivity; try discriminate.
  f_equal. apply IH. lia.
Qed.

(** The table built from the sorted counts, as in the source. *)
Definition pareto_table (pareto_df : list (string * nat)) : list pareto_row :=
  let total_defects := fold_left Nat.add (map snd pareto_df) 0%nat in
  let yuzde :=
    map (fun g => of_nat (snd g) / of_nat total_defects * of_Z 100) pareto_df in
  let kumulatif := cumsum yuzde in
  map (fun '(g, y, c) =>
         {| Hata_Turu := fst g;
            Adet := snd g;
            Yuzde := y;
            Kumulatif_Yuzde := c;
            Kategori := kategori_of c |})
      (combine (combine pareto_df yuzde) kumulatif).

Lemma analyze_defects_table (df : list row) :
  defect_rows df <> [] ->
  exists s,
    analyze_defects df
    = Defects (pareto_table
                 (sort_values_desc
                    (groupby_size (map Hata_Nedeni (defect_rows df))))) s.
Proof.
  intros Hne. unfold analyze_defects. fold (defect_rows df).
  destruct (defect_rows df) as [|r rs] eqn:E; [contradiction|].
  cbn [length Nat.eqb]. eexists. reflexivity.
Qed.

Lemma analyze_defects_none (df : list row) :
  defect_rows df = [] -> analyze_defects df = NoDefects.
Proof.
  intros E. unfold analyze_defects. fold (defect_rows df). now rewrite E.
Qed.

Lemma pareto_table_columns (pareto_df : list (string * nat)) :
  let table := pareto_table pareto_df in
  map Kumulatif_Yuzde table = cumsum (map Yuzde table) /\
  Forall (fun r => Kategori r = kategori_of (Kumulatif_Yuzde r)) table /\
  map (fun r => (Hata_Turu r, Adet r)) table = pareto_df.
Proof.
  unfold pareto_table.
  set (total := fold_left Nat.add (map snd pareto_df) 0%nat).
  set (yuzde := map (fun g => of_nat (snd g) / of_nat total * of_Z 100) pareto_df).
  assert (Ly : length pareto_df = length yuzde)
    by (unfold yuzde; now rewrite length_map).
  assert (Lk : length (combine pareto_df yuzde) = length (cumsum yuzde)).
  { rewrite length_combine, length_cumsum, <- Ly. lia. }
  cbv zeta. rewrite !map_map.
  split; [|split].
  - rewrite (map_ext _ (fun x => snd x)) by (intros [[g y] c]; reflexivity).
    rewrite (map_ext (fun x => Yuzde _) (fun x => snd (fst x)))
      by (intros [[g y] c]; reflexivity).
    rewrite map_snd_combine by exact Lk.
    rewrite <- (map_map fst snd), map_fst_combine by exact Lk.
    now rewrite map_snd_combine by exact Ly.
  - apply Forall_map, Forall_forall. intros [[g y] c] _. reflexivity.
  - rewrite (map_ext _ (fun x => fst (fst x)))
      by (intros [[[k n] y] c]; reflexivity).
    rewrite <- (map_map fst fst), map_fst_combine by exact Lk.
    now rewrite map_fst_combine by exact Ly.
Qed.

Lemma fle_80_95 (x : float64) : (x <=? Fin 80) = true -> (x <=? Fin 95) = true.
Proof.
  destruct x as [q| | |]; simpl; try discriminate; try reflexivity.
  rewrite !Qle_bool_iff. lra.
Qed.

(** The band of a row is read off its cumulative percent alone. *)
Lemma kategori_of_spec (x : float64) :
  (kategori_of x = HayatiAzinlik_A <-> (x <=? Fin 80) = true) /\
  (kategori_of x = OrtaOnem_B
     <-> (x <=? Fin 80) = false /\ (x <=? Fin 95) = true) /\
  (kategori_of x = OnemsizCogunluk_C <-> (x <=? Fin 95) = false).
Proof.
  unfold kategori_of. pose proof (fle_80_95 x) as H.
  destruct (x <=? Fin 80), (x <=? Fin 95);
    repeat split; try discriminate; try reflexivity; intros;
      try (specialize (H eq_refl)); try discriminate; intuition discriminate.
Qed.
End Pareto.

(** C9.  Whenever there is a defect row, the table is returned, its
    cumulative-percent column is the running sum of its percent column, and
    the band of every row is decided by the cumulative percent alone:
    [<= 80] vital few, else [<= 95] significant, else trivial many, both
    boundaries inclusive.  For the counts [{A: 50, B: 30, C: 15, D: 5}] this
    gives A (50) and B (80) vital few, C (95) significant, D (100) trivial
    many. *)
Theorem pareto_bands_by_cumulative_percent (df : list ParetoAnalysis.row) :
  defect_rows df <> [] ->
  exists data s,
    ParetoAnalysis.analyze_defects df = ParetoAnalysis.Defects data s /\
    map ParetoAnalysis.Kumulatif_Yuzde data
    = ParetoAnalysis.cumsum (map ParetoAnalysis.Yuzde data) /\
    (forall r, In r data ->
       (ParetoAnalysis.Kategori r = ParetoAnalysis.HayatiAzinlik_A
          <-> (ParetoAnalysis.Kumulatif_Yuzde r <=? Fin 80) = true) /\
       (ParetoAnalysis.Kategori r = ParetoAnalysis.OrtaOnem_B
          <-> (ParetoAnalysis.Kumulatif_Yuzde r <=? Fin 80) = false /\
              (ParetoAnalysis.Kumulatif_Yuzde r <=? Fin 95) = true) /\
       (ParetoAnalysis.Kategori r = ParetoAnalysis.OnemsizCogunluk_C
          <-> (ParetoAnalysis.Kumulatif_Yuzde r <=? Fin 95) = false)) /\
    (ParetoAnalysis.groupby_size
       (map ParetoAnalysis.Hata_Nedeni (defect_rows df))
     = [("A"%string, 50%nat); ("B"%string, 30%nat);
        ("C"%string, 15%nat); ("D"%string, 5%nat)] ->
     map (fun r => (ParetoAnalysis.Hata_Turu r, ParetoAnalysis.Kategori r)) data
     = [("A"%string, ParetoAnalysis.HayatiAzinlik_A);
        ("B"%string, ParetoAnalysis.HayatiAzinlik_A);
        ("C"%string, ParetoAnalysis.OrtaOnem_B);
        ("D"%string, ParetoAnalysis.OnemsizCogunluk_C)] /\
     Forall2 feqv (map ParetoAnalysis.Kumulatif_Yuzde data)
             [Fin 50; Fin 80; Fin 95; Fin 100]).
Proof.
  intros Hne.
  destruct (analyze_defects_table df Hne) as (s & Hs).
  destruct (pareto_table_columns
              (ParetoAnalysis.sort_values_desc
                 (ParetoAnalysis.groupby_size
                    (map ParetoAnalysis.Hata_Nedeni (defect_rows df)))))
    as (Hcum & Hkat & _).
  cbv zeta in Hcum, Hkat.
  eexists. exists s. split; [exact Hs|]. split; [exact Hcum|]. split.
  - intros r Hr. rewrite Forall_forall in Hkat.
    rewrite (Hkat r Hr). apply kategori_of_spec.
  - intros Hcounts. rewrite Hcounts. split.
    + vm_compute. reflexivity.
    + vm_compute. repeat constructor.
Qed.

Lemma pareto_bands_by_cumulative_percent_witness :
  let df :=
    map (fun label => {| ParetoAnalysis.Motor_ID := "M";
                         ParetoAnalysis.Hata_Nedeni := label |})
        (repeat "B"%string 30 ++ repeat "-"%string 7 ++ repeat "D"%string 5
           ++ repeat "A"%string 50 ++ repeat "C"%string 15) in
  defect_rows df <> [] /\
  exists data s,
    ParetoAnalysis.analyze_defects df = ParetoAnalysis.Defects data s /\
    map (fun r => (ParetoAnalysis.Hata_Turu r, ParetoAnalysis.Kategori r)) data
    = [("A"%string, ParetoAnalysis.HayatiAzinlik_A);
       ("B"%string, ParetoAnalysis.HayatiAzinlik_A);
       ("C"%string, ParetoAnalysis.OrtaOnem_B);
       ("D"%string, ParetoAnalysis.OnemsizCogunluk_C)].
Proof.
  intros df.
  assert (H : defect_rows df <> [])
    by (intros E; vm_compute in E; discriminate E).
  split; [exact H|].
  destruct (pareto_bands_by_cumulative_percent df H)
    as (data & s & Ha & _ & _ & Hscen).
  exists data, s. split; [exact Ha|].
  apply Hscen. vm_compute. reflexivity.
Defined.

(** * Further properties of the modelled code *)

(** ** EWMA: which exceptions, and when *)

Lemma ewma_var_factor_undefined (lambda_val : Q) (i : nat) :
  (lambda_val == 2)%Q ->
  StatisticalCalculator.ewma_var_factor lambda_val i = Raise ZeroDivisionError.
Proof.
  intros Hl. unfold StatisticalCalculator.ewma_var_factor, py_div.
  assert (E : Qeq_bool (2 - lambda_val) 0 = true).
  { apply Qeq_bool_iff. rewrite Hl. reflexivity. }
  now rewrite E.
Qed.

Lemma calculate_ewma_lambda_two (data : list float64) (lambda_val L : Q) :
  data <> [] -> (lambda_val == 2)%Q ->
  StatisticalCalculator.calculate_ewma data lambda_val L
  = Raise ZeroDivisionError.
Proof.
  intros Hne Hl.
  destruct (ewma_loop_sequence data lambda_val Hne) as (z & Hrun & _).
  unfold StatisticalCalculator.calculate_ewma.
  destruct (setitem (np_zeros (length data)) 0 (np_mean data)) as [z0|e] eqn:E0;
    cbn [bind] in Hrun |- *; [|discriminate Hrun].
  rewrite Hrun. cbn [bind].
  destruct data as [|x data]; [contradiction|].
  unfold py_range. cbn [length Nat.sub seq map_each].
  rewrite ewma_var_factor_undefined by exact Hl. reflexivity.
Qed.

Lemma create_ewma_chart_lambda_two
      (df : ControlCharts.dataframe) (lambda_val L : Q) :
  df <> [] -> (lambda_val == 2)%Q ->
  ControlCharts.create_ewma_chart df lambda_val L = Raise ZeroDivisionError.
Proof.
  intros Hne Hl.
  assert (Hd : ControlCharts.column df <> []).
  { unfold ControlCharts.column. destruct df; [contradiction | discriminate]. }
  destruct (ewma_loop_sequence (ControlCharts.column df) lambda_val Hd)
    as (z & Hrun & _).
  unfold ControlCharts.create_ewma_chart.
  destruct (setitem (np_zeros (length (ControlCharts.column df))) 0
                    (np_mean (ControlCharts.column df))) as [z0|e] eqn:E0;
    cbn [bind] in Hrun |- *; [|discriminate Hrun].
  rewrite Hrun. cbn [bind].
  destruct (ControlCharts.column df) as [|x data]; [contradiction|].
  unfold py_range. cbn [length Nat.sub seq map_each].
  rewrite ewma_var_factor_undefined by exact Hl. reflexivity.
Qed.

(** X1.  The exceptions of the two EWMA entry points for
    [0 <= lambda_val <= 2]: [IndexError] exactly on an empty series (from
    the assignment to [z[0]]), [ZeroDivisionError] exactly on a non-empty
    series with [lambda_val == 2] (from [lambda_val / (2 - lambda_val)]),
    and nothing else.  In this range [|1 - lambda_val| <= 1], so the power
    [(1 - lambda_val)**(2*(i+1))] stays within the float range. *)
Theorem ewma_exceptions
        (data : list float64) (df : ControlCharts.dataframe)
        (lambda_val L : Q)
        (Hrange : (0 <= lambda_val <= 2)%Q) :
  (StatisticalCalculator.calculate_ewma data lambda_val L = Raise IndexError
     <-> data = []) /\
  (StatisticalCalculator.calculate_ewma data lambda_val L = Raise ZeroDivisionError
     <-> data <> [] /\ (lambda_val == 2)%Q) /\
  (forall e, StatisticalCalculator.calculate_ewma data lambda_val L = Raise e ->
             e = IndexError \/ e = ZeroDivisionError) /\
  (ControlCharts.create_ewma_chart df lambda_val L = Raise IndexError
     <-> df = []) /\
  (ControlCharts.create_ewma_chart df lambda_val L = Raise ZeroDivisionError
     <-> df <> [] /\ (lambda_val == 2)%Q) /\
  (forall e, ControlCharts.create_ewma_chart df lambda_val L = Raise e ->
             e = IndexError \/ e = ZeroDivisionError).
Proof.
  assert (Hcalc :
            (data = [] /\
             StatisticalCalculator.calculate_ewma data lambda_val L
             = Raise IndexError) \/
            (data <> [] /\ (lambda_val == 2)%Q /\
             StatisticalCalculator.calculate_ewma data lambda_val L
             = Raise ZeroDivisionError) \/
            (data <> [] /\ ~ (lambda_val == 2)%Q /\
             exists r, StatisticalCalculator.calculate_ewma data lambda_val L
                       = Ok r)).
  { destruct data as [|x data]; [left; split; reflexivity|].
    right. assert (Hne : x :: data <> []) by discriminate.
    destruct (Qeq_dec lambda_val 2) as [El|Nl].
    - left. repeat split; try assumption.
      now apply calculate_ewma_lambda_two.
    - right. repeat split; try assumption.
      destruct (calculate_ewma_returns (x :: data) lambda_val L Hne Nl)
        as (r & Hr & _). now exists r. }
  assert (Hchart :
            (df = [] /\
             ControlCharts.create_ewma_chart df lambda_val L
             = Raise IndexError) \/
            (df <> [] /\ (lambda_val == 2)%Q /\
             ControlCharts.create_ewma_chart df lambda_val L
             = Raise ZeroDivisionError) \/
            (df <> [] /\ ~ (lambda_val == 2)%Q /\
             exists r, ControlCharts.create_ewma_chart df lambda_val L = Ok r)).
  { destruct df as [|x df]; [left; split; reflexivity|].
    right. assert (Hne : x :: df <> []) by discriminate.
    destruct (Qeq_dec lambda_val 2) as [El|Nl].
    - left. repeat split; try assumption.
      now apply create_ewma_chart_lambda_two.
    - right. repeat split; try assumption.
      destruct (create_ewma_chart_returns (x :: df) lambda_val L Hne Nl)
        as (r & Hr & _). now exists r. }
  repeat split.
  - intros H. destruct Hcalc as [[? _]|[(_ & _ & E)|(_ & _ & r & E)]];
      [assumption | congruence | congruence].
  - intros ->. now destruct Hcalc as [[_ ?]|[(N & _)|(N & _)]].
  - destruct Hcalc as [[_ E]|[(N & _)|(_ & _ & r & E)]];
      [congruence | assumption | congruence].
  - destruct Hcalc as [[_ E]|[(_ & Hl & _)|(_ & _ & r & E)]];
      [congruence | assumption | congruence].
  - intros [N Hl]. destruct Hcalc as [[? _]|[(_ & _ & E)|(_ & Nl & _)]];
      [contradiction | assumption | contradiction].
  - intros e He. destruct Hcalc as [[_ E]|[(_ & _ & E)|(_ & _ & r & E)]];
      rewrite E in He; try discriminate; injection He as <-; auto.
  - intros H. destruct Hchart as [[? _]|[(_ & _ & E)|(_ & _ & r & E)]];
      [assumption | congruence | congruence].
  - intros ->. now destruct Hchart as [[_ ?]|[(N & _)|(N & _)]].
  - destruct Hchart as [[_ E]|[(N & _)|(_ & _ & r & E)]];
      [congruence | assumption | congruence].
  - destruct Hchart as [[_ E]|[(_ & Hl & _)|(_ & _ & r & E)]];
      [congruence | assumption | congruence].
  - intros [N Hl]. destruct Hchart as [[? _]|[(_ & _ & E)|(_ & Nl & _)]];
      [contradiction | assumption | contradiction].
  - intros e He. destruct Hchart as [[_ E]|[(_ & _ & E)|(_ & _ & r & E)]];
      rewrite E in He; try discriminate; injection He as <-; auto.
Qed.

Lemma ewma_exceptions_witness :
  (0 <= 2 <= 2)%Q /\
  StatisticalCalculator.calculate_ewma (map Fin [1; 3]%Q) 2 3
  = Raise ZeroDivisionError.
Proof.
  assert (H : (0 <= 2 <= 2)%Q) by (split; intros E; discriminate E).
  split; [exact H|].
  apply (proj2 (proj1 (proj2 (ewma_exceptions (map Fin [1; 3]%Q) [] 2 3 H)))).
  split; [discriminate | reflexivity].
Defined.

(** X2.  For every non-empty series and every [lambda_val] with
    [0 <= lambda_val < 2], both EWMA entry points return the sequence
    [z[0] = mean(series)], [z[i] = lambda * x[i] + (1 - lambda) * z[i-1]],
    one value per observation. *)
Theorem ewma_recurrence
        (df : ControlCharts.dataframe) (lambda_val L : Q) :
  df <> [] -> (0 <= lambda_val < 2)%Q ->
  (exists r,
      StatisticalCalculator.calculate_ewma
        (ControlCharts.column df) lambda_val L = Ok r /\
      ewma_sequence (ControlCharts.column df) lambda_val
                    (StatisticalCalculator.ewma_values r) /\
      StatisticalCalculator.ewma_center_line r = np_mean (ControlCharts.column df)) /\
  (exists r,
      ControlCharts.create_ewma_chart df lambda_val L = Ok r /\
      ewma_sequence (ControlCharts.column df) lambda_val
                    (ControlCharts.ewma_values r) /\
      ControlCharts.ewma_actual_values r = ControlCharts.column df).
Proof.
  intros Hne Hrange.
  assert (Hl : ~ (lambda_val == 2)%Q) by lra.
  assert (Hd : ControlCharts.column df <> []).
  { unfold ControlCharts.column. destruct df; [contradiction | discriminate]. }
  split.
  - destruct (ewma_loop_sequence (ControlCharts.column df) lambda_val Hd)
      as (z & Hrun & Hseq).
    unfold StatisticalCalculator.calculate_ewma.
    destruct (setitem (np_zeros (length (ControlCharts.column df))) 0
                      (np_mean (ControlCharts.column df))) as [z0|e] eqn:E0;
      cbn [bind] in Hrun |- *; [|discriminate Hrun].
    rewrite Hrun. cbn [bind].
    erewrite map_each_total.
    2:{ intros i _. rewrite ewma_var_factor_defined by exact Hl.
        cbn [bind]. reflexivity. }
    cbn [bind]. eexists. split; [reflexivity|]. split; [exact Hseq | reflexivity].
  - destruct (ewma_loop_sequence (ControlCharts.column df) lambda_val Hd)
      as (z & Hrun & Hseq).
    unfold ControlCharts.create_ewma_chart.
    destruct (setitem (np_zeros (length (ControlCharts.column df))) 0
                      (np_mean (ControlCharts.column df))) as [z0|e] eqn:E0;
      cbn [bind] in Hrun |- *; [|discriminate Hrun].
    rewrite Hrun. cbn [bind].
    erewrite map_each_total.
    2:{ intros i _. rewrite ewma_var_factor_defined by exact Hl.
        cbn [bind]. reflexivity. }
    cbn [bind]. eexists. split; [reflexivity|]. split; [exact Hseq | reflexivity].
Qed.

Lemma ewma_recurrence_witness :
  map (fun x => ("M"%string, Fin x)) [10; 12; 11; 13; 50]%Q <> [] /\
  (0 <= 0.2 < 2)%Q /\
  exists r,
    StatisticalCalculator.calculate_ewma
      (ControlCharts.column
         (map (fun x => ("M"%string, Fin x)) [10; 12; 11; 13; 50]%Q)) 0.2 3
    = Ok r /\
    ewma_sequence
      (ControlCharts.column
         (map (fun x => ("M"%string, Fin x)) [10; 12; 11; 13; 50]%Q)) 0.2
      (StatisticalCalculator.ewma_values r).
Proof.
  assert (H1 : map (fun x => ("M"%string, Fin x)) [10; 12; 11; 13; 50]%Q <> [])
    by discriminate.
  assert (H2 : (0 <= 0.2 < 2)%Q)
    by (split; [intros E; discriminate E | reflexivity]).
  split; [exact H1|]. split; [exact H2|].
  destruct (proj1 (ewma_recurrence _ 0.2 3 H1 H2)) as (r & Hr & Hseq & _).
  exists r. split; [exact Hr | exact Hseq].
Defined.

(** ** Capability: exceptions, defaulted limits, a lone observation *)

Lemma positive_std_two_points (qs : list Q) :
  (0 < Qsqrt (Qvar qs))%Q -> (2 <= length qs)%nat.
Proof.
  intros H.
  destruct qs as [|x [|y t]]; [| |simpl; lia]; exfalso.
  - vm_compute in H. discriminate H.
  - assert (E : (Qvar [x] == 0)%Q).
    { unfold Qvar. cbn [length Nat.sub Z.of_nat].
      unfold Qdiv. change (/ inject_Z 0)%Q with 0%Q. ring. }
    rewrite (Qsqrt_zero _ E) in H. discriminate H.
Qed.

(** X3.  [calculate_capability_indices] raises exactly on an empty series,
    and then a [ZeroDivisionError] (the observed defect rate divides the
    plain integer 0 by [len(data) = 0]), whatever limits are passed; on a
    non-empty series it always returns. *)
Theorem capability_indices_raises_only_on_empty
        (norm_cdf : float64 -> float64) (data : list float64)
        (variable : string) (usl lsl target : option Q) :
  (data = [] ->
   ProcessCapability.calculate_capability_indices
     norm_cdf data variable usl lsl target = Raise ZeroDivisionError) /\
  (data <> [] ->
   exists r,
     ProcessCapability.calculate_capability_indices
       norm_cdf data variable usl lsl target = Ok r) /\
  (raises (ProcessCapability.calculate_capability_indices
             norm_cdf data variable usl lsl target) <-> data = []).
Proof.
  assert (Hempty :
            ProcessCapability.calculate_capability_indices
              norm_cdf [] variable usl lsl target = Raise ZeroDivisionError)
    by apply capability_indices_empty.
  assert (Hok : data <> [] ->
                exists r,
                  ProcessCapability.calculate_capability_indices
                    norm_cdf data variable usl lsl target = Ok r).
  { intros Hne. destruct data as [|x data]; [contradiction|].
    unfold ProcessCapability.calculate_capability_indices.
    destruct usl, lsl, (sdict_find Constants.SPEC_LIMITS variable);
      cbn [length Nat.eqb bind]; eexists; reflexivity. }
  split; [intros ->; exact Hempty|]. split; [exact Hok|].
  split.
  - intros [e He]. destruct data as [|x data]; [reflexivity|].
    destruct (Hok ltac:(discriminate)) as (r & Hr). congruence.
  - intros ->. eexists. exact Hempty.
Qed.

Section DefaultLimits.
Variable norm_cdf : float64 -> float64.
Import ProcessCapability.

(** What the function computes when no limits are passed and the variable
    has no entry in [SPEC_LIMITS]: limits at [mean -+ 3 * std]. *)
Lemma capability_indices_default_fields
      (data : list float64) (variable : string) (lsl target : option Q) :
  data <> [] ->
  sdict_find Constants.SPEC_LIMITS variable = None ->
  exists r,
    calculate_capability_indices norm_cdf data variable None lsl target = Ok r /\
    let mean := np_mean data in
    let std := np_std_ddof1 data in
    let usl := mean + of_Z 3 * std in
    let lsl := mean - of_Z 3 * std in
    st_USL (cr_statistics r) = usl /\
    st_LSL (cr_statistics r) = lsl /\
    st_target (cr_statistics r) = round mean 2 /\
    Pp (cr_indices r) = round ((usl - lsl) / (of_Z 6 * std)) 3 /\
    Ppk (cr_indices r)
    = round (py_min ((usl - mean) / (of_Z 3 * std))
                    ((mean - lsl) / (of_Z 3 * std))) 3 /\
    k (cr_indices r)
    = round (fabs (mean - mean) / ((usl - lsl) / of_Z 2)) 3.
Proof.
  intros Hne Hvar. unfold calculate_capability_indices.
  rewrite Hvar.
  destruct data as [|x data]; [contradiction|].
  cbn [length Nat.eqb bind].
  eexists. split; [reflexivity|].
  cbv zeta.
  cbn [cr_indices cr_statistics Pp Ppk k st_USL st_LSL st_target].
  repeat split; reflexivity.
Qed.
End DefaultLimits.

(** X5.  A series of one observation has no moving range: [sigma_within]
    and with it Cp, Cpk and the sigma level are [nan], no exception is
    raised, and since every comparison with [nan] is false the capability
    status falls through to the last label, "Dunya sinifi - 6-sigma
    seviyesi". *)
Theorem single_observation_is_world_class
        (norm_cdf : float64 -> float64) (x : float64)
        (variable : string) (u l : Q) (target : option Q) :
  exists r,
    ProcessCapability.calculate_capability_indices
      norm_cdf [x] variable (Some u) (Some l) target = Ok r /\
    ProcessCapability.st_sigma_within (ProcessCapability.cr_statistics r) = NaN /\
    ProcessCapability.Cp (ProcessCapability.cr_indices r) = NaN /\
    ProcessCapability.Cpk (ProcessCapability.cr_indices r) = NaN /\
    ProcessCapability.sigma_level r = NaN /\
    ProcessCapability.in_capability_status (ProcessCapability.cr_interpretation r)
    = ProcessCapability.DunyaSinifi /\
    ProcessCapability.in_variation_control (ProcessCapability.cr_interpretation r)
    = ProcessCapability.YuksekVaryasyon.
Proof.
  eexists. split; [reflexivity|].
  cbn [ProcessCapability.cr_statistics ProcessCapability.cr_indices
       ProcessCapability.cr_interpretation ProcessCapability.sigma_level
       ProcessCapability.st_sigma_within ProcessCapability.Cp
       ProcessCapability.Cpk ProcessCapability.in_capability_status
       ProcessCapability.in_variation_control].
  change (np_mean (map fabs (np_diff [x]))) with NaN.
  change (NaN / Fin 1.128) with NaN.
  change (of_Z 6 * NaN) with NaN. change (of_Z 3 * NaN) with NaN.
  assert (Hdiv : forall a, a / NaN = NaN) by (intros [?| | |]; reflexivity).
  rewrite !Hdiv.
  repeat split; reflexivity.
Qed.

(** ** Control limits: subgroups *)

(** Block [j] of size [n]: [data[j*n : j*n + n]]. *)
Definition block (data : list float64) (n j : nat) : list float64 :=
  firstn n (skipn (j * n) data).

(** The ranges of the [len(data) // n] full blocks, in order. *)
Definition block_ranges (data : list float64) (n : nat) : list float64 :=
  map (fun j => np_max (block data n j) - np_min (block data n j))
      (seq 0 (length data / n)).

Lemma flat_map_singletons {A B : Type} (f : A -> list B) (g : A -> B)
      (l : list A) :
  (forall x, In x l -> f x = [g x]) -> flat_map f l = map g l.
Proof.
  induction l as [|x l IH]; intros H; simpl; [reflexivity|].
  rewrite (H x) by now left. simpl. f_equal.
  apply IH. intros y Hy. apply H. now right.
Qed.

Lemma flat_map_all_nil {A B : Type} (f : A -> list B) (l : list A) :
  (forall x, In x l -> f x = []) -> flat_map f l = [].
Proof.
  induction l as [|x l IH]; intros H; simpl; [reflexivity|].
  rewrite (H x) by now left. simpl.
  apply IH. intros y Hy. apply H. now right.
Qed.

Lemma flat_map_map {A B C : Type} (f : B -> list C) (g : A -> B) (l : list A) :
  flat_map f (map g l) = flat_map (fun x => f (g x)) l.
Proof.
  induction l as [|x l IH]; simpl; [reflexivity|]. now rewrite IH.
Qed.

Lemma length_block (data : list float64) (n j : nat) :
  length (block data n j) = Nat.min n (length data - j * n).
Proof.
  unfold block. now rewrite length_firstn, length_skipn.
Qed.

Lemma full_block_iff (len n j : nat) :
  (0 < n)%nat -> (Nat.min n (len - j * n) = n <-> j < len / n)%nat.
Proof.
  intros Hn.
  pose proof (Nat.div_mod_eq len n) as Hdm.
  pose proof (Nat.mod_upper_bound len n ltac:(lia)) as Hmod.
  split; intros H.
  - assert (j * n + n <= len)%nat by lia.
    destruct (Nat.lt_ge_cases j (len / n)) as [Hlt|Hge]; [exact Hlt|].
    exfalso. nia.
  - assert (j * n + n <= len)%nat by nia. lia.
Qed.

Lemma ceil_div_ge (len n : nat) :
  (0 < n)%nat -> (len / n <= (len + n - 1) / n)%nat.
Proof.
  intros Hn. apply Nat.Div0.div_le_mono. lia.
Qed.

(** The loop over [range(0, len(data), n)] keeps exactly the full blocks. *)
Lemma subgroup_ranges_blocks (data : list float64) (n : Z) :
  (0 < n)%Z ->
  StatisticalCalculator.subgroup_ranges data n
  = Ok (block_ranges data (Z.to_nat n)).
Proof.
  intros Hn. unfold StatisticalCalculator.subgroup_ranges, py_range_step.
  destruct (Z.eqb_spec n 0); [lia|].
  destruct (Z.ltb_spec n 0); [lia|].
  cbn [bind]. f_equal.
  set (s := Z.to_nat n).
  assert (Hs : (0 < s)%nat) by (subst s; lia).
  rewrite flat_map_map.
  set (q := (length data / s)%nat).
  set (m := ((length data + s - 1) / s)%nat).
  assert (Hqm : (q <= m)%nat) by (apply ceil_div_ge; exact Hs).
  replace m with (q + (m - q))%nat by lia.
  rewrite seq_app, flat_map_app.
  rewrite (flat_map_all_nil _ (seq (0 + q) (m - q))).
  - rewrite app_nil_r. unfold block_ranges. fold s. fold q.
    apply flat_map_singletons. intros j Hj. apply in_seq in Hj.
    unfold slice. fold (block data s j).
    rewrite length_block.
    rewrite (proj2 (full_block_iff (length data) s j Hs)) by (fold q; lia).
    replace (Z.of_nat s =? n)%Z with true; [reflexivity|].
    symmetry. apply Z.eqb_eq. subst s. lia.
  - intros j Hj. apply in_seq in Hj.
    unfold slice. fold (block data s j).
    rewrite length_block.
    destruct (Z.eqb_spec (Z.of_nat (Nat.min s (length data - j * s))) n)
      as [E|NE]; [|reflexivity].
    exfalso.
    assert (E' : Nat.min s (length data - j * s) = s) by (subst s; lia).
    apply (full_block_iff (length data) s j Hs) in E'. fold q in E'. lia.
Qed.

(** X6.  For a positive subgroup size, the ['r'] limits are computed from
    the ranges of the [len(data) // n] full consecutive blocks of [n]
    observations; a trailing partial block is dropped.  The ['xbar'] limits
    for [n <> 1] take their sigma from the same ranges. *)
Theorem range_chart_uses_full_blocks (data : list float64) (n : Z) :
  (0 < n)%Z ->
  let c := dict_get Constants.CONTROL_CONSTANTS n individuals_row in
  let r_bar := np_mean (block_ranges data (Z.to_nat n)) in
  StatisticalCalculator.calculate_control_limits data "r" n
  = Ok (Some {| StatisticalCalculator.lim_UCL := round (Fin (Constants.D4 c) * r_bar) 2;
                StatisticalCalculator.lim_CL := round r_bar 2;
                StatisticalCalculator.lim_LCL := round (Fin (Constants.D3 c) * r_bar) 2;
                StatisticalCalculator.lim_sigma := None |}) /\
  length (block_ranges data (Z.to_nat n)) = (length data / Z.to_nat n)%nat /\
  (forall j, (j < length data / Z.to_nat n)%nat ->
             length (block data (Z.to_nat n) j) = Z.to_nat n) /\
  (n <> 1%Z ->
   exists lx,
     StatisticalCalculator.calculate_control_limits data "xbar" n = Ok (Some lx) /\
     StatisticalCalculator.lim_sigma lx
     = Some (round (r_bar / Fin (Constants.d2 c)) 3)).
Proof.
  intros Hn c r_bar.
  pose proof (subgroup_ranges_blocks data n Hn) as Hr.
  split; [|split; [|split]].
  - unfold StatisticalCalculator.calculate_control_limits.
    rewrite CONTROL_CONSTANTS_item_1. cbn [bind].
    cbn [String.eqb Ascii.eqb Bool.eqb].
    rewrite Hr. reflexivity.
  - unfold block_ranges. now rewrite length_map, length_seq.
  - intros j Hj. rewrite length_block.
    apply full_block_iff; [lia | exact Hj].
  - intros H1.
    unfold StatisticalCalculator.calculate_control_limits.
    rewrite CONTROL_CONSTANTS_item_1. cbn [bind].
    cbn [String.eqb Ascii.eqb Bool.eqb].
    rewrite (proj2 (Z.eqb_neq n 1) H1), Hr. cbn [bind].
    eexists. split; reflexivity.
Qed.

Lemma range_chart_uses_full_blocks_witness :
  (0 < 3)%Z /\
  length (block_ranges (map Fin [1; 4; 2; 8; 5; 7; 9; 3]%Q) (Z.to_nat 3)) = 2%nat.
Proof.
  assert (H : (0 < 3)%Z) by reflexivity.
  split; [exact H|].
  exact (proj1 (proj2 (range_chart_uses_full_blocks
                         (map Fin [1; 4; 2; 8; 5; 7; 9; 3]%Q) 3 H))).
Defined.

Lemma fadd_nan_r (a : float64) : a + NaN = NaN.
Proof. now destruct a. Qed.

Lemma fsub_nan_r (a : float64) : a - NaN = NaN.
Proof. now destruct a. Qed.

(** X7.  Non-positive subgroup sizes.  Size 0 stops the ['xbar'] and ['r']
    computations and [create_xbar_r_chart] with a [ValueError] (from
    [range(0, len(data), 0)]), while ['mr'] never looks at the size.  A
    negative size raises nothing: the range is empty, there is no
    subgroup, and the ['r'] limits and the ['xbar'] control limits come out
    as [nan]. *)
Theorem nonpositive_subgroup_size
        (data : list float64) (df : ControlCharts.dataframe) (n : Z) :
  StatisticalCalculator.calculate_control_limits data "xbar" 0 = Raise ValueError /\
  StatisticalCalculator.calculate_control_limits data "r" 0 = Raise ValueError /\
  ControlCharts.create_xbar_r_chart df 0 = Raise ValueError /\
  StatisticalCalculator.calculate_control_limits data "mr" 0
  = StatisticalCalculator.calculate_control_limits data "mr" 1 /\
  ((n < 0)%Z ->
   StatisticalCalculator.calculate_control_limits data "r" n
   = Ok (Some {| StatisticalCalculator.lim_UCL := NaN;
                 StatisticalCalculator.lim_CL := NaN;
                 StatisticalCalculator.lim_LCL := NaN;
                 StatisticalCalculator.lim_sigma := None |}) /\
   StatisticalCalculator.calculate_control_limits data "xbar" n
   = Ok (Some {| StatisticalCalculator.lim_UCL := NaN;
                 StatisticalCalculator.lim_CL := round (np_mean data) 2;
                 StatisticalCalculator.lim_LCL := NaN;
                 StatisticalCalculator.lim_sigma := Some NaN |})).
Proof.
  repeat (split; [reflexivity|]).
  intros Hn.
  assert (Hr : StatisticalCalculator.subgroup_ranges data n = Ok []).
  { unfold StatisticalCalculator.subgroup_ranges, py_range_step.
    destruct (Z.eqb_spec n 0); [lia|].
    destruct (Z.ltb_spec n 0); [reflexivity | lia]. }
  assert (Hget : dict_get Constants.CONTROL_CONSTANTS n individuals_row
                 = individuals_row).
  { unfold dict_get. rewrite dict_find_untabulated; [reflexivity | lia]. }
  unfold StatisticalCalculator.calculate_control_limits.
  rewrite CONTROL_CONSTANTS_item_1. cbn [bind].
  cbn [String.eqb Ascii.eqb Bool.eqb].
  rewrite Hget, Hr, (proj2 (Z.eqb_neq n 1)) by lia.
  cbn [bind]. split; [reflexivity|].
  change (np_mean []) with NaN.
  change (NaN / Fin (Constants.d2 individuals_row)) with NaN.
  change (of_Z 3 * NaN) with NaN.
  now rewrite fadd_nan_r, fsub_nan_r.
Qed.

(** ** Control limits of the individuals chart *)

Lemma Qmean_nonneg (qs : list Q) :
  Forall (fun q => 0 <= q)%Q qs -> (0 <= Qmean qs)%Q.
Proof.
  intros H. unfold Qmean, Qsum.
  pose proof (Qsum_from_nonneg qs 0 ltac:(lra) H) as Hs.
  destruct (length qs) as [|k].
  - unfold Qdiv. change (/ inject_Z (Z.of_nat 0))%Q with 0%Q. lra.
  - apply Qle_shift_div_l; [apply inject_nat_pos; lia | lra].
Qed.

Lemma mean_moving_range_nonneg (qs : list Q) :
  (0 <= Qmean (map Qabs (Qdiff qs)))%Q.
Proof.
  apply Qmean_nonneg, Forall_forall. intros v Hv.
  apply in_map_iff in Hv. destruct Hv as (q & <- & _). apply Qabs_nonneg.
Qed.

Lemma Qround_nd_nonneg (x : Q) (d : nat) : (0 <= x)%Q -> (0 <= Qround_nd x d)%Q.
Proof.
  intros H. rewrite <- (Qround_nd_zero d). now apply Qround_nd_monotone.
Qed.

Section IndividualsLimits.
Variable qs : list Q.
Hypothesis two_points : (2 <= length qs)%nat.

Let m : Q := Qmean qs.
Let mr : Q := Qmean (map Qabs (Qdiff qs)).
Let s : Q := (mr / 1.128)%Q.

Lemma xbar_limits_finite :
  StatisticalCalculator.calculate_control_limits (map Fin qs) "xbar" 1
  = Ok (Some {| StatisticalCalculator.lim_UCL := Fin (Qround_nd (m + inject_Z 3 * s) 2);
                StatisticalCalculator.lim_CL := Fin (Qround_nd m 2);
                StatisticalCalculator.lim_LCL := Fin (Qround_nd (m + - (inject_Z 3 * s)) 2);
                StatisticalCalculator.lim_sigma := Some (Fin (Qround_nd s 3)) |}).
Proof.
  unfold StatisticalCalculator.calculate_control_limits.
  rewrite CONTROL_CONSTANTS_item_1. cbn [bind String.eqb Ascii.eqb Bool.eqb].
  change (1 =? 1)%Z with true. cbv iota.
  rewrite mean_moving_range_finite by exact two_points.
  rewrite np_mean_finite
    by (destruct qs; [simpl in two_points; lia | discriminate]).
  reflexivity.
Qed.

Lemma mr_limits_finite :
  StatisticalCalculator.calculate_control_limits (map Fin qs) "mr" 1
  = Ok (Some {| StatisticalCalculator.lim_UCL := Fin (Qround_nd (3.267 * mr) 2);
                StatisticalCalculator.lim_CL := Fin (Qround_nd mr 2);
                StatisticalCalculator.lim_LCL := Fin (Qround_nd (0 * mr) 2);
                StatisticalCalculator.lim_sigma := None |}).
Proof.
  unfold StatisticalCalculator.calculate_control_limits.
  rewrite CONTROL_CONSTANTS_item_1. cbn [bind String.eqb Ascii.eqb Bool.eqb].
  rewrite mean_moving_range_finite by exact two_points.
  reflexivity.
Qed.

Lemma sigma_estimate_nonneg : (0 <= s)%Q.
Proof.
  subst s. apply Qle_shift_div_l; [reflexivity|].
  pose proof (mean_moving_range_nonneg qs). subst mr. lra.
Qed.
End IndividualsLimits.

(** X8.  For every finite series of at least two points, the individuals
    limits returned by [calculate_control_limits(data, 'xbar', 1)] are
    ordered, [LCL <= CL <= UCL], with a non-negative sigma estimate; the
    moving-range limits have [LCL = 0] and [0 <= CL <= UCL]. *)
Theorem individuals_limits_are_ordered (qs : list Q) :
  (2 <= length qs)%nat ->
  (exists lx sigma,
      StatisticalCalculator.calculate_control_limits (map Fin qs) "xbar" 1
      = Ok (Some lx) /\
      StatisticalCalculator.lim_sigma lx = Some sigma /\
      (Fin 0 <=? sigma) = true /\
      (StatisticalCalculator.lim_LCL lx <=? StatisticalCalculator.lim_CL lx) = true /\
      (StatisticalCalculator.lim_CL lx <=? StatisticalCalculator.lim_UCL lx) = true) /\
  (exists lmr,
      StatisticalCalculator.calculate_control_limits (map Fin qs) "mr" 1
      = Ok (Some lmr) /\
      StatisticalCalculator.lim_LCL lmr =~ Fin 0 /\
      (Fin 0 <=? StatisticalCalculator.lim_CL lmr) = true /\
      (StatisticalCalculator.lim_CL lmr <=? StatisticalCalculator.lim_UCL lmr) = true).
Proof.
  intros Hlen.
  pose proof (sigma_estimate_nonneg qs) as Hs.
  pose proof (mean_moving_range_nonneg qs) as Hmr.
  split.
  - rewrite (xbar_limits_finite qs Hlen).
    do 2 eexists. split; [reflexivity|]. split; [reflexivity|].
    cbn [StatisticalCalculator.lim_LCL StatisticalCalculator.lim_CL
         StatisticalCalculator.lim_UCL fle].
    change (inject_Z 3) with 3%Q.
    repeat split; apply Qle_bool_iff.
    + now apply Qround_nd_nonneg.
    + apply Qround_nd_monotone. lra.
    + apply Qround_nd_monotone. lra.
  - rewrite (mr_limits_finite qs Hlen).
    eexists. split; [reflexivity|].
    cbn [StatisticalCalculator.lim_LCL StatisticalCalculator.lim_CL
         StatisticalCalculator.lim_UCL fle feqv].
    split; [|split].
    + rewrite (Qround_nd_wd (0 * _) 0 2) by ring. apply Qround_nd_zero.
    + apply Qle_bool_iff. now apply Qround_nd_nonneg.
    + apply Qle_bool_iff, Qround_nd_monotone. lra.
Qed.

Lemma individuals_limits_are_ordered_witness :
  (2 <= length [10; 12; 11; 13; 50]%Q)%nat /\
  exists lx sigma,
    StatisticalCalculator.calculate_control_limits
      (map Fin [10; 12; 11; 13; 50]%Q) "xbar" 1 = Ok (Some lx) /\
    StatisticalCalculator.lim_sigma lx = Some sigma /\
    (Fin 0 <=? sigma) = true.
Proof.
  assert (H : (2 <= length [10; 12; 11; 13; 50]%Q)%nat) by (simpl; lia).
  split; [exact H|].
  destruct (proj1 (individuals_limits_are_ordered [10; 12; 11; 13; 50]%Q H))
    as (lx & sigma & Hl & Hs & Hpos & _).
  exists lx, sigma. split; [exact Hl|]. split; [exact Hs | exact Hpos].
Defined.

(** ** CUSUM: degenerate series and the shift onset *)

Lemma py_max_zero_nan_sum (k : Q) (prev : float64) :
  py_max (Fin 0) (NaN - Fin k + prev) = Fin 0 /\
  py_max (Fin 0) (fopp NaN - Fin k + prev) = Fin 0.
Proof. destruct prev; split; reflexivity. Qed.

(** When every standardized value is [nan], the two sums stay at zero. *)
Lemma cusum_sums_of_nan (z : list float64) (k : Q) (cp cm : list float64) :
  Forall (fun v => v = NaN) z ->
  cusum_sums z k cp cm ->
  cp = np_zeros (length z) /\ cm = np_zeros (length z).
Proof.
  intros Hz (Lp & Lm & H0 & Hrec & _).
  assert (Hall : forall i, (i < length z)%nat ->
                           nth i cp NaN = Fin 0 /\ nth i cm NaN = Fin 0).
  { intros [|i] Hi; [apply H0; lia|].
    destruct (Hrec (S i) ltac:(lia)) as [Hp Hm].
    rewrite Forall_forall in Hz.
    rewrite (Hz (nth (S i) z NaN)) in Hp, Hm by (apply nth_In; lia).
    rewrite Hp, Hm. split; apply py_max_zero_nan_sum. }
  split; apply (nth_ext _ _ NaN NaN);
    rewrite ?length_np_zeros; try assumption;
      intros i Hi; rewrite nth_np_zeros by lia; apply Hall; lia.
Qed.

Lemma standardize_constant (c : Q) (n : nat) :
  (2 <= n)%nat ->
  Forall (fun v => v = NaN) (standardize (map Fin (repeat c n))).
Proof.
  intros Hn. unfold standardize.
  assert (Hlen : (2 <= length (repeat c n))%nat) by (rewrite repeat_length; lia).
  rewrite np_std_finite by exact Hlen.
  rewrite np_mean_finite by (destruct n; [lia | discriminate]).
  apply Forall_forall. intros v Hv.
  apply in_map_iff in Hv. destruct Hv as (x & <- & Hx).
  apply in_map_iff in Hx. destruct Hx as (q & <- & Hq).
  apply repeat_spec in Hq. subst q.
  cbn [fsub fadd fopp].
  rewrite fdiv_by_zero by (apply Qsqrt_zero, Qvar_repeat; lia).
  unfold signed_inf.
  assert (E : (c + - Qmean (repeat c n) == 0)%Q)
    by (rewrite Qmean_repeat by lia; ring).
  now rewrite (proj1 (Qeq_alt _ _) E).
Qed.

Lemma filter_all_false {A : Type} (f : A -> bool) (l : list A) :
  (forall x, In x l -> f x = false) -> filter f l = [].
Proof.
  induction l as [|x l IH]; intros H; simpl; [reflexivity|].
  rewrite (H x) by now left. apply IH. intros y Hy. apply H. now right.
Qed.

Lemma zero_not_above (h : Q) (n i : nat) :
  (0 <= h)%Q -> (i < n)%nat -> (nth i (np_zeros n) NaN >? Fin h) = false.
Proof.
  intros Hh Hi. rewrite nth_np_zeros by exact Hi.
  unfold fgt, flt. apply Qltb_ge. exact Hh.
Qed.

(** X9.  A series of [n >= 2] copies of an integer within
    [float_exact_constant] has mean equal to the constant and zero
    standard deviation; its standardized values are [0/0 = nan], Python's
    [max(0, nan)] is 0, and so for every [k] and every [h >= 0] both CUSUM
    entry points return all-zero sums and report no alarm: the degenerate
    input is silently "under control". *)
Theorem cusum_constant_series_is_silent
        (z : Z) (n : nat) (ids : list string) (k h : Q) :
  (2 <= n)%nat -> (0 <= h)%Q -> length ids = n -> float_exact_constant z n ->
  let data := map Fin (repeat (inject_Z z) n) in
  let df := combine ids data in
  (exists r,
      StatisticalCalculator.calculate_cusum data k h = Ok r /\
      StatisticalCalculator.C_plus r = np_zeros n /\
      StatisticalCalculator.C_minus r = np_zeros n /\
      StatisticalCalculator.out_of_control_points r = []) /\
  (exists r,
      ControlCharts.create_cusum_chart df k h = Ok r /\
      ControlCharts.C_plus r = np_zeros n /\
      ControlCharts.C_minus r = np_zeros n /\
      Forall (fun v => v = NaN) (ControlCharts.standardized_values r) /\
      ControlCharts.alarms r = [] /\
      ControlCharts.cusum_control_status r = ControlCharts.KontrolAltinda /\
      ControlCharts.shift_start_index r = None).
Proof.
  intros Hn Hh Hids _ data df.
  assert (Ld : length data = n)
    by (subst data; now rewrite length_map, repeat_length).
  assert (Hcol : ControlCharts.column df = data).
  { subst df. unfold ControlCharts.column.
    apply map_snd_combine. congruence. }
  pose proof (standardize_constant (inject_Z z) n Hn) as Hz. fold data in Hz.
  destruct (cusum_loop_sums (standardize data) k) as (cp & cm & Hrun & Hs).
  destruct (cusum_sums_of_nan _ k cp cm Hz Hs) as [-> ->].
  rewrite length_standardize, Ld in Hrun.
  split.
  - unfold StatisticalCalculator.calculate_cusum.
    fold (standardize data). rewrite Ld, Hrun. cbn [bind].
    eexists. split; [reflexivity|].
    cbn [StatisticalCalculator.C_plus StatisticalCalculator.C_minus
         StatisticalCalculator.out_of_control_points].
    split; [reflexivity|]. split; [reflexivity|].
    apply filter_all_false. intros i Hi. unfold py_range in Hi.
    apply in_seq in Hi.
    rewrite !zero_not_above by (try assumption; lia). reflexivity.
  - unfold ControlCharts.create_cusum_chart.
    rewrite Hcol. fold (standardize data). rewrite Ld, Hrun. cbn [bind].
    assert (Hal : forall A (f g : nat -> string -> float64 -> A)
                         (l : list (nat * (string * float64))),
               (forall x, In x l -> (fst x < n)%nat) ->
               flat_map
                 (fun '(i, (motor_id, x)) =>
                    if nth i (np_zeros n) NaN >? Fin h then [f i motor_id x]
                    else if nth i (np_zeros n) NaN >? Fin h then [g i motor_id x]
                    else []) l = []).
    { intros A f g l Hl. apply flat_map_all_nil.
      intros [i [motor_id x]] Hx. specialize (Hl _ Hx). simpl in Hl.
      now rewrite zero_not_above by assumption. }
    eexists. split; [reflexivity|].
    cbn [ControlCharts.C_plus ControlCharts.C_minus
         ControlCharts.standardized_values ControlCharts.alarms
         ControlCharts.cusum_control_status ControlCharts.shift_start_index].
    assert (Halarms : forall x, In x (combine (seq 0 n) df) -> (fst x < n)%nat).
    { intros [i y] Hx. apply in_combine_l in Hx. apply in_seq in Hx.
      simpl. lia. }
    rewrite Hal by exact Halarms.
    split; [reflexivity|]. split; [reflexivity|]. split; [exact Hz|].
    split; [reflexivity|]. split; [reflexivity|].
    unfold ControlCharts.first_above.
    rewrite length_np_zeros.
    destruct (find _ _) as [i|] eqn:E; [|reflexivity].
    apply find_some in E. destruct E as [Hi E].
    unfold py_range in Hi. apply in_seq in Hi.
    rewrite zero_not_above in E by (try assumption; lia). discriminate E.
Qed.

Lemma cusum_constant_series_is_silent_witness :
  (2 <= 5)%nat /\ (0 <= 5)%Q /\
  length ["M1"; "M2"; "M3"; "M4"; "M5"]%string = 5%nat /\
  float_exact_constant 7 5 /\
  exists r,
    StatisticalCalculator.calculate_cusum
      (map Fin (repeat (inject_Z 7) 5)) 0.5 5 = Ok r /\
    StatisticalCalculator.out_of_control_points r = [].
Proof.
  assert (H1 : (2 <= 5)%nat) by lia.
  assert (H2 : (0 <= 5)%Q) by (intros H; discriminate H).
  assert (H3 : length ["M1"; "M2"; "M3"; "M4"; "M5"]%string = 5%nat)
    by reflexivity.
  assert (H4 : float_exact_constant 7 5) by (intros H; discriminate H).
  split; [exact H1|]. split; [exact H2|]. split; [exact H3|]. split; [exact H4|].
  destruct (proj1 (cusum_constant_series_is_silent 7 5 _ 0.5 5 H1 H2 H3 H4))
    as (r & Hr & _ & _ & Hout).
  exists r. split; [exact Hr | exact Hout].
Defined.

(** Searching downwards from [m] to 0. *)
Lemma find_downwards (f : nat -> bool) (m : nat) :
  match find f (rev (seq 0 (S m))) with
  | Some j =>
    (j <= m)%nat /\ f j = true /\
    (forall i, (j < i <= m)%nat -> f i = false)
  | None => forall i, (i <= m)%nat -> f i = false
  end.
Proof.
  induction m as [|m IH].
  - simpl. destruct (f 0%nat) eqn:E.
    + repeat split; [lia | exact E | intros i Hi; lia].
    + intros i Hi. now replace i with 0%nat by lia.
  - rewrite seq_S, rev_app_distr. cbn [rev app find Nat.add].
    destruct (f (S m)) eqn:E.
    + repeat split; [lia | exact E | intros i Hi; lia].
    + destruct (find f (rev (seq 0 (S m)))) as [j|].
      * destruct IH as (Hj & Hfj & Hbetween).
        repeat split; [lia | exact Hfj |].
        intros i Hi. destruct (Nat.eq_dec i (S m)) as [->|Hne];
          [exact E | apply Hbetween; lia].
      * intros i Hi. destruct (Nat.eq_dec i (S m)) as [->|Hne];
          [exact E | apply IH; lia].
Qed.

Lemma find_upwards (f : nat -> bool) (n : nat) :
  forall start,
    match find f (seq start n) with
    | Some first =>
      (start <= first < start + n)%nat /\ f first = true /\
      (forall i, (start <= i < first)%nat -> f i = false)
    | None => forall i, (start <= i < start + n)%nat -> f i = false
    end.
Proof.
  induction n as [|n IH]; intros start; [simpl; intros i Hi; lia|].
  cbn [seq find]. destruct (f start) eqn:E.
  - repeat split; [lia | lia | exact E | intros i Hi; lia].
  - specialize (IH (S start)).
    destruct (find f (seq (S start) n)) as [first|].
    + destruct IH as (Hr & Hf & Hb).
      repeat split; [lia | lia | exact Hf |].
      intros i Hi. destruct (Nat.eq_dec i start) as [->|Hne];
        [exact E | apply Hb; lia].
    + intros i Hi. destruct (Nat.eq_dec i start) as [->|Hne];
        [exact E | apply IH; lia].
Qed.

Lemma first_above_spec (c : list float64) (h : Q) :
  match ControlCharts.first_above c h with
  | Some first =>
    (first < length c)%nat /\ (nth first c NaN >? Fin h) = true /\
    (forall i, (i < first)%nat -> (nth i c NaN >? Fin h) = false)
  | None => forall i, (i < length c)%nat -> (nth i c NaN >? Fin h) = false
  end.
Proof.
  unfold ControlCharts.first_above, py_range. rewrite Nat.sub_0_r.
  pose proof (find_upwards (fun i => nth i c NaN >? Fin h) (length c) 0) as H.
  destruct (find _ (seq 0 (length c))) as [first|].
  - destruct H as (Hr & Hf & Hb). repeat split; [lia | exact Hf |].
    intros i Hi. apply Hb. lia.
  - intros i Hi. apply H. lia.
Qed.

(** X10.  The shift onset reported by [create_cusum_chart].  It is
    searched on the upper sum only: it is [None] exactly when no [C+[i]]
    exceeds [h] (downward alarms never give an onset).  Otherwise the
    backward walk from the first upper alarm always finds a zero, because
    [C+[0] = 0]: the onset is [j + 1] for the last index [j], at or before
    that alarm, where [C+[j] == 0]. *)
Theorem cusum_shift_onset (df : ControlCharts.dataframe) (k h : Q) :
  exists r,
    ControlCharts.create_cusum_chart df k h = Ok r /\
    (ControlCharts.shift_start_index r = None
       <-> forall i, (i < length df)%nat ->
                     (nth i (ControlCharts.C_plus r) NaN >? Fin h) = false) /\
    (forall onset,
        ControlCharts.shift_start_index r = Some onset ->
        exists first j,
          ControlCharts.first_above (ControlCharts.C_plus r) h = Some first /\
          onset = S j /\ (j <= first < length df)%nat /\
          feqb (nth j (ControlCharts.C_plus r) NaN) (Fin 0) = true /\
          (forall i, (j < i <= first)%nat ->
                     feqb (nth i (ControlCharts.C_plus r) NaN) (Fin 0) = false)).
Proof.
  set (d := ControlCharts.column df).
  destruct (cusum_loop_sums (standardize d) k) as (cp & cm & Hrun & Hs).
  rewrite length_standardize in Hrun.
  assert (Ld : length d = length df)
    by (subst d; unfold ControlCharts.column; apply length_map).
  destruct Hs as (Lp & _ & H0 & _ & _).
  rewrite length_standardize, Ld in Lp, H0.
  unfold ControlCharts.create_cusum_chart.
  fold d. fold (standardize d). rewrite Hrun. cbn [bind].
  eexists. split; [reflexivity|].
  cbn [ControlCharts.shift_start_index ControlCharts.C_plus].
  pose proof (first_above_spec cp h) as Hfirst.
  destruct (ControlCharts.first_above cp h) as [first|].
  - destruct Hfirst as (Hr & Hf & _).
    pose proof (find_downwards (fun j => feqb (nth j cp NaN) (Fin 0)) first) as Hd.
    unfold ControlCharts.shift_onset.
    destruct (find _ (rev (seq 0 (S first)))) as [j|].
    + destruct Hd as (Hj & Hz & Hb). cbn [option_map]. split.
      * split; [discriminate|].
        intros Hall. rewrite Hall in Hf by lia. discriminate Hf.
      * intros onset Hon. injection Hon as <-.
        exists first, j. repeat split; try assumption; lia.
    + exfalso. specialize (Hd 0%nat ltac:(lia)). cbv beta in Hd.
      rewrite (proj1 (H0 ltac:(lia))) in Hd. discriminate Hd.
  - split.
    + split; [intros _|reflexivity].
      intros i Hi. apply Hfirst. lia.
    + intros onset Hon. discriminate Hon.
Qed.

(** ** Pareto: running sums *)

Fixpoint Qcumsum_from (acc : Q) (l : list Q) : list Q :=
  match l with
  | [] => []
  | x :: t => (acc + x)%Q :: Qcumsum_from (acc + x) t
  end.

Definition Qcumsum (l : list Q) : list Q :=
  match l with
  | [] => []
  | x :: t => x :: Qcumsum_from x t
  end.

Lemma cumsum_from_finite (acc : Q) (ys : list Q) :
  ParetoAnalysis.cumsum_from (Fin acc) (map Fin ys)
  = map Fin (Qcumsum_from acc ys).
Proof.
  revert acc. induction ys as [|y ys IH]; intros acc; simpl; [reflexivity|].
  now rewrite IH.
Qed.

Lemma cumsum_finite (ys : list Q) :
  ParetoAnalysis.cumsum (map Fin ys) = map Fin (Qcumsum ys).
Proof.
  destruct ys as [|y ys]; simpl; [reflexivity|].
  now rewrite cumsum_from_finite.
Qed.

Lemma length_Qcumsum_from (acc : Q) (l : list Q) :
  length (Qcumsum_from acc l) = length l.
Proof.
  revert acc. induction l as [|x t IH]; intros acc; simpl; [reflexivity|].
  now rewrite IH.
Qed.

Lemma length_Qcumsum (l : list Q) : length (Qcumsum l) = length l.
Proof.
  destruct l as [|x t]; simpl; [reflexivity|].
  now rewrite length_Qcumsum_from.
Qed.

Lemma Qcumsum_from_monotone (l : list Q) :
  Forall (fun q => 0 <= q)%Q l ->
  forall acc i j,
    (i <= j < length l)%nat ->
    (acc <= nth i (Qcumsum_from acc l) 0 /\
     nth i (Qcumsum_from acc l) 0 <= nth j (Qcumsum_from acc l) 0)%Q.
Proof.
  induction 1 as [|x t Hx Ht IH]; intros acc i j Hij; [simpl in Hij; lia|].
  simpl in Hij. cbn [Qcumsum_from].
  destruct i as [|i], j as [|j]; cbn [nth]; try lia.
  - split; lra.
  - destruct (IH (acc + x)%Q j j ltac:(lia)) as [H1 _]. split; lra.
  - destruct (IH (acc + x)%Q i j ltac:(lia)) as [H1 H2]. split; lra.
Qed.

Lemma Qcumsum_monotone (l : list Q) (i j : nat) :
  Forall (fun q => 0 <= q)%Q l ->
  (i <= j < length l)%nat ->
  (nth i (Qcumsum l) 0 <= nth j (Qcumsum l) 0)%Q.
Proof.
  intros Hl Hij. destruct l as [|x t]; [simpl in Hij; lia|].
  inversion Hl as [|? ? Hx Ht]; subst. simpl in Hij. cbn [Qcumsum].
  destruct i as [|i], j as [|j]; cbn [nth]; try lia.
  - lra.
  - destruct (Qcumsum_from_monotone t Ht x j j ltac:(lia)) as [H1 _]. lra.
  - destruct (Qcumsum_from_monotone t Ht x i j ltac:(lia)) as [_ H2]. exact H2.
Qed.

Lemma fold_Qplus_acc (l : list Q) (a : Q) :
  (fold_left Qplus l a == a + fold_left Qplus l 0)%Q.
Proof.
  revert a. induction l as [|x t IH]; intros a; simpl; [ring|].
  rewrite (IH (a + x)%Q), (IH (0 + x)%Q). ring.
Qed.

Lemma Qcumsum_from_last (l : list Q) (acc : Q) :
  l <> [] ->
  (nth (length l - 1) (Qcumsum_from acc l) 0 == fold_left Qplus l acc)%Q.
Proof.
  revert acc. induction l as [|x t IH]; intros acc Hne; [contradiction|].
  destruct t as [|y t'].
  - simpl. reflexivity.
  - specialize (IH (acc + x)%Q ltac:(discriminate)).
    cbn [length Qcumsum_from fold_left] in *.
    replace (S (S (length t')) - 1)%nat with (S (S (length t') - 1)) by lia.
    cbn [nth]. exact IH.
Qed.

Lemma Qcumsum_last (l : list Q) :
  l <> [] -> (nth (length l - 1) (Qcumsum l) 0 == Qsum l)%Q.
Proof.
  intros Hne. destruct l as [|x t]; [contradiction|].
  unfold Qsum. cbn [fold_left].
  rewrite (fold_Qplus_acc t (0 + x)%Q).
  destruct t as [|y t'].
  - simpl. ring.
  - cbn [length Qcumsum].
    replace (S (S (length t')) - 1)%nat with (S (S (length t') - 1)) by lia.
    cbn [nth].
    rewrite (Qcumsum_from_last (y :: t') x) by discriminate.
    rewrite (fold_Qplus_acc (y :: t') x). ring.
Qed.

(** Counts and their percents. *)
Definition total_count (cs : list nat) : nat := fold_left Nat.add cs 0%nat.

Definition Qpercents (cs : list nat) : list Q :=
  map (fun c => (inject_Z (Z.of_nat c)
                 / inject_Z (Z.of_nat (total_count cs)) * inject_Z 100)%Q) cs.

Lemma fold_add_acc (l : list nat) (a : nat) :
  fold_left Nat.add l a = (a + fold_left Nat.add l 0)%nat.
Proof.
  revert a. induction l as [|x t IH]; intros a; simpl; [lia|].
  rewrite (IH (a + x)%nat), (IH x). lia.
Qed.

Lemma Qsum_scaled_counts (cs : list nat) (t : Q) :
  (Qsum (map (fun c => inject_Z (Z.of_nat c) / t * inject_Z 100) cs)
   == inject_Z (Z.of_nat (total_count cs)) / t * inject_Z 100)%Q.
Proof.
  unfold Qsum, total_count.
  induction cs as [|c cs IH]; [simpl; unfold Qdiv; ring|].
  cbn [map fold_left].
  rewrite fold_Qplus_acc, IH, (fold_add_acc cs (0 + c)).
  rewrite Nat2Z.inj_add, inject_Z_plus. change (0 + c)%nat with c.
  unfold Qdiv. ring.
Qed.

Lemma Qpercents_sum (cs : list nat) :
  (0 < total_count cs)%nat -> (Qsum (Qpercents cs) == 100)%Q.
Proof.
  intros Ht. unfold Qpercents. rewrite Qsum_scaled_counts.
  pose proof (inject_nat_pos _ Ht). change (inject_Z 100) with 100%Q.
  field. lra.
Qed.

Lemma Qpercents_nonneg (cs : list nat) :
  Forall (fun q => 0 <= q)%Q (Qpercents cs).
Proof.
  unfold Qpercents. apply Forall_forall. intros v Hv.
  apply in_map_iff in Hv. destruct Hv as (c & <- & _).
  assert (Hc : (0 <= inject_Z (Z.of_nat c))%Q).
  { change 0%Q with (inject_Z 0). rewrite <- Zle_Qle. lia. }
  assert (Ht : (0 <= / inject_Z (Z.of_nat (total_count cs)))%Q).
  { apply Qinv_le_0_compat. change 0%Q with (inject_Z 0).
    rewrite <- Zle_Qle. lia. }
  unfold Qdiv. change (inject_Z 100) with 100%Q.
  pose proof (Qmult_le_0_compat _ _ Hc Ht). lra.
Qed.

Section ParetoTable.
Import ParetoAnalysis.

Lemma total_count_cons (c : nat) (cs : list nat) :
  total_count (c :: cs) = (c + total_count cs)%nat.
Proof.
  unfold total_count. cbn [fold_left]. now rewrite fold_add_acc.
Qed.

Lemma total_count_label (label : string) (groups : list (string * nat)) :
  total_count (map snd (count_label label groups))
  = S (total_count (map snd groups)).
Proof.
  induction groups as [|[key c] rest IH]; [reflexivity|].
  cbn [count_label]. destruct (String.compare label key);
    cbn [map snd]; rewrite ?total_count_cons, ?IH; lia.
Qed.

Lemma total_groupby_from (labels : list string) (groups : list (string * nat)) :
  total_count
    (map snd (fold_left (fun g label => count_label label g) labels groups))
  = (total_count (map snd groups) + length labels)%nat.
Proof.
  revert groups. induction labels as [|l labels IH]; intros groups; simpl;
    [lia|].
  rewrite IH, total_count_label. lia.
Qed.

Lemma total_groupby_size (labels : list string) :
  total_count (map snd (groupby_size labels)) = length labels.
Proof.
  unfold groupby_size. now rewrite total_groupby_from.
Qed.

Lemma total_insert_desc (x : string * nat) (l : list (string * nat)) :
  total_count (map snd (insert_desc x l))
  = (snd x + total_count (map snd l))%nat.
Proof.
  induction l as [|y t IH].
  - cbn [insert_desc map]. rewrite total_count_cons. reflexivity.
  - cbn [insert_desc]. destruct (snd y <=? snd x)%nat;
      cbn [map]; rewrite ?total_count_cons, ?IH; lia.
Qed.

Lemma total_sort_values_desc (l : list (string * nat)) :
  total_count (map snd (sort_values_desc l)) = total_count (map snd l).
Proof.
  induction l as [|x t IH]; [reflexivity|].
  cbn [sort_values_desc fold_right]. fold (sort_values_desc t).
  rewrite total_insert_desc. cbn [map]. rewrite total_count_cons. lia.
Qed.

Lemma length_insert_desc (x : string * nat) (l : list (string * nat)) :
  length (insert_desc x l) = S (length l).
Proof.
  induction l as [|y t IH]; [reflexivity|].
  cbn [insert_desc]. destruct (snd y <=? snd x)%nat; cbn [length]; lia.
Qed.

Lemma pareto_table_percent_columns (pareto_df : list (string * nat)) :
  (0 < total_count (map snd pareto_df))%nat ->
  let table := pareto_table pareto_df in
  length table = length pareto_df /\
  map Yuzde table = map Fin (Qpercents (map snd pareto_df)) /\
  map Kumulatif_Yuzde table
  = map Fin (Qcumsum (Qpercents (map snd pareto_df))).
Proof.
  intros Ht table.
  destruct (pareto_table_columns pareto_df) as (Hcum & _ & Hrows).
  cbv zeta in Hcum, Hrows. fold table in Hcum, Hrows.
  assert (Hy : map Yuzde table = map Fin (Qpercents (map snd pareto_df))).
  { subst table. unfold pareto_table.
    fold (total_count (map snd pareto_df)).
    set (T := total_count (map snd pareto_df)) in *.
    set (yuzde := map (fun g => of_nat (snd g) / of_nat T * of_Z 100) pareto_df).
    assert (Ly : length pareto_df = length yuzde)
      by (unfold yuzde; now rewrite length_map).
    assert (Lk : length (combine pareto_df yuzde) = length (cumsum yuzde)).
    { rewrite length_combine, length_cumsum, <- Ly. lia. }
    rewrite map_map.
    rewrite (map_ext _ (fun x => snd (fst x)))
      by (intros [[g y] c]; reflexivity).
    rewrite <- (map_map fst snd), map_fst_combine by exact Lk.
    rewrite map_snd_combine by exact Ly.
    unfold yuzde, Qpercents. rewrite !map_map.
    apply map_ext. intros g. unfold of_nat, of_Z, fdiv.
    fold T. rewrite inject_nat_nonzero by exact Ht. reflexivity. }
  split; [|split].
  - rewrite <- (length_map (fun r => (Hata_Turu r, Adet r)) table).
    now rewrite Hrows.
  - exact Hy.
  - rewrite Hcum, Hy. apply cumsum_finite.
Qed.

(** The code's band function is monotone along a non-decreasing
    cumulative percent. *)
Lemma kategori_of_monotone (a b : Q) :
  (a <= b)%Q ->
  (kategori_of (Fin b) = HayatiAzinlik_A -> kategori_of (Fin a) = HayatiAzinlik_A) /\
  (kategori_of (Fin a) = OnemsizCogunluk_C -> kategori_of (Fin b) = OnemsizCogunluk_C).
Proof.
  intros Hab. unfold kategori_of, fle.
  destruct (Qle_bool a 80) eqn:Ea, (Qle_bool a 95) eqn:Ea',
           (Qle_bool b 80) eqn:Eb, (Qle_bool b 95) eqn:Eb';
    split; intros H; try discriminate H; try reflexivity; exfalso;
      repeat match goal with
             | E : Qle_bool _ _ = true |- _ => apply Qle_bool_iff in E
             | E : Qle_bool ?x ?y = false |- _ =>
               assert (y < x)%Q
                 by (destruct (Qlt_le_dec y x) as [L|L]; [exact L|];
                     apply Qle_bool_iff in L; congruence);
               clear E
             end; lra.
Qed.
End ParetoTable.

Section ParetoTheorems.
Import ParetoAnalysis.

(** The sorted counts behind the table of [analyze_defects]. *)
Definition sorted_counts (df : list row) : list (string * nat) :=
  sort_values_desc (groupby_size (map Hata_Nedeni (defect_rows df))).

Lemma total_sorted_counts (df : list row) :
  total_count (map snd (sorted_counts df)) = length (defect_rows df).
Proof.
  unfold sorted_counts.
  now rewrite total_sort_values_desc, total_groupby_size, length_map.
Qed.

Lemma analyze_defects_summary (df : list row) :
  defect_rows df <> [] ->
  exists s,
    analyze_defects df = Defects (pareto_table (sorted_counts df)) s /\
    toplam_hata_sayisi s = total_count (map snd (sorted_counts df)) /\
    hata_cesidi_sayisi s = length (pareto_table (sorted_counts df)) /\
    hayati_azinlik s
    = map Hata_Turu (filter is_vital (pareto_table (sorted_counts df))) /\
    en_kritik_hata s
    = option_map Hata_Turu (hd_error (pareto_table (sorted_counts df))).
Proof.
  intros Hne. unfold analyze_defects. fold (defect_rows df).
  destruct (defect_rows df) as [|r rs] eqn:E; [contradiction|].
  cbn [length Nat.eqb]. rewrite <- E. eexists.
  split; [reflexivity|]. repeat split; reflexivity.
Qed.

Lemma nth_error_map_Fin (l : list Q) (i : nat) (v : float64) :
  nth_error (map Fin l) i = Some v ->
  (i < length l)%nat /\ v = Fin (nth i l 0%Q).
Proof.
  intros H.
  assert (Hi : (i < length l)%nat).
  { rewrite <- (length_map Fin). apply nth_error_Some. congruence. }
  split; [exact Hi|].
  rewrite (nth_error_nth' (map Fin l) NaN) in H by now rewrite length_map.
  rewrite nth_map_Fin in H by exact Hi. congruence.
Qed.

(** The cumulative percent and the band of the row at a given position. *)
Lemma pareto_row_at (df : list row) (i : nat) (r : pareto_row) :
  defect_rows df <> [] ->
  nth_error (pareto_table (sorted_counts df)) i = Some r ->
  let ys := Qpercents (map snd (sorted_counts df)) in
  (i < length ys)%nat /\
  Yuzde r = Fin (nth i ys 0%Q) /\
  Kumulatif_Yuzde r = Fin (nth i (Qcumsum ys) 0%Q) /\
  Kategori r = kategori_of (Fin (nth i (Qcumsum ys) 0%Q)).
Proof.
  intros Hne Hr ys.
  assert (Ht : (0 < total_count (map snd (sorted_counts df)))%nat).
  { rewrite total_sorted_counts. destruct (defect_rows df); [contradiction|].
    simpl. lia. }
  destruct (pareto_table_percent_columns _ Ht) as (_ & Hy & Hk).
  destruct (pareto_table_columns (sorted_counts df)) as (_ & Hkat & _).
  cbv zeta in Hy, Hk, Hkat. fold ys in Hy, Hk.
  pose proof (map_nth_error Yuzde _ _ Hr) as Hyr. rewrite Hy in Hyr.
  pose proof (map_nth_error Kumulatif_Yuzde _ _ Hr) as Hkr. rewrite Hk in Hkr.
  apply nth_error_map_Fin in Hyr, Hkr.
  destruct Hyr as [Hi Hyv], Hkr as [_ Hkv].
  rewrite Forall_forall in Hkat.
  rewrite (Hkat r (nth_error_In _ _ Hr)), Hkv.
  repeat split; assumption.
Qed.
End ParetoTheorems.

(** X11.  Whenever there is a defect row, in the table of
    [analyze_defects] the cumulative percent never decreases from one row
    to the next; hence the bands are ordered along the table: the
    "Hayati Azinlik (A)" rows form a prefix and the
    "Onemsiz Cogunluk (C)" rows a suffix.  The summary's total is the
    number of defect rows. *)
Theorem pareto_cumulative_percent (df : list ParetoAnalysis.row) :
  defect_rows df <> [] ->
  exists data s,
    ParetoAnalysis.analyze_defects df = ParetoAnalysis.Defects data s /\
    data <> [] /\
    ParetoAnalysis.toplam_hata_sayisi s = length (defect_rows df) /\
    (forall i j ri rj,
        (i <= j)%nat ->
        nth_error data i = Some ri -> nth_error data j = Some rj ->
        (ParetoAnalysis.Kumulatif_Yuzde ri
         <=? ParetoAnalysis.Kumulatif_Yuzde rj) = true /\
        (ParetoAnalysis.Kategori rj = ParetoAnalysis.HayatiAzinlik_A ->
         ParetoAnalysis.Kategori ri = ParetoAnalysis.HayatiAzinlik_A) /\
        (ParetoAnalysis.Kategori ri = ParetoAnalysis.OnemsizCogunluk_C ->
         ParetoAnalysis.Kategori rj = ParetoAnalysis.OnemsizCogunluk_C)).
Proof.
  intros Hne.
  destruct (analyze_defects_summary df Hne) as (s & Hs & Htot & _).
  assert (Ht : (0 < total_count (map snd (sorted_counts df)))%nat).
  { rewrite total_sorted_counts. destruct (defect_rows df); [contradiction|].
    simpl. lia. }
  destruct (pareto_table_percent_columns _ Ht) as (Hlen & _ & _).
  cbv zeta in Hlen.
  set (ys := Qpercents (map snd (sorted_counts df))).
  assert (Lys : length ys = length (sorted_counts df))
    by (unfold ys, Qpercents; now rewrite !length_map).
  assert (Hpos : (0 < length (sorted_counts df))%nat).
  { destruct (sorted_counts df); [simpl in Ht; unfold total_count in Ht;
                                  simpl in Ht; lia | simpl; lia]. }
  exists (pareto_table (sorted_counts df)), s.
  split; [exact Hs|]. split; [|split].
  - intros E. rewrite E in Hlen. simpl in Hlen. lia.
  - now rewrite Htot, total_sorted_counts.
  - intros i j ri rj Hij Hi Hj.
    destruct (pareto_row_at df i ri Hne Hi) as (Li & _ & Hki & Hci).
    destruct (pareto_row_at df j rj Hne Hj) as (Lj & _ & Hkj & Hcj).
    fold ys in Li, Lj, Hki, Hkj, Hci, Hcj.
    assert (Hmono : (nth i (Qcumsum ys) 0 <= nth j (Qcumsum ys) 0)%Q).
    { apply Qcumsum_monotone; [apply Qpercents_nonneg | lia]. }
    rewrite Hki, Hkj, Hci, Hcj. split; [apply Qle_bool_iff, Hmono|].
    apply kategori_of_monotone, Hmono.
Qed.

Lemma pareto_cumulative_percent_witness :
  let df :=
    map (fun label => {| ParetoAnalysis.Motor_ID := "M";
                         ParetoAnalysis.Hata_Nedeni := label |})
        ["Tork"; "-"; "Catlak"; "Tork"; "-"; "Yuzey"; "Tork"]%string in
  defect_rows df <> [] /\
  exists data s,
    ParetoAnalysis.analyze_defects df = ParetoAnalysis.Defects data s /\
    ParetoAnalysis.toplam_hata_sayisi s = length (defect_rows df).
Proof.
  intros df.
  assert (H : defect_rows df <> []) by discriminate.
  split; [exact H|].
  destruct (pareto_cumulative_percent df H) as (data & s & Ha & _ & Ht & _).
  exists data, s. split; [exact Ha | exact Ht].
Defined.

(** X12.  A cause that alone accounts for more than 80 percent of the
    defects is not "vital few": its own cumulative percent already exceeds
    the threshold, so [analyze_defects] then classifies no cause at all as
    "Hayati Azinlik (A)" and the summary's ['hayati_azinlik'] is empty. *)
Theorem dominant_cause_leaves_no_vital_few (df : list ParetoAnalysis.row) :
  defect_rows df <> [] ->
  exists data s,
    ParetoAnalysis.analyze_defects df = ParetoAnalysis.Defects data s /\
    (forall top,
        hd_error data = Some top ->
        ParetoAnalysis.Kumulatif_Yuzde top = ParetoAnalysis.Yuzde top /\
        ((ParetoAnalysis.Yuzde top <=? Fin 80) = false ->
         ParetoAnalysis.hayati_azinlik s = [] /\
         forall r, In r data ->
                   ParetoAnalysis.Kategori r <> ParetoAnalysis.HayatiAzinlik_A)).
Proof.
  intros Hne.
  destruct (analyze_defects_summary df Hne) as (s & Hs & _ & _ & Hvital & _).
  set (table := pareto_table (sorted_counts df)) in *.
  exists table, s. split; [exact Hs|].
  intros top Htop.
  assert (H0 : nth_error table 0 = Some top).
  { destruct table as [|r t]; [discriminate Htop | exact Htop]. }
  destruct (pareto_row_at df 0 top Hne H0) as (L0 & Hy0 & Hk0 & Hc0).
  set (ys := Qpercents (map snd (sorted_counts df))) in *.
  assert (Hfirst : nth 0 (Qcumsum ys) 0%Q = nth 0 ys 0%Q)
    by (destruct ys; reflexivity).
  split; [now rewrite Hk0, Hy0, Hfirst|].
  intros Habove.
  assert (Hnone : forall r, In r table ->
                            ParetoAnalysis.Kategori r
                            <> ParetoAnalysis.HayatiAzinlik_A).
  { intros r Hr HA. apply In_nth_error in Hr. destruct Hr as [j Hj].
    destruct (pareto_row_at df j r Hne Hj) as (Lj & _ & _ & Hcj).
    fold ys in Lj, Hcj.
    assert (Hmono : (nth 0 (Qcumsum ys) 0 <= nth j (Qcumsum ys) 0)%Q).
    { apply Qcumsum_monotone; [apply Qpercents_nonneg | lia]. }
    rewrite Hcj in HA.
    apply (proj1 (kategori_of_monotone _ _ Hmono)) in HA.
    rewrite Hfirst in HA.
    rewrite Hy0 in Habove.
    unfold ParetoAnalysis.kategori_of in HA. rewrite Habove in HA.
    destruct (Fin (nth 0 ys 0) <=? Fin 95); discriminate HA. }
  split; [|exact Hnone].
  rewrite Hvital.
  rewrite filter_all_false; [reflexivity|].
  intros r Hr. specialize (Hnone r Hr).
  unfold ParetoAnalysis.is_vital.
  destruct (ParetoAnalysis.Kategori r); [contradiction | reflexivity | reflexivity].
Qed.

Lemma dominant_cause_leaves_no_vital_few_witness :
  let df :=
    map (fun label => {| ParetoAnalysis.Motor_ID := "M";
                         ParetoAnalysis.Hata_Nedeni := label |})
        (repeat "Tork"%string 9 ++ ["Yuzey"%string]) in
  defect_rows df <> [] /\
  exists data s,
    ParetoAnalysis.analyze_defects df = ParetoAnalysis.Defects data s.
Proof.
  intros df.
  assert (H : defect_rows df <> []) by discriminate.
  split; [exact H|].
  destruct (dominant_cause_leaves_no_vital_few df H) as (data & s & Ha & _).
  exists data, s. exact Ha.
Defined.

(** ** Pareto: grouping and sorting *)

Section Grouping.
Import ParetoAnalysis.

(** Python's order on strings, as [groupby] sorts its keys. *)
Definition str_lt (a b : string) : Prop := String.compare a b = Lt.

Lemma str_lt_trans (a b c : string) : str_lt a b -> str_lt b c -> str_lt a c.
Proof.
  unfold str_lt. intros H1 H2.
  apply OrderedTypeEx.String_as_OT.cmp_lt in H1, H2.
  apply OrderedTypeEx.String_as_OT.cmp_lt.
  eapply OrderedTypeEx.String_as_OT.lt_trans; eassumption.
Qed.

Lemma str_lt_irrefl (a : string) : ~ str_lt a a.
Proof.
  unfold str_lt. intros H.
  assert (E : String.compare a a = Eq)
    by now apply OrderedTypeEx.String_as_OT.cmp_eq.
  congruence.
Qed.

Lemma str_gt_lt (a b : string) : String.compare a b = Gt -> str_lt b a.
Proof.
  unfold str_lt. intros H. rewrite String.compare_antisym, H. reflexivity.
Qed.

Definition keys_sorted (g : list (string * nat)) : Prop :=
  StronglySorted (fun a b => str_lt (fst a) (fst b)) g.

(** The count stored for a label, 0 when it has no entry. *)
Definition count_in (g : list (string * nat)) (label : string) : nat :=
  match sdict_find g label with
  | Some c => c
  | None => 0%nat
  end.

Lemma sdict_find_below (g : list (string * nat)) (label : string) :
  Forall (fun p => str_lt label (fst p)) g -> sdict_find g label = None.
Proof.
  induction 1 as [|[key c] rest Hk _ IH]; [reflexivity|].
  cbn [sdict_find]. simpl in Hk.
  destruct (String.eqb_spec key label) as [->|_]; [|exact IH].
  now apply str_lt_irrefl in Hk.
Qed.

Lemma count_label_keys (label : string) (g : list (string * nat))
      (p : string * nat) :
  In p (count_label label g) -> fst p = label \/ In (fst p) (map fst g).
Proof.
  induction g as [|[key c] rest IH]; cbn [count_label].
  - intros [<-|[]]. now left.
  - destruct (String.compare label key) eqn:E; cbn [In map fst].
    + intros [<-|H]; [right; now left | right; right; now apply in_map].
    + intros [<-|[<-|H]];
        [now left | right; now left | right; right; now apply in_map].
    + intros [<-|H]; [right; now left|].
      destruct (IH H) as [?|?]; [now left | right; now right].
Qed.

Lemma count_label_sorted (label : string) (g : list (string * nat)) :
  keys_sorted g -> keys_sorted (count_label label g).
Proof.
  unfold keys_sorted.
  induction 1 as [|[key c] rest Hs IH Hall]; cbn [count_label].
  - repeat constructor.
  - destruct (String.compare label key) eqn:E.
    + constructor; [exact Hs | exact Hall].
    + constructor; [now constructor|].
      constructor; [exact E|].
      eapply Forall_impl; [|exact Hall].
      intros q Hq. simpl in *. eapply str_lt_trans; [exact E | exact Hq].
    + constructor; [exact IH|].
      apply Forall_forall. intros q Hq.
      destruct (count_label_keys _ _ _ Hq) as [->|Hin].
      * simpl. now apply str_gt_lt.
      * rewrite Forall_forall in Hall. apply in_map_iff in Hin.
        destruct Hin as (q' & <- & Hq'). now apply Hall.
Qed.

Lemma count_in_count_label (label x : string) (g : list (string * nat)) :
  keys_sorted g ->
  count_in (count_label label g) x
  = (count_in g x + if string_dec label x then 1 else 0)%nat.
Proof.
  unfold keys_sorted, count_in.
  induction 1 as [|[key c] rest Hs IH Hall]; cbn [count_label].
  - cbn [sdict_find]. destruct (String.eqb_spec label x), (string_dec label x);
      try contradiction; reflexivity.
  - destruct (String.compare label key) eqn:E.
    + apply String.compare_eq_iff in E. subst key. cbn [sdict_find].
      destruct (String.eqb_spec label x), (string_dec label x);
        try contradiction; lia.
    + cbn [sdict_find].
      destruct (String.eqb_spec label x) as [->|Hne].
      * destruct (string_dec x x); [|contradiction].
        destruct (String.eqb_spec key x) as [->|_];
          [now apply str_lt_irrefl in E|].
        rewrite sdict_find_below; [reflexivity|].
        eapply Forall_impl; [|exact Hall].
        intros q Hq. simpl in *. eapply str_lt_trans; [exact E | exact Hq].
      * destruct (string_dec label x); [contradiction|]. lia.
    + cbn [sdict_find].
      destruct (String.eqb_spec key x) as [->|Hne].
      * destruct (string_dec label x) as [->|_]; [|lia].
        apply str_gt_lt in E. now apply str_lt_irrefl in E.
      * exact IH.
Qed.

Lemma count_label_positive (label : string) (g : list (string * nat)) :
  Forall (fun p => 0 < snd p)%nat g ->
  Forall (fun p => 0 < snd p)%nat (count_label label g).
Proof.
  induction 1 as [|[key c] rest Hc Hrest IH]; cbn [count_label].
  - repeat constructor.
  - destruct (String.compare label key); repeat constructor;
      simpl in *; try lia; assumption.
Qed.

(** What [groupby(...).size()] holds after the labels [seen]. *)
Definition groups_of (seen : list string) (g : list (string * nat)) : Prop :=
  keys_sorted g /\
  Forall (fun p => 0 < snd p)%nat g /\
  forall x, count_in g x = count_occ string_dec seen x.

Lemma groupby_from (labels seen : list string) (g : list (string * nat)) :
  groups_of seen g ->
  groups_of (seen ++ labels)
            (fold_left (fun g label => count_label label g) labels g).
Proof.
  revert seen g. induction labels as [|l labels IH]; intros seen g Hg.
  - now rewrite app_nil_r.
  - cbn [fold_left].
    replace (seen ++ l :: labels) with ((seen ++ [l]) ++ labels)
      by now rewrite <- app_assoc.
    apply IH. destruct Hg as (Hs & Hp & Hc).
    split; [now apply count_label_sorted|].
    split; [now apply count_label_positive|].
    intros x. rewrite count_in_count_label by exact Hs.
    rewrite Hc, count_occ_app. cbn [count_occ].
    destruct (string_dec l x); reflexivity.
Qed.

Lemma groupby_size_groups (labels : list string) :
  groups_of labels (groupby_size labels).
Proof.
  unfold groupby_size.
  apply (groupby_from labels [] []).
  split; [constructor|]. split; [constructor|]. reflexivity.
Qed.

Lemma sorted_entry_found (g : list (string * nat)) (key : string) (c : nat) :
  keys_sorted g -> (In (key, c) g <-> sdict_find g key = Some c).
Proof.
  unfold keys_sorted.
  induction 1 as [|[k0 c0] rest Hs IH Hall]; [simpl; split; [tauto | discriminate]|].
  cbn [In sdict_find].
  destruct (String.eqb_spec k0 key) as [->|Hne].
  - split.
    + intros [E|Hin]; [now injection E as -> |].
      rewrite Forall_forall in Hall. specialize (Hall _ Hin).
      now apply str_lt_irrefl in Hall.
    + intros E. injection E as ->. now left.
  - rewrite <- IH. split; [intros [E|H]; [congruence | exact H] | now right].
Qed.

Lemma sorted_keys_NoDup (g : list (string * nat)) :
  keys_sorted g -> NoDup (map fst g).
Proof.
  unfold keys_sorted.
  induction 1 as [|[k0 c0] rest Hs IH Hall]; [constructor|].
  cbn [map fst]. constructor; [|exact IH].
  intros Hin. apply in_map_iff in Hin. destruct Hin as ([k c] & E & Hin).
  simpl in E. subst k.
  rewrite Forall_forall in Hall. specialize (Hall _ Hin).
  now apply str_lt_irrefl in Hall.
Qed.

(** The descending insertion sort. *)
Lemma insert_desc_permutation (x : string * nat) (l : list (string * nat)) :
  Permutation (x :: l) (insert_desc x l).
Proof.
  induction l as [|y t IH]; [reflexivity|].
  cbn [insert_desc]. destruct (snd y <=? snd x)%nat; [reflexivity|].
  rewrite perm_swap. now constructor.
Qed.

Lemma sort_values_desc_permutation (l : list (string * nat)) :
  Permutation l (sort_values_desc l).
Proof.
  induction l as [|x t IH]; [reflexivity|].
  cbn [sort_values_desc fold_right]. fold (sort_values_desc t).
  rewrite <- insert_desc_permutation. now constructor.
Qed.

Definition counts_descending (l : list (string * nat)) : Prop :=
  StronglySorted (fun a b => snd b <= snd a)%nat l.

Lemma insert_desc_sorted (x : string * nat) (l : list (string * nat)) :
  counts_descending l -> counts_descending (insert_desc x l).
Proof.
  unfold counts_descending.
  induction 1 as [|y t Hs IH Hall]; [repeat constructor|].
  cbn [insert_desc]. destruct (Nat.leb_spec (snd y) (snd x)) as [Hle|Hgt].
  - constructor; [now constructor|].
    constructor; [exact Hle|].
    eapply Forall_impl; [|exact Hall]. intros q Hq. simpl in *. lia.
  - constructor; [exact IH|].
    apply Forall_forall. intros q Hq.
    apply (Permutation_in _ (Permutation_sym (insert_desc_permutation x t)))
      in Hq.
    destruct Hq as [<-|Hq]; [lia|].
    rewrite Forall_forall in Hall. now apply Hall.
Qed.

Lemma sort_values_desc_sorted (l : list (string * nat)) :
  counts_descending (sort_values_desc l).
Proof.
  induction l as [|x t IH]; [constructor|].
  cbn [sort_values_desc fold_right]. fold (sort_values_desc t).
  now apply insert_desc_sorted.
Qed.

Lemma strongly_sorted_nth {A : Type} (R : A -> A -> Prop) (l : list A) :
  StronglySorted R l ->
  forall i j a b,
    (i < j)%nat -> nth_error l i = Some a -> nth_error l j = Some b -> R a b.
Proof.
  induction 1 as [|x t Hs IH Hall]; intros i j a b Hij Hi Hj.
  - destruct i; discriminate Hi.
  - destruct j as [|j]; [lia|]. cbn [nth_error] in Hj.
    destruct i as [|i]; cbn [nth_error] in Hi.
    + injection Hi as <-. rewrite Forall_forall in Hall.
      apply Hall. eapply nth_error_In. exact Hj.
    + eapply IH; [|exact Hi | exact Hj]. lia.
Qed.
End Grouping.

(** X13.  The table of [analyze_defects] is the frequency table of the
    defect causes: it has exactly one row per cause that occurs among the
    defect rows ("-" excluded), the row's ['Adet'] is the number of
    occurrences of that cause, and the rows come in descending order of
    ['Adet'], so that the first row carries a maximal count. *)
Theorem pareto_table_is_frequency_table (df : list ParetoAnalysis.row) :
  defect_rows df <> [] ->
  let labels := map ParetoAnalysis.Hata_Nedeni (defect_rows df) in
  exists data s,
    ParetoAnalysis.analyze_defects df = ParetoAnalysis.Defects data s /\
    NoDup (map ParetoAnalysis.Hata_Turu data) /\
    (forall label c,
        (exists r, In r data /\ ParetoAnalysis.Hata_Turu r = label /\
                   ParetoAnalysis.Adet r = c)
        <-> (c = count_occ string_dec labels label /\ 0 < c)%nat) /\
    (forall r, In r data -> ParetoAnalysis.Hata_Turu r <> "-"%string) /\
    (forall i j ri rj,
        (i <= j)%nat ->
        nth_error data i = Some ri -> nth_error data j = Some rj ->
        (ParetoAnalysis.Adet rj <= ParetoAnalysis.Adet ri)%nat).
Proof.
  intros Hne labels.
  destruct (analyze_defects_summary df Hne) as (s & Hs & _).
  set (table := pareto_table (sorted_counts df)) in *.
  destruct (pareto_table_columns (sorted_counts df)) as (_ & _ & Hrows).
  cbv zeta in Hrows. fold table in Hrows.
  destruct (groupby_size_groups labels) as (Hsorted & Hpos & Hcount).
  pose proof (sort_values_desc_permutation (ParetoAnalysis.groupby_size labels))
    as Hperm.
  fold labels in Hperm. change (ParetoAnalysis.sort_values_desc
                                  (ParetoAnalysis.groupby_size labels))
    with (sorted_counts df) in Hperm.
  assert (Hrow : forall label c,
             (exists r, In r table /\ ParetoAnalysis.Hata_Turu r = label /\
                        ParetoAnalysis.Adet r = c)
             <-> In (label, c) (ParetoAnalysis.groupby_size labels)).
  { intros label c. split.
    - intros (r & Hr & <- & <-).
      apply (Permutation_in _ (Permutation_sym Hperm)).
      rewrite <- Hrows.
      apply (in_map (fun r => (ParetoAnalysis.Hata_Turu r, ParetoAnalysis.Adet r))).
      exact Hr.
    - intros Hin. apply (Permutation_in _ Hperm) in Hin.
      rewrite <- Hrows in Hin. apply in_map_iff in Hin.
      destruct Hin as (r & E & Hr). injection E as <- <-.
      exists r. repeat split. exact Hr. }
  assert (Hentry : forall label c,
             In (label, c) (ParetoAnalysis.groupby_size labels)
             <-> (c = count_occ string_dec labels label /\ 0 < c)%nat).
  { intros label c. rewrite (sorted_entry_found _ label c Hsorted).
    specialize (Hcount label). unfold count_in in Hcount. split.
    - intros E. rewrite E in Hcount. split; [exact Hcount|].
      apply (sorted_entry_found _ label c Hsorted) in E.
      rewrite Forall_forall in Hpos. apply (Hpos _ E).
    - intros [-> Hc].
      destruct (sdict_find (ParetoAnalysis.groupby_size labels) label);
        [now rewrite Hcount | lia]. }
  exists table, s. split; [exact Hs|]. split; [|split; [|split]].
  - replace (map ParetoAnalysis.Hata_Turu table)
      with (map fst (map (fun r => (ParetoAnalysis.Hata_Turu r,
                                    ParetoAnalysis.Adet r)) table))
      by (rewrite map_map; reflexivity).
    rewrite Hrows.
    apply (Permutation_NoDup (Permutation_map fst Hperm)).
    now apply sorted_keys_NoDup.
  - intros label c. rewrite Hrow. apply Hentry.
  - intros r Hr E.
    assert (Hin : exists r', In r' table /\
                             ParetoAnalysis.Hata_Turu r' = "-"%string /\
                             ParetoAnalysis.Adet r' = ParetoAnalysis.Adet r)
      by (exists r; repeat split; assumption).
    apply Hrow, Hentry in Hin. destruct Hin as [Hc Hp].
    assert (Hocc : In "-"%string labels)
      by (apply (count_occ_In string_dec); lia).
    unfold labels in Hocc. apply in_map_iff in Hocc.
    destruct Hocc as (r0 & E0 & H0). unfold defect_rows in H0.
    apply filter_In in H0. destruct H0 as [_ H0].
    rewrite E0 in H0. discriminate H0.
  - intros i j ri rj Hij Hi Hj.
    destruct (Nat.eq_dec i j) as [->|Hne'];
      [rewrite Hi in Hj; injection Hj as <-; lia|].
    assert (Hdesc : counts_descending
                      (map (fun r => (ParetoAnalysis.Hata_Turu r,
                                      ParetoAnalysis.Adet r)) table)).
    { rewrite Hrows. apply sort_values_desc_sorted. }
    apply (strongly_sorted_nth _ _ Hdesc i j
             (ParetoAnalysis.Hata_Turu ri, ParetoAnalysis.Adet ri)
             (ParetoAnalysis.Hata_Turu rj, ParetoAnalysis.Adet rj));
      [lia
      | exact (map_nth_error (fun r => (ParetoAnalysis.Hata_Turu r,
                                        ParetoAnalysis.Adet r)) i table Hi)
      | exact (map_nth_error (fun r => (ParetoAnalysis.Hata_Turu r,
                                        ParetoAnalysis.Adet r)) j table Hj)].
Qed.

Lemma pareto_table_is_frequency_table_witness :
  let df :=
    map (fun label => {| ParetoAnalysis.Motor_ID := "M";
                         ParetoAnalysis.Hata_Nedeni := label |})
        ["Tork"; "-"; "Catlak"; "Tork"; "-"; "Yuzey"; "Tork"]%string in
  defect_rows df <> [] /\
  exists data s,
    ParetoAnalysis.analyze_defects df = ParetoAnalysis.Defects data s /\
    NoDup (map ParetoAnalysis.Hata_Turu data).
Proof.
  intros df.
  assert (H : defect_rows df <> []) by discriminate.
  split; [exact H|].
  destruct (pareto_table_is_frequency_table df H) as (data & s & Ha & Hn & _).
  exists data, s. split; [exact Ha | exact Hn].
Defined.

(** ** Western Electric rules *)

Section WesternElectric.
Import ControlCharts.

(** An entry of a window rule comes from one window position. *)
Lemma in_window_rule {T : Type} (n w : nat) (cond : nat -> bool)
      (entry : nat -> window_violation T) (v : window_violation T) :
  In v (flat_map (fun i => if cond i then [entry i] else [])
                 (py_range 0 (n - w)))
  <-> exists i, (i + w < n + 0)%nat /\ cond i = true /\ v = entry i.
Proof.
  rewrite in_flat_map. unfold py_range. rewrite Nat.sub_0_r. split.
  - intros (i & Hi & Hv). apply in_seq in Hi.
    destruct (cond i) eqn:E; [|contradiction].
    destruct Hv as [<-|[]]. exists i. repeat split; [lia | exact E].
  - intros (i & Hi & E & ->). exists i. split; [apply in_seq; lia|].
    rewrite E. now left.
Qed.

Lemma nil_of_no_member {A : Type} (l : list A) :
  (forall x, In x l -> False) -> l = [].
Proof.
  destruct l as [|x l]; [reflexivity|].
  intros H. exfalso. apply (H x). now left.
Qed.
End WesternElectric.

(** X14.  Every violation reported by
    [ControlCharts.check_western_electric_rules] lies inside the series:
    a rule-1 index is a valid index, and a window of rules 2 to 6 spans
    exactly 3, 5, 8, 6 and 14 consecutive valid indices.  In particular a
    series shorter than a rule's window never violates that rule. *)
Theorem western_electric_windows_inside (df : ControlCharts.dataframe) :
  let r := ControlCharts.violations (ControlCharts.check_western_electric_rules df) in
  let n := length df in
  (forall v, In v (ControlCharts.v_rule1 r) -> (ControlCharts.r1_index v < n)%nat) /\
  (forall v, In v (ControlCharts.v_rule2 r) ->
             ControlCharts.end_index v = (ControlCharts.start_index v + 2)%nat /\
             (ControlCharts.end_index v < n)%nat) /\
  (forall v, In v (ControlCharts.v_rule3 r) ->
             ControlCharts.end_index v = (ControlCharts.start_index v + 4)%nat /\
             (ControlCharts.end_index v < n)%nat) /\
  (forall v, In v (ControlCharts.v_rule4 r) ->
             ControlCharts.end_index v = (ControlCharts.start_index v + 7)%nat /\
             (ControlCharts.end_index v < n)%nat) /\
  (forall v, In v (ControlCharts.v_rule5 r) ->
             ControlCharts.end_index v = (ControlCharts.start_index v + 5)%nat /\
             (ControlCharts.end_index v < n)%nat) /\
  (forall v, In v (ControlCharts.v_rule6 r) ->
             ControlCharts.end_index v = (ControlCharts.start_index v + 13)%nat /\
             (ControlCharts.end_index v < n)%nat) /\
  ((n < 3)%nat -> ControlCharts.v_rule2 r = []) /\
  ((n < 5)%nat -> ControlCharts.v_rule3 r = []) /\
  ((n < 8)%nat -> ControlCharts.v_rule4 r = []) /\
  ((n < 6)%nat -> ControlCharts.v_rule5 r = []) /\
  ((n < 14)%nat -> ControlCharts.v_rule6 r = []).
Proof.
  intros r n.
  assert (Ln : length (ControlCharts.column df) = n)
    by (unfold ControlCharts.column; apply length_map).
  assert (H1 : forall v, In v (ControlCharts.v_rule1 r) ->
                         (ControlCharts.r1_index v < n)%nat).
  { intros v Hv. subst r.
    cbn [ControlCharts.check_western_electric_rules ControlCharts.violations
         ControlCharts.v_rule1] in Hv.
    apply in_flat_map in Hv. destruct Hv as ([i [motor_id x]] & Hin & Hv).
    apply in_combine_l in Hin. apply in_seq in Hin. rewrite Ln in Hin.
    destruct (_ >? _); [|contradiction].
    destruct Hv as [<-|[]]. simpl. lia. }
  assert (H2 : forall v, In v (ControlCharts.v_rule2 r) ->
                         ControlCharts.end_index v
                         = (ControlCharts.start_index v + 2)%nat /\
                         (ControlCharts.end_index v < n)%nat).
  { intros v Hv. subst r.
    cbn [ControlCharts.check_western_electric_rules ControlCharts.violations
         ControlCharts.v_rule2] in Hv.
    rewrite Ln in Hv. apply in_window_rule in Hv.
    destruct Hv as (i & Hi & _ & ->). simpl. lia. }
  assert (H3 : forall v, In v (ControlCharts.v_rule3 r) ->
                         ControlCharts.end_index v
                         = (ControlCharts.start_index v + 4)%nat /\
                         (ControlCharts.end_index v < n)%nat).
  { intros v Hv. subst r.
    cbn [ControlCharts.check_western_electric_rules ControlCharts.violations
         ControlCharts.v_rule3] in Hv.
    rewrite Ln in Hv. apply in_window_rule in Hv.
    destruct Hv as (i & Hi & _ & ->). simpl. lia. }
  assert (H4 : forall v, In v (ControlCharts.v_rule4 r) ->
                         ControlCharts.end_index v
                         = (ControlCharts.start_index v + 7)%nat /\
                         (ControlCharts.end_index v < n)%nat).
  { intros v Hv. subst r.
    cbn [ControlCharts.check_western_electric_rules ControlCharts.violations
         ControlCharts.v_rule4] in Hv.
    rewrite Ln in Hv. apply in_window_rule in Hv.
    destruct Hv as (i & Hi & _ & ->). simpl. lia. }
  assert (H5 : forall v, In v (ControlCharts.v_rule5 r) ->
                         ControlCharts.end_index v
                         = (ControlCharts.start_index v + 5)%nat /\
                         (ControlCharts.end_index v < n)%nat).
  { intros v Hv. subst r.
    cbn [ControlCharts.check_western_electric_rules ControlCharts.violations
         ControlCharts.v_rule5] in Hv.
    rewrite Ln in Hv. apply in_window_rule in Hv.
    destruct Hv as (i & Hi & _ & ->). simpl. lia. }
  assert (H6 : forall v, In v (ControlCharts.v_rule6 r) ->
                         ControlCharts.end_index v
                         = (ControlCharts.start_index v + 13)%nat /\
                         (ControlCharts.end_index v < n)%nat).
  { intros v Hv. subst r.
    cbn [ControlCharts.check_western_electric_rules ControlCharts.violations
         ControlCharts.v_rule6] in Hv.
    rewrite Ln in Hv. apply in_window_rule in Hv.
    destruct Hv as (i & Hi & _ & ->). simpl. lia. }
  repeat (split; [assumption|]).
  repeat split; intros Hn; apply nil_of_no_member; intros v Hv.
  - destruct (H2 v Hv). lia.
  - destruct (H3 v Hv). lia.
  - destruct (H4 v Hv). lia.
  - destruct (H5 v Hv). lia.
  - destruct (H6 v Hv). lia.
Qed.

Lemma length_slice {A : Type} (a : list A) (i w : nat) :
  (i + w <= length a)%nat -> length (slice a i w) = w.
Proof.
  intros H. unfold slice. rewrite length_firstn, length_skipn. lia.
Qed.

Lemma forallb_head {A : Type} (f : A -> bool) (d : A) (l : list A) :
  l <> [] -> forallb f l = true -> f (nth 0 l d) = true.
Proof.
  destruct l as [|x l]; [contradiction|].
  simpl. intros _ H. now apply andb_true_iff in H.
Qed.

(** X15.  The label of a reported window describes the window.  A rule-2
    or rule-3 entry marked [Ust] has at least 2 of 3 (4 of 5) values above
    the upper zone line, one marked [Alt] has them below the lower one; a
    rule-4 entry marked [Ust] has all eight values above the mean, one
    marked [Alt] all eight below, although the code looks at the first
    value only; a rule-5 entry marked [Artan] is a strictly increasing
    window and one marked [Azalan] a strictly decreasing one. *)
Theorem western_electric_labels_describe_windows (df : ControlCharts.dataframe) :
  let data := ControlCharts.column df in
  let mean := np_mean data in
  let sigma := np_std_ddof1 data in
  let r := ControlCharts.violations (ControlCharts.check_western_electric_rules df) in
  (forall v, In v (ControlCharts.v_rule2 r) ->
     let w := slice data (ControlCharts.start_index v) 3 in
     (snd (ControlCharts.detail v) = ControlCharts.Ust ->
      (2 <= count_if (fun x => (x >? mean + of_Z 2 * sigma)%f64) w)%nat) /\
     (snd (ControlCharts.detail v) = ControlCharts.Alt ->
      (2 <= count_if (fun x => (x <? mean - of_Z 2 * sigma)%f64) w)%nat)) /\
  (forall v, In v (ControlCharts.v_rule3 r) ->
     let w := slice data (ControlCharts.start_index v) 5 in
     (ControlCharts.detail v = ControlCharts.Ust ->
      (4 <= count_if (fun x => (x >? mean + sigma)%f64) w)%nat) /\
     (ControlCharts.detail v = ControlCharts.Alt ->
      (4 <= count_if (fun x => (x <? mean - sigma)%f64) w)%nat)) /\
  (forall v, In v (ControlCharts.v_rule4 r) ->
     let w := slice data (ControlCharts.start_index v) 8 in
     length w = 8%nat /\
     (snd (ControlCharts.detail v) = ControlCharts.Ust ->
      forall x, In x w -> (x >? mean) = true) /\
     (snd (ControlCharts.detail v) = ControlCharts.Alt ->
      forall x, In x w -> (x <? mean) = true)) /\
  (forall v, In v (ControlCharts.v_rule5 r) ->
     let w := slice data (ControlCharts.start_index v) 6 in
     length w = 6%nat /\
     (ControlCharts.detail v = ControlCharts.Artan -> strictly_increasing w) /\
     (ControlCharts.detail v = ControlCharts.Azalan -> strictly_decreasing w)).
Proof.
  intros data mean sigma r.
  assert (Ln : length (ControlCharts.column df) = length data) by reflexivity.
  split; [|split; [|split]].
  - intros v Hv w. subst r.
    cbn [ControlCharts.check_western_electric_rules ControlCharts.violations
         ControlCharts.v_rule2] in Hv.
    apply in_window_rule in Hv. destruct Hv as (i & Hi & Hc & ->).
    subst w. cbn [ControlCharts.start_index ControlCharts.detail snd].
    fold data mean sigma in Hc |- *.
    destruct (Nat.leb 2 (count_if (fun x => x >? mean + of_Z 2 * sigma)
                                   (slice data i 3))) eqn:Ea.
    + split; [intros _; now apply Nat.leb_le | discriminate].
    + split; [discriminate | intros _]. simpl in Hc. now apply Nat.leb_le.
  - intros v Hv w. subst r.
    cbn [ControlCharts.check_western_electric_rules ControlCharts.violations
         ControlCharts.v_rule3] in Hv.
    apply in_window_rule in Hv. destruct Hv as (i & Hi & Hc & ->).
    subst w. cbn [ControlCharts.start_index ControlCharts.detail].
    fold data mean sigma in Hc |- *.
    destruct (Nat.leb 4 (count_if (fun x => x >? mean + sigma) (slice data i 5)))
      eqn:Ea.
    + split; [intros _; now apply Nat.leb_le | discriminate].
    + split; [discriminate | intros _]. simpl in Hc. now apply Nat.leb_le.
  - intros v Hv w. subst r.
    cbn [ControlCharts.check_western_electric_rules ControlCharts.violations
         ControlCharts.v_rule4] in Hv.
    apply in_window_rule in Hv. destruct Hv as (i & Hi & Hc & ->).
    subst w. cbn [ControlCharts.start_index ControlCharts.detail snd].
    fold data mean in Hc |- *.
    assert (Lw : length (slice data i 8) = 8%nat)
      by (apply length_slice; rewrite <- Ln; lia).
    assert (Hne : slice data i 8 <> [])
      by (intros E; rewrite E in Lw; discriminate).
    split; [exact Lw|].
    destruct (nth 0 (slice data i 8) NaN >? mean) eqn:E0.
    + split; [intros _ | discriminate].
      apply forallb_forall.
      destruct (forallb (fun x => x >? mean) (slice data i 8)) eqn:Eg;
        [reflexivity|].
      simpl in Hc.
      apply (forallb_head _ NaN _ Hne) in Hc.
      unfold fgt in E0. apply flt_asymmetric in E0. congruence.
    + split; [discriminate | intros _].
      apply forallb_forall.
      destruct (forallb (fun x => x >? mean) (slice data i 8)) eqn:Eg;
        [|exact Hc].
      apply (forallb_head _ NaN _ Hne) in Eg. congruence.
  - intros v Hv w. subst r.
    cbn [ControlCharts.check_western_electric_rules ControlCharts.violations
         ControlCharts.v_rule5] in Hv.
    apply in_window_rule in Hv. destruct Hv as (i & Hi & Hc & ->).
    subst w. cbn [ControlCharts.start_index ControlCharts.detail].
    fold data in Hc |- *.
    assert (Lw : length (slice data i 6) = 6%nat)
      by (apply length_slice; rewrite <- Ln; lia).
    split; [exact Lw|].
    assert (Ei : forallb (fun j => nth j (slice data i 6) NaN
                                   >? nth (j - 1) (slice data i 6) NaN)
                         (py_range 1 6)
                 = ControlCharts.all_increasing (slice data i 6))
      by (unfold ControlCharts.all_increasing; now rewrite Lw).
    assert (Ed : forallb (fun j => nth j (slice data i 6) NaN
                                   <? nth (j - 1) (slice data i 6) NaN)
                         (py_range 1 6)
                 = ControlCharts.all_decreasing (slice data i 6))
      by (unfold ControlCharts.all_decreasing; now rewrite Lw).
    rewrite Ei, Ed in Hc. rewrite Ei.
    destruct (ControlCharts.all_increasing (slice data i 6)) eqn:Einc.
    + split; [intros _; now apply all_increasing_spec | discriminate].
    + split; [discriminate | intros _].
      simpl in Hc. now apply all_decreasing_spec.
Qed.

(** *** The summary of the rule check *)

(** The number of entries a rule has, and the position of a rule in the
    [violations] dictionary. *)
Definition violation_count (v : ControlCharts.we_violations)
           (r : ControlCharts.rule_id) : nat :=
  match r with
  | ControlCharts.rule1 => length (ControlCharts.v_rule1 v)
  | ControlCharts.rule2 => length (ControlCharts.v_rule2 v)
  | ControlCharts.rule3 => length (ControlCharts.v_rule3 v)
  | ControlCharts.rule4 => length (ControlCharts.v_rule4 v)
  | ControlCharts.rule5 => length (ControlCharts.v_rule5 v)
  | ControlCharts.rule6 => length (ControlCharts.v_rule6 v)
  end.

Definition rule_number (r : ControlCharts.rule_id) : nat :=
  match r with
  | ControlCharts.rule1 => 1
  | ControlCharts.rule2 => 2
  | ControlCharts.rule3 => 3
  | ControlCharts.rule4 => 4
  | ControlCharts.rule5 => 5
  | ControlCharts.rule6 => 6
  end.

Definition summary_of (c : ControlCharts.rule_id -> nat) : ControlCharts.we_summary :=
  let sizes := map (fun r => (r, c r))
                   [ControlCharts.rule1; ControlCharts.rule2; ControlCharts.rule3;
                    ControlCharts.rule4; ControlCharts.rule5; ControlCharts.rule6] in
  let total := fold_left Nat.add (map snd sizes) 0%nat in
  {| ControlCharts.total_violations := total;
     ControlCharts.violated_rules :=
       map fst (filter (fun x => (0 <? snd x)%nat) sizes);
     ControlCharts.we_control_status :=
       if (total =? 0)%nat then ControlCharts.KontrolAltinda
       else ControlCharts.KontrolDisi;
     ControlCharts.most_common_violation :=
       if (0 <? total)%nat
       then Some (ControlCharts.first_max (ControlCharts.rule1, c ControlCharts.rule1)
                                          (tl sizes))
       else None |}.

Lemma we_summary_of_counts (df : ControlCharts.dataframe) :
  ControlCharts.we_sum (ControlCharts.check_western_electric_rules df)
  = summary_of (violation_count
                  (ControlCharts.violations
                     (ControlCharts.check_western_electric_rules df))).
Proof. reflexivity. Qed.

Ltac split_counts c :=
  unfold summary_of; cbn -[Nat.ltb Nat.eqb];
  generalize (c ControlCharts.rule1) (c ControlCharts.rule2)
             (c ControlCharts.rule3) (c ControlCharts.rule4)
             (c ControlCharts.rule5) (c ControlCharts.rule6);
  intros c1 c2 c3 c4 c5 c6;
  repeat match goal with
         | |- context [(?a <? ?b)%nat] => destruct (Nat.ltb_spec a b)
         | |- context [(?a =? ?b)%nat] => destruct (Nat.eqb_spec a b)
         end.

Lemma summary_of_total (c : ControlCharts.rule_id -> nat) :
  ControlCharts.total_violations (summary_of c)
  = (c ControlCharts.rule1 + c ControlCharts.rule2 + c ControlCharts.rule3
     + c ControlCharts.rule4 + c ControlCharts.rule5 + c ControlCharts.rule6)%nat.
Proof. reflexivity. Qed.

Lemma summary_of_status (c : ControlCharts.rule_id -> nat) :
  ControlCharts.we_control_status (summary_of c) = ControlCharts.KontrolAltinda
  <-> forall r, c r = 0%nat.
Proof.
  split.
  - intros H r. revert H. destruct r; split_counts c; intros; (lia || discriminate).
  - intros H.
    pose proof (H ControlCharts.rule1). pose proof (H ControlCharts.rule2).
    pose proof (H ControlCharts.rule3). pose proof (H ControlCharts.rule4).
    pose proof (H ControlCharts.rule5). pose proof (H ControlCharts.rule6).
    clear H. revert H0 H1 H2 H3 H4 H5.
    split_counts c; intros; (reflexivity || lia).
Qed.

Lemma summary_of_violated (c : ControlCharts.rule_id -> nat) (r : ControlCharts.rule_id) :
  In r (ControlCharts.violated_rules (summary_of c)) <-> (0 < c r)%nat.
Proof.
  unfold summary_of. cbn [ControlCharts.violated_rules].
  rewrite in_map_iff. split.
  - intros ([r' n] & E & Hin). simpl in E. subst r'.
    apply filter_In in Hin. destruct Hin as [Hin Hpos].
    apply in_map_iff in Hin. destruct Hin as (r' & E & _).
    inversion E; subst. now apply Nat.ltb_lt in Hpos.
  - intros Hpos. exists (r, c r). split; [reflexivity|].
    apply filter_In. split; [|now apply Nat.ltb_lt].
    apply in_map_iff. exists r. split; [reflexivity|].
    destruct r; simpl; tauto.
Qed.

Lemma summary_of_most_common (c : ControlCharts.rule_id -> nat) :
  (ControlCharts.most_common_violation (summary_of c) = None
   <-> ControlCharts.total_violations (summary_of c) = 0%nat) /\
  (forall r, ControlCharts.most_common_violation (summary_of c) = Some r ->
             (0 < c r)%nat /\
             forall r', (c r' <= c r)%nat /\
                        ((rule_number r' < rule_number r)%nat -> (c r' < c r)%nat)).
Proof.
  split.
  - rewrite summary_of_total. unfold summary_of.
    cbn [ControlCharts.most_common_violation].
    change (fold_left Nat.add _ 0%nat)
      with (c ControlCharts.rule1 + c ControlCharts.rule2 + c ControlCharts.rule3
            + c ControlCharts.rule4 + c ControlCharts.rule5
            + c ControlCharts.rule6)%nat.
    destruct (Nat.ltb_spec 0 (c ControlCharts.rule1 + c ControlCharts.rule2
                              + c ControlCharts.rule3 + c ControlCharts.rule4
                              + c ControlCharts.rule5 + c ControlCharts.rule6));
      split; intros; (discriminate || lia || reflexivity).
  - intros r Hr. split; [|intros r'; split; [|intros Hlt; revert Hlt]];
      revert Hr; [destruct r | destruct r, r' | destruct r, r'];
      split_counts c; cbn [rule_number]; intros;
      try discriminate; try lia;
      match goal with H : Some _ = Some _ |- _ => inversion H end.
Qed.

(** X16.  The summary of [ControlCharts.check_western_electric_rules]
    agrees with the violations it is returned with: the total is the sum
    of the six entry counts; the status is [KontrolAltinda] exactly when
    no rule has an entry; [violated_rules] lists exactly the rules with an
    entry; [most_common_violation] is [None] exactly when the total is
    zero, and otherwise names a rule with at least one entry that no rule
    exceeds, ties going to the rule that comes first. *)
Theorem western_electric_summary_agrees (df : ControlCharts.dataframe) :
  let res := ControlCharts.check_western_electric_rules df in
  let count := violation_count (ControlCharts.violations res) in
  let s := ControlCharts.we_sum res in
  ControlCharts.total_violations s
  = (count ControlCharts.rule1 + count ControlCharts.rule2
     + count ControlCharts.rule3 + count ControlCharts.rule4
     + count ControlCharts.rule5 + count ControlCharts.rule6)%nat /\
  (ControlCharts.we_control_status s = ControlCharts.KontrolAltinda
   <-> forall r, count r = 0%nat) /\
  (forall r, In r (ControlCharts.violated_rules s) <-> (0 < count r)%nat) /\
  (ControlCharts.most_common_violation s = None
   <-> ControlCharts.total_violations s = 0%nat) /\
  (forall r, ControlCharts.most_common_violation s = Some r ->
             (0 < count r)%nat /\
             forall r', (count r' <= count r)%nat /\
                        ((rule_number r' < rule_number r)%nat ->
                         (count r' < count r)%nat)).
Proof.
  intros res count s. subst s res.
  rewrite we_summary_of_counts. fold count.
  split; [apply summary_of_total|].
  split; [apply summary_of_status|].
  split; [apply summary_of_violated|].
  apply summary_of_most_common.
Qed.

(** *** A series without variation *)

Lemma slice_repeat {A : Type} (x : A) (n i w : nat) :
  slice (repeat x n) i w = repeat x (Nat.min w (n - i)).
Proof.
  unfold slice. revert i. induction n as [|n IH]; intros i.
  - rewrite skipn_nil, firstn_nil. now rewrite Nat.min_0_r.
  - destruct i as [|i]; [|apply IH].
    cbn [skipn]. rewrite Nat.sub_0_r. clear IH.
    revert w. induction (S n) as [|k IH]; intros w.
    + rewrite firstn_nil. now rewrite Nat.min_0_r.
    + destruct w as [|w]; [reflexivity|].
      cbn [repeat firstn Nat.min]. f_equal. apply IH.
Qed.

Lemma count_if_repeat_false {A : Type} (cond : A -> bool) (x : A) (m : nat) :
  cond x = false -> count_if cond (repeat x m) = 0%nat.
Proof.
  intros H. unfold count_if. rewrite filter_all_false; [reflexivity|].
  intros y Hy. apply repeat_spec in Hy. now subst y.
Qed.

Lemma nth_repeat_or_default {A : Type} (x d : A) (m j : nat) :
  nth j (repeat x m) d = x \/ nth j (repeat x m) d = d.
Proof.
  destruct (nth_in_or_default j (repeat x m) d) as [H|H]; [left | now right].
  now apply repeat_spec in H.
Qed.

Lemma flt_irreflexive (a : float64) : (a <? a) = false.
Proof.
  destruct a as [x| | |]; try reflexivity. simpl. apply Qltb_ge. lra.
Qed.

Lemma flt_repeat_window (c : Q) (m j k : nat) :
  (nth j (repeat (Fin c) m) NaN <? nth k (repeat (Fin c) m) NaN) = false.
Proof.
  destruct (nth_repeat_or_default (Fin c) NaN m j) as [-> | ->],
           (nth_repeat_or_default (Fin c) NaN m k) as [-> | ->];
    try reflexivity.
  apply flt_irreflexive.
Qed.

(** Mean and sigma of a series of equal values: undefined, or the value
    itself and zero. *)
Lemma flat_series_mean (c : Q) (n : nat) :
  np_mean (repeat (Fin c) n) = NaN \/
  exists m, np_mean (repeat (Fin c) n) = Fin m /\ (m == c)%Q.
Proof.
  destruct n as [|n]; [left; reflexivity | right].
  rewrite <- map_repeat. rewrite np_mean_finite by discriminate.
  eexists. split; [reflexivity|]. apply Qmean_repeat. lia.
Qed.

Lemma flat_series_sigma (c : Q) (n : nat) :
  np_std_ddof1 (repeat (Fin c) n) = NaN \/
  exists s, np_std_ddof1 (repeat (Fin c) n) = Fin s /\ (s == 0)%Q.
Proof.
  destruct n as [|[|n]]; [left; reflexivity | left | right].
  - unfold np_std_ddof1. change (repeat (Fin c) 1) with (map Fin [c]).
    rewrite np_mean_finite by discriminate.
    cbn [map length Nat.sub np_sum fold_left fsub fopp fadd fmul of_nat Z.of_nat].
    change (of_nat 0) with (Fin 0).
    rewrite fdiv_by_zero by reflexivity.
    unfold signed_inf.
    assert (E : (0 + (c + - Qmean [c]) * (c + - Qmean [c]) == 0)%Q).
    { rewrite (Qmean_repeat c 1) by lia. ring. }
    apply Qeq_alt in E. now rewrite E.
  - rewrite <- map_repeat. rewrite np_std_finite by (rewrite repeat_length; lia).
  eexists. split; [reflexivity|]. apply Qsqrt_zero. apply Qvar_repeat. lia.
Qed.

Lemma flat_series_conditions (c : Q) (mean sigma : float64) :
  (mean = NaN \/ exists m, mean = Fin m /\ (m == c)%Q) ->
  (sigma = NaN \/ exists s, sigma = Fin s /\ (s == 0)%Q) ->
  (fabs (Fin c - mean) >? of_Z 3 * sigma) = false /\
  (Fin c >? mean + of_Z 2 * sigma) = false /\
  (Fin c <? mean - of_Z 2 * sigma) = false /\
  (Fin c >? mean + sigma) = false /\
  (Fin c <? mean - sigma) = false /\
  (Fin c >? mean) = false /\
  (Fin c <? mean) = false.
Proof.
  intros [-> | (m & -> & Hm)] [-> | (s & -> & Hs)];
    try (repeat split; reflexivity);
    unfold fgt, of_Z; cbn [fsub fopp fadd fmul fabs flt];
    change (inject_Z 3) with 3%Q; change (inject_Z 2) with 2%Q;
    repeat split; try reflexivity; apply Qltb_ge; try lra.
  apply Qabs_Qle_condition. lra.
Qed.

Lemma column_of_equal_values (df : ControlCharts.dataframe) (c : Q) :
  (forall row, In row df -> snd row = Fin c) ->
  ControlCharts.column df = repeat (Fin c) (length df).
Proof.
  unfold ControlCharts.column.
  induction df as [|row df IH]; intros H; [reflexivity|].
  cbn [map length repeat]. rewrite (H row) by now left.
  f_equal. apply IH. intros r Hr. apply H. now right.
Qed.

(** X17.  A series whose values are all the same integer, within
    [float_exact_constant] so that its mean is that integer, violates none
    of the six rules, whatever its length (for fewer than two points sigma
    is [nan] and every comparison is false): all six lists are empty and
    the summary reports [KontrolAltinda], no violated rule and no most
    common violation. *)
Theorem western_electric_flat_series_is_in_control
        (df : ControlCharts.dataframe) (z : Z)
        (Hflat : forall row, In row df -> snd row = Fin (inject_Z z))
        (Hexact : float_exact_constant z (length df)) :
  let res := ControlCharts.check_western_electric_rules df in
  let v := ControlCharts.violations res in
  let s := ControlCharts.we_sum res in
  ControlCharts.v_rule1 v = [] /\ ControlCharts.v_rule2 v = [] /\
  ControlCharts.v_rule3 v = [] /\ ControlCharts.v_rule4 v = [] /\
  ControlCharts.v_rule5 v = [] /\ ControlCharts.v_rule6 v = [] /\
  ControlCharts.total_violations s = 0%nat /\
  ControlCharts.violated_rules s = [] /\
  ControlCharts.we_control_status s = ControlCharts.KontrolAltinda /\
  ControlCharts.most_common_violation s = None.
Proof.
  intros res v s. clear Hexact.
  set (c := inject_Z z) in *.
  pose proof (column_of_equal_values df c Hflat) as Hcol.
  set (n := length df) in Hcol.
  destruct (flat_series_conditions c _ _ (flat_series_mean c n)
                                   (flat_series_sigma c n))
    as (C1 & C2a & C2b & C3a & C3b & C4a & C4b).
  assert (Ln : length (ControlCharts.column df) = n)
    by (rewrite Hcol; apply repeat_length).
  assert (E1 : ControlCharts.v_rule1 v = []).
  { subst v res.
    cbn [ControlCharts.check_western_electric_rules ControlCharts.violations
         ControlCharts.v_rule1].
    apply flat_map_all_nil. intros [i [motor_id x]] Hin.
    apply in_combine_r in Hin. apply Hflat in Hin. simpl in Hin. subst x.
    rewrite Hcol, C1. reflexivity. }
  assert (E2 : ControlCharts.v_rule2 v = []).
  { subst v res.
    cbn [ControlCharts.check_western_electric_rules ControlCharts.violations
         ControlCharts.v_rule2].
    apply flat_map_all_nil. intros i _.
    rewrite Hcol, slice_repeat.
    rewrite !count_if_repeat_false by assumption. reflexivity. }
  assert (E3 : ControlCharts.v_rule3 v = []).
  { subst v res.
    cbn [ControlCharts.check_western_electric_rules ControlCharts.violations
         ControlCharts.v_rule3].
    apply flat_map_all_nil. intros i _.
    rewrite Hcol, slice_repeat.
    rewrite !count_if_repeat_false by assumption. reflexivity. }
  assert (E4 : ControlCharts.v_rule4 v = []).
  { subst v res.
    cbn [ControlCharts.check_western_electric_rules ControlCharts.violations
         ControlCharts.v_rule4].
    apply flat_map_all_nil. intros i Hi.
    unfold py_range in Hi. apply in_seq in Hi. rewrite Ln in Hi.
    rewrite Hcol, slice_repeat.
    replace (Nat.min 8 (n - i)) with 8%nat by lia.
    cbn [repeat forallb]. rewrite C4a, C4b. reflexivity. }
  assert (E5 : ControlCharts.v_rule5 v = []).
  { subst v res.
    cbn [ControlCharts.check_western_electric_rules ControlCharts.violations
         ControlCharts.v_rule5].
    apply flat_map_all_nil. intros i _.
    rewrite Hcol, slice_repeat.
    change (py_range 1 6) with [1; 2; 3; 4; 5]%nat.
    cbn [forallb]. unfold fgt. rewrite !flt_repeat_window. reflexivity. }
  assert (E6 : ControlCharts.v_rule6 v = []).
  { subst v res.
    cbn [ControlCharts.check_western_electric_rules ControlCharts.violations
         ControlCharts.v_rule6].
    apply flat_map_all_nil. intros i _.
    rewrite Hcol, slice_repeat. unfold ControlCharts.zigzag.
    change (py_range 2 14) with (2 :: py_range 3 14)%nat.
    cbn [forallb]. unfold fgt. rewrite !flt_repeat_window. reflexivity. }
  assert (Hc : forall r, violation_count v r = 0%nat)
    by (intros []; cbn [violation_count];
        rewrite ?E1, ?E2, ?E3, ?E4, ?E5, ?E6; reflexivity).
  repeat (split; [assumption|]).
  subst s. unfold res. rewrite we_summary_of_counts. fold res v.
  assert (Ht : ControlCharts.total_violations (summary_of (violation_count v))
               = 0%nat) by (rewrite summary_of_total, !Hc; reflexivity).
  split; [exact Ht|].
  split; [|split].
  - apply nil_of_no_member. intros r Hr.
    apply summary_of_violated in Hr. rewrite Hc in Hr. lia.
  - now apply summary_of_status.
  - now apply (proj1 (summary_of_most_common (violation_count v))).
Qed.

Lemma western_electric_flat_series_is_in_control_witness :
  (forall row, In row [("M1"%string, Fin (inject_Z 7));
                       ("M2"%string, Fin (inject_Z 7));
                       ("M3"%string, Fin (inject_Z 7))] ->
               snd row = Fin (inject_Z 7)) /\
  float_exact_constant 7 3 /\
  ControlCharts.we_control_status
    (ControlCharts.we_sum
       (ControlCharts.check_western_electric_rules
          [("M1"%string, Fin (inject_Z 7)); ("M2"%string, Fin (inject_Z 7));
           ("M3"%string, Fin (inject_Z 7))]))
  = ControlCharts.KontrolAltinda.
Proof.
  assert (H : forall row, In row [("M1"%string, Fin (inject_Z 7));
                                  ("M2"%string, Fin (inject_Z 7));
                                  ("M3"%string, Fin (inject_Z 7))] ->
                          snd row = Fin (inject_Z 7)).
  { intros row [<-|[<-|[<-|[]]]]; reflexivity. }
  assert (He : float_exact_constant 7 3) by (intros E; discriminate E).
  split; [exact H|]. split; [exact He|].
  exact (proj1 (proj2 (proj2 (proj2 (proj2 (proj2 (proj2 (proj2 (proj2
           (western_electric_flat_series_is_in_control _ 7 H He)))))))))).
Defined.

(** ** Western Electric rules on given limits *)

(** X18.  [StatisticalCalculator.check_western_electric_rules] reads
    [control_limits['sigma']], a key that only the limits of the ['xbar']
    chart carry: it raises [KeyError] exactly when the key is missing.  Fed
    with the limits [calculate_control_limits] returns, it returns for the
    ['xbar'] chart and raises [KeyError] for the ['mr'] and ['r'] charts,
    for every series. *)
Theorem western_electric_needs_xbar_limits
        (data series : list float64) (chart_type : string) (n : Z)
        (l : StatisticalCalculator.limits)
        (Hl : StatisticalCalculator.calculate_control_limits data chart_type n
              = Ok (Some l)) :
  (StatisticalCalculator.check_western_electric_rules series l = Raise KeyError
   <-> StatisticalCalculator.lim_sigma l = None) /\
  (chart_type = "xbar"%string ->
   exists v, StatisticalCalculator.check_western_electric_rules series l = Ok v) /\
  (chart_type <> "xbar"%string ->
   StatisticalCalculator.check_western_electric_rules series l = Raise KeyError).
Proof.
  assert (Hk : StatisticalCalculator.check_western_electric_rules series l
               = Raise KeyError
               <-> StatisticalCalculator.lim_sigma l = None).
  { unfold StatisticalCalculator.check_western_electric_rules,
           StatisticalCalculator.limits_sigma.
    destruct (StatisticalCalculator.lim_sigma l); cbn [bind];
      split; intros; (discriminate || reflexivity). }
  split; [exact Hk|].
  unfold StatisticalCalculator.calculate_control_limits in Hl.
  rewrite CONTROL_CONSTANTS_item_1 in Hl. cbn [bind] in Hl.
  destruct (String.eqb_spec chart_type "xbar") as [Ex|Ex].
  - split; [intros _ | contradiction].
    assert (Hs : StatisticalCalculator.lim_sigma l <> None).
    { destruct (n =? 1)%Z.
      - cbn [bind] in Hl. inversion Hl. discriminate.
      - destruct (StatisticalCalculator.subgroup_ranges data n);
          cbn [bind] in Hl; [|discriminate].
        inversion Hl. discriminate. }
    unfold StatisticalCalculator.check_western_electric_rules,
           StatisticalCalculator.limits_sigma.
    destruct (StatisticalCalculator.lim_sigma l); [|contradiction].
    cbn [bind]. eexists. reflexivity.
  - split; [contradiction | intros _]. apply Hk.
    destruct (String.eqb chart_type "mr").
    + inversion Hl. reflexivity.
    + destruct (String.eqb chart_type "r"); [|discriminate].
      destruct (StatisticalCalculator.subgroup_ranges data n);
        cbn [bind] in Hl; [|discriminate].
      inversion Hl. reflexivity.
Qed.

Lemma western_electric_needs_xbar_limits_witness :
  exists l,
    StatisticalCalculator.calculate_control_limits
      (map Fin [10; 12; 11; 13]%Q) "mr" 1 = Ok (Some l) /\
    StatisticalCalculator.check_western_electric_rules
      (map Fin [10; 12; 11; 13]%Q) l = Raise KeyError.
Proof.
  eexists. split; [reflexivity|].
  refine (proj2 (proj2 (western_electric_needs_xbar_limits
                          (map Fin [10; 12; 11; 13]%Q) _ "mr" 1 _ eq_refl)) _).
  discriminate.
Defined.

Lemma nth_slice {A : Type} (a : list A) (j w k : nat) (d : A) :
  (k < w)%nat -> nth k (slice a j w) d = nth (j + k) a d.
Proof.
  intros Hk. unfold slice.
  rewrite <- (nth_skipn j a k d).
  revert k w Hk. generalize (skipn j a) as b.
  induction b as [|x b IH]; intros k w Hk.
  - rewrite firstn_nil. reflexivity.
  - destruct w as [|w]; [lia|]. destruct k as [|k]; [reflexivity|].
    cbn [firstn nth]. apply IH. lia.
Qed.

Lemma in_window_indices (n w : nat) (cond : nat -> bool) (i : nat) :
  In i (flat_map (fun j => if cond j then py_range j (j + w) else [])
                 (py_range 0 (n - (w - 1))))
  <-> exists j, (j <= i < j + w)%nat /\ (j + w <= n)%nat /\ cond j = true.
Proof.
  rewrite in_flat_map. unfold py_range at 1. rewrite Nat.sub_0_r. split.
  - intros (j & Hj & Hi). apply in_seq in Hj.
    destruct (cond j) eqn:E; [|contradiction].
    unfold py_range in Hi. apply in_seq in Hi.
    exists j. repeat split; try lia. exact E.
  - intros (j & Hi & Hj & E). exists j. split; [apply in_seq; lia|].
    rewrite E. unfold py_range. apply in_seq. lia.
Qed.

(** X19.  What [StatisticalCalculator.check_western_electric_rules]
    returns: each of the four lists holds valid indices of the series,
    each index once; rule 1 holds exactly the points beyond [CL] plus or
    minus three sigma; rule 4 holds exactly the points covered by a window
    of eight values on one side of [CL], so none of its points lies on the
    centre line. *)
Theorem western_electric_indices
        (data : list float64) (l : StatisticalCalculator.limits)
        (sigma : float64) (v : StatisticalCalculator.we_violations)
        (Hs : StatisticalCalculator.lim_sigma l = Some sigma)
        (Hv : StatisticalCalculator.check_western_electric_rules data l = Ok v) :
  let n := length data in
  let cl := StatisticalCalculator.lim_CL l in
  (NoDup (StatisticalCalculator.we_rule1 v) /\
   NoDup (StatisticalCalculator.we_rule2 v) /\
   NoDup (StatisticalCalculator.we_rule3 v) /\
   NoDup (StatisticalCalculator.we_rule4 v)) /\
  (forall i, In i (StatisticalCalculator.we_rule1 v) \/
             In i (StatisticalCalculator.we_rule2 v) \/
             In i (StatisticalCalculator.we_rule3 v) \/
             In i (StatisticalCalculator.we_rule4 v) -> (i < n)%nat) /\
  (forall i, In i (StatisticalCalculator.we_rule1 v) <->
             (i < n)%nat /\
             ((nth i data NaN >? cl + of_Z 3 * sigma) = true \/
              (nth i data NaN <? cl - of_Z 3 * sigma) = true)) /\
  (forall i, In i (StatisticalCalculator.we_rule4 v) <->
             exists j, (j <= i < j + 8)%nat /\ (j + 8 <= n)%nat /\
                       ((forall k, (k < 8)%nat -> (nth (j + k) data NaN >? cl) = true) \/
                        (forall k, (k < 8)%nat -> (nth (j + k) data NaN <? cl) = true))) /\
  (forall i, In i (StatisticalCalculator.we_rule4 v) ->
             (nth i data NaN >? cl) = true \/ (nth i data NaN <? cl) = true).
Proof.
  intros n cl.
  unfold StatisticalCalculator.check_western_electric_rules,
         StatisticalCalculator.limits_sigma in Hv.
  rewrite Hs in Hv. cbn [bind] in Hv. fold n cl in Hv.
  inversion Hv as [Ev]. clear Hv Ev.
  cbn [StatisticalCalculator.we_rule1 StatisticalCalculator.we_rule2
       StatisticalCalculator.we_rule3 StatisticalCalculator.we_rule4].
  unfold list_set.
  assert (H1 : forall i,
             In i (nodup Nat.eq_dec
                     (filter (fun i => (nth i data NaN >? cl + of_Z 3 * sigma)
                                       || (nth i data NaN <? cl - of_Z 3 * sigma))
                             (py_range 0 n)))
             <-> (i < n)%nat /\
                 ((nth i data NaN >? cl + of_Z 3 * sigma) = true \/
                  (nth i data NaN <? cl - of_Z 3 * sigma) = true)).
  { intros i. rewrite nodup_In, filter_In, orb_true_iff.
    unfold py_range. rewrite in_seq. intuition lia. }
  assert (Hall : forall (f : float64 -> bool) j,
             (j + 8 <= n)%nat ->
             forallb f (slice data j 8) = true
             <-> forall k, (k < 8)%nat -> f (nth (j + k) data NaN) = true).
  { intros f j Hj. rewrite forallb_forall. split.
    - intros H k Hk. rewrite <- (nth_slice data j 8 k NaN Hk).
      apply H. apply nth_In. rewrite length_slice by exact Hj. exact Hk.
    - intros H x Hx. apply (In_nth _ _ NaN) in Hx.
      destruct Hx as (k & Hk & <-). rewrite length_slice in Hk by exact Hj.
      rewrite nth_slice by exact Hk. now apply H. }
  assert (H4 : forall i,
             In i (nodup Nat.eq_dec
                     (flat_map
                        (fun i =>
                           if forallb (fun s => s >? cl) (slice data i 8)
                              || forallb (fun s => s <? cl) (slice data i 8)
                           then py_range i (i + 8) else [])
                        (py_range 0 (n - 7))))
             <-> exists j, (j <= i < j + 8)%nat /\ (j + 8 <= n)%nat /\
                           ((forall k, (k < 8)%nat ->
                                       (nth (j + k) data NaN >? cl) = true) \/
                            (forall k, (k < 8)%nat ->
                                       (nth (j + k) data NaN <? cl) = true))).
  { intros i. rewrite nodup_In.
    rewrite (in_window_indices n 8
               (fun i => forallb (fun s => s >? cl) (slice data i 8)
                         || forallb (fun s => s <? cl) (slice data i 8)) i).
    split; intros (j & Hi & Hj & Hc); exists j;
      (split; [exact Hi|]); (split; [exact Hj|]).
    - apply orb_true_iff in Hc. destruct Hc as [Hc|Hc]; [left | right].
      + now apply (Hall (fun s => s >? cl) j Hj).
      + now apply (Hall (fun s => s <? cl) j Hj).
    - apply orb_true_iff. destruct Hc as [Hc|Hc]; [left | right].
      + now apply (Hall (fun s => s >? cl) j Hj).
      + now apply (Hall (fun s => s <? cl) j Hj). }
  split; [repeat split; apply NoDup_nodup|].
  split; [|split; [exact H1|split; [exact H4|]]].
  - intros i [Hi|[Hi|[Hi|Hi]]].
    + now apply H1 in Hi.
    + rewrite nodup_In in Hi.
      apply (in_window_indices n 3) in Hi. destruct Hi as (j & ? & ? & _). lia.
    + rewrite nodup_In in Hi.
      apply (in_window_indices n 5) in Hi. destruct Hi as (j & ? & ? & _). lia.
    + apply H4 in Hi. destruct Hi as (j & ? & ? & _). lia.
  - intros i Hi. apply H4 in Hi. destruct Hi as (j & Hi & Hj & [Hc|Hc]);
      [left | right]; replace i with (j + (i - j))%nat by lia; apply Hc; lia.
Qed.

Lemma western_electric_indices_witness :
  exists v,
    StatisticalCalculator.check_western_electric_rules
      (map Fin [10; 10; 10; 10; 30]%Q)
      {| StatisticalCalculator.lim_UCL := Fin 17;
         StatisticalCalculator.lim_CL := Fin 14;
         StatisticalCalculator.lim_LCL := Fin 11;
         StatisticalCalculator.lim_sigma := Some (Fin 1) |} = Ok v /\
    (In 4%nat (StatisticalCalculator.we_rule1 v) <->
     (4 < 5)%nat /\
     ((Fin 30 >? Fin 14 + of_Z 3 * Fin 1) = true \/
      (Fin 30 <? Fin 14 - of_Z 3 * Fin 1) = true)).
Proof.
  eexists. split; [reflexivity|].
  exact (proj1 (proj2 (proj2 (western_electric_indices
                                (map Fin [10; 10; 10; 10; 30]%Q)
                                {| StatisticalCalculator.lim_UCL := Fin 17;
                                   StatisticalCalculator.lim_CL := Fin 14;
                                   StatisticalCalculator.lim_LCL := Fin 11;
                                   StatisticalCalculator.lim_sigma := Some (Fin 1) |}
                                (Fin 1) _ eq_refl eq_refl))) 4%nat).
Defined.

(** ** The overall report *)

Lemma all_altinda_no_disi (statuses : list ControlCharts.control_status) :
  forallb ControlCharts.is_altinda statuses = true
  <-> count_if ControlCharts.is_disi statuses = 0%nat.
Proof.
  unfold count_if. induction statuses as [|s statuses IH]; [now split|].
  destruct s; cbn [forallb filter ControlCharts.is_altinda ControlCharts.is_disi
                   andb length].
  - exact IH.
  - split; discriminate.
Qed.

(** X20.  [_determine_overall_status] depends on the number of
    "Kontrol Disi" statuses only: none gives "Surec Kontrol Altinda", one
    gives "Surec Izlenmeli", two or more give "Surec Kontrol Disi". *)
Theorem overall_status_counts_alarms
        (statuses : list ControlCharts.control_status) :
  let k := count_if ControlCharts.is_disi statuses in
  (ControlCharts._determine_overall_status statuses
   = ControlCharts.SurecKontrolAltinda <-> k = 0%nat) /\
  (ControlCharts._determine_overall_status statuses
   = ControlCharts.SurecIzlenmeli <-> k = 1%nat) /\
  (ControlCharts._determine_overall_status statuses
   = ControlCharts.SurecKontrolDisi <-> (2 <= k)%nat).
Proof.
  intros k. unfold ControlCharts._determine_overall_status. fold k.
  pose proof (all_altinda_no_disi statuses) as Ha. fold k in Ha.
  destruct (forallb ControlCharts.is_altinda statuses).
  - assert (k = 0%nat) by now apply Ha.
    repeat split; intros; try discriminate; try lia.
  - assert (k <> 0%nat) by (intros E; apply Ha in E; discriminate).
    destruct (Nat.leb_spec 2 k);
      repeat split; intros; try discriminate; try lia.
Qed.

Lemma status_of_count (m : nat) :
  (if (m =? 0)%nat then ControlCharts.KontrolAltinda else ControlCharts.KontrolDisi)
  = ControlCharts.KontrolAltinda <-> m = 0%nat.
Proof.
  destruct (Nat.eqb_spec m 0); split; intros; (discriminate || lia || reflexivity).
Qed.

Lemma create_imr_chart_status (df : ControlCharts.dataframe) :
  exists x mr s,
    ControlCharts.create_xbar_r_chart df 1 = Ok (ControlCharts.IMR x mr s) /\
    (ControlCharts.imr_control_status s = ControlCharts.KontrolAltinda
     <-> length (ControlCharts.x_out_of_control x) = 0%nat).
Proof.
  unfold ControlCharts.create_xbar_r_chart.
  rewrite CONTROL_CONSTANTS_item_1. cbn [bind Z.eqb Pos.eqb].
  do 3 eexists. split; [reflexivity|].
  cbn [ControlCharts.imr_control_status ControlCharts.x_out_of_control].
  apply status_of_count.
Qed.

Lemma create_ewma_chart_status
      (df : ControlCharts.dataframe) (lambda_val L : Q) :
  df <> [] -> ~ (lambda_val == 2)%Q ->
  exists r,
    ControlCharts.create_ewma_chart df lambda_val L = Ok r /\
    (ControlCharts.ewma_control_status r = ControlCharts.KontrolAltinda
     <-> length (ControlCharts.ewma_out_of_control r) = 0%nat).
Proof.
  intros Hne Hl.
  assert (Hd : ControlCharts.column df <> []).
  { unfold ControlCharts.column. destruct df; [contradiction | discriminate]. }
  destruct (ewma_loop_sequence (ControlCharts.column df) lambda_val Hd)
    as (z & Hrun & Hseq).
  unfold ControlCharts.create_ewma_chart.
  destruct (setitem (np_zeros (length (ControlCharts.column df))) 0
                    (np_mean (ControlCharts.column df))) as [z0|e] eqn:E0;
    cbn [bind] in Hrun |- *; [|discriminate Hrun].
  rewrite Hrun. cbn [bind].
  erewrite map_each_total.
  2:{ intros i _. rewrite ewma_var_factor_defined by exact Hl.
      cbn [bind]. reflexivity. }
  cbn [bind]. eexists. split; [reflexivity|].
  cbn [ControlCharts.ewma_control_status ControlCharts.ewma_out_of_control].
  apply status_of_count.
Qed.

Lemma create_cusum_chart_status (df : ControlCharts.dataframe) (k h : Q) :
  exists r,
    ControlCharts.create_cusum_chart df k h = Ok r /\
    (ControlCharts.cusum_control_status r = ControlCharts.KontrolAltinda
     <-> length (ControlCharts.alarms r) = 0%nat).
Proof.
  set (d := ControlCharts.column df).
  destruct (cusum_loop_sums (standardize d) k) as (cp & cm & Hrun & _).
  rewrite length_standardize in Hrun.
  unfold ControlCharts.create_cusum_chart.
  fold d. fold (standardize d). rewrite Hrun. cbn [bind].
  eexists. split; [reflexivity|].
  cbn [ControlCharts.cusum_control_status ControlCharts.alarms].
  apply status_of_count.
Qed.

Lemma we_status_total (df : ControlCharts.dataframe) :
  ControlCharts.we_control_status
    (ControlCharts.we_sum (ControlCharts.check_western_electric_rules df))
  = ControlCharts.KontrolAltinda
  <-> ControlCharts.total_violations
        (ControlCharts.we_sum (ControlCharts.check_western_electric_rules df))
      = 0%nat.
Proof.
  cbn [ControlCharts.check_western_electric_rules ControlCharts.we_sum
       ControlCharts.we_control_status ControlCharts.total_violations].
  apply status_of_count.
Qed.

(** X21.  [generate_control_chart_report] on an empty dataframe raises
    [IndexError] (the X-bar/MR chart returns, the EWMA chart stops at
    [z[0] = mu0]); on any other dataframe it returns a report in which
    each of the four statuses is "Kontrol Altinda" exactly when the count
    reported beside it is zero, and the overall status is
    "Surec Kontrol Altinda" exactly when all four counts are zero. *)
Theorem control_chart_report_outcome (df : list ControlCharts.motor_row) :
  (df = [] -> ControlCharts.generate_control_chart_report df = Raise IndexError) /\
  (df <> [] ->
   exists r,
     ControlCharts.generate_control_chart_report df = Ok r /\
     (ControlCharts.rep_xbar_status r = ControlCharts.KontrolAltinda
      <-> ControlCharts.rep_xbar_out_of_control_count r = 0%nat) /\
     (ControlCharts.rep_ewma_status r = ControlCharts.KontrolAltinda
      <-> ControlCharts.rep_ewma_out_of_control_count r = 0%nat) /\
     (ControlCharts.rep_cusum_status r = ControlCharts.KontrolAltinda
      <-> ControlCharts.rep_cusum_alarms r = 0%nat) /\
     (ControlCharts.rep_we_status r = ControlCharts.KontrolAltinda
      <-> ControlCharts.rep_we_total_violations r = 0%nat) /\
     (ControlCharts.rep_overall_status r = ControlCharts.SurecKontrolAltinda
      <-> ControlCharts.rep_xbar_out_of_control_count r = 0%nat /\
          ControlCharts.rep_ewma_out_of_control_count r = 0%nat /\
          ControlCharts.rep_cusum_alarms r = 0%nat /\
          ControlCharts.rep_we_total_violations r = 0%nat)).
Proof.
  split.
  - intros ->. reflexivity.
  - intros Hne.
    unfold ControlCharts.generate_control_chart_report.
    destruct (create_imr_chart_status
                (ControlCharts.variable_of ControlCharts.Toplam_Uretim_Suresi df))
      as (x & mr & s & -> & Hx).
    destruct (create_ewma_chart_status
                (ControlCharts.variable_of ControlCharts.Verimlilik df) 0.2 3)
      as (e & -> & He).
    { unfold ControlCharts.variable_of.
      destruct df; [contradiction | discriminate]. }
    { intros E. discriminate E. }
    destruct (create_cusum_chart_status
                (ControlCharts.variable_of ControlCharts.Toplam_Uretim_Suresi df)
                0.5 5) as (c & -> & Hc).
    pose proof (we_status_total
                  (ControlCharts.variable_of ControlCharts.Aktif_Calisma_Saat df))
      as Hw.
    cbn [bind]. eexists. split; [reflexivity|].
    cbn [ControlCharts.rep_xbar_status ControlCharts.rep_xbar_out_of_control_count
         ControlCharts.rep_ewma_status ControlCharts.rep_ewma_out_of_control_count
         ControlCharts.rep_cusum_status ControlCharts.rep_cusum_alarms
         ControlCharts.rep_we_status ControlCharts.rep_we_total_violations
         ControlCharts.rep_overall_status].
    split; [exact Hx|]. split; [exact He|]. split; [exact Hc|].
    split; [exact Hw|].
    rewrite <- Hx, <- He, <- Hc, <- Hw.
    unfold ControlCharts._determine_overall_status.
    destruct (ControlCharts.imr_control_status s),
             (ControlCharts.ewma_control_status e),
             (ControlCharts.cusum_control_status c),
             (ControlCharts.we_control_status _);
      cbv; split; intros; try discriminate; try reflexivity; try tauto;
      repeat match goal with H : _ /\ _ |- _ => destruct H end; discriminate.
Qed.

(** ** OEE components *)

(** A frame whose two time columns hold finite numbers. *)
Definition oee_rows (rows : list (Q * Q * string))
  : list StatisticalCalculator.oee_row :=
  map (fun '(t, d, h) =>
         {| StatisticalCalculator.Toplam_Uretim_Suresi := Fin t;
            StatisticalCalculator.Durma_Suresi_Saat := Fin d;
            StatisticalCalculator.Hata_Nedeni := h |}) rows.

Lemma pd_sum_finite (qs : list Q) : pd_sum (map Fin qs) = Fin (Qsum qs).
Proof.
  unfold pd_sum. rewrite <- np_sum_finite. f_equal.
  induction qs as [|q qs IH]; [reflexivity|].
  cbn [map filter is_nan negb]. now rewrite IH.
Qed.

Lemma Qsum_cons (x : Q) (l : list Q) : (Qsum (x :: l) == x + Qsum l)%Q.
Proof.
  unfold Qsum. cbn [fold_left]. rewrite fold_Qplus_acc. ring.
Qed.

Lemma time_sums (rows : list (Q * Q * string)) :
  (forall t d h, In (t, d, h) rows -> 0 < t /\ 0 <= d <= t)%Q ->
  (0 <= Qsum (map (fun r => snd (fst r)) rows)
        <= Qsum (map (fun r => fst (fst r)) rows))%Q /\
  (rows <> [] -> 0 < Qsum (map (fun r => fst (fst r)) rows))%Q.
Proof.
  induction rows as [|[[t d] h] rows IH]; intros H.
  - split; [unfold Qsum; simpl; lra | contradiction].
  - destruct IH as [IH _]; [intros t' d' h' Hin; apply (H t' d' h'); now right|].
    destruct (H t d h) as [Ht Hd]; [now left|].
    cbn [map fst snd]. rewrite !Qsum_cons. split; [lra | intros _; lra].
Qed.

Lemma ratio_percent_bounds (x y : Q) :
  (0 <= x <= y)%Q -> (0 < y)%Q -> (0 <= x / y * inject_Z 100 <= 100)%Q.
Proof.
  intros [Hx Hxy] Hy.
  assert (H0 : (0 <= x / y)%Q) by (apply Qle_shift_div_l; lra).
  assert (H1 : (x / y <= 1)%Q) by (apply Qle_shift_div_r; lra).
  change (inject_Z 100) with 100%Q. lra.
Qed.

Lemma oee_product_bounds (a q : Q) :
  (0 <= a <= 100)%Q -> (0 <= q <= 100)%Q ->
  (0 <= a * 100 * q / inject_Z 10000)%Q /\
  (a * 100 * q / inject_Z 10000 <= a)%Q /\
  (a * 100 * q / inject_Z 10000 <= q)%Q.
Proof.
  intros [Ha0 Ha1] [Hq0 Hq1].
  assert (E : (a * 100 * q / inject_Z 10000 == a * q * (1 # 100))%Q)
    by (change (inject_Z 10000) with 10000%Q; field).
  rewrite E.
  assert (H0 : (0 <= a * q)%Q) by (apply Qmult_le_0_compat; assumption).
  assert (H1 : (a * q <= a * 100)%Q).
  { rewrite (Qmult_comm a q), (Qmult_comm a 100).
    apply Qmult_le_compat_r; assumption. }
  assert (H2 : (a * q <= 100 * q)%Q) by (apply Qmult_le_compat_r; assumption).
  repeat split; lra.
Qed.

(** X22.  [calculate_oee_components] raises [ZeroDivisionError] exactly on
    an empty frame (the quality ratio divides by [len(data_df)]; the
    availability division is numpy's and raises nothing).  Performance is
    the constant 100.  When every row has a positive production time and a
    downtime between zero and that time, availability, quality and OEE
    are each a number between 0 and 100. *)
Theorem oee_components_bounds
        (df : list StatisticalCalculator.oee_row) (rows : list (Q * Q * string)) :
  (StatisticalCalculator.calculate_oee_components df = Raise ZeroDivisionError
   <-> df = []) /\
  (df <> [] ->
   exists r, StatisticalCalculator.calculate_oee_components df = Ok r /\
             StatisticalCalculator.performance r =~ Fin 100) /\
  (rows <> [] ->
   (forall t d h, In (t, d, h) rows -> 0 < t /\ 0 <= d <= t)%Q ->
   exists a p q o,
     StatisticalCalculator.calculate_oee_components (oee_rows rows)
     = Ok {| StatisticalCalculator.availability := Fin a;
             StatisticalCalculator.performance := Fin p;
             StatisticalCalculator.quality := Fin q;
             StatisticalCalculator.oee := Fin o |} /\
     (0 <= a <= 100)%Q /\ (0 <= q <= 100)%Q /\ (0 <= o <= 100)%Q).
Proof.
  assert (Hdiv : forall (g n : nat), (0 < n)%nat ->
             py_div (inject_Z (Z.of_nat g)) (inject_Z (Z.of_nat n))
             = Ok (inject_Z (Z.of_nat g) / inject_Z (Z.of_nat n))%Q).
  { intros g n Hn. unfold py_div. now rewrite inject_nat_nonzero. }
  split; [|split].
  - unfold StatisticalCalculator.calculate_oee_components.
    destruct df as [|row df]; [split; reflexivity|].
    rewrite Hdiv by (simpl; lia). cbn [bind].
    split; intros; discriminate.
  - intros Hne. unfold StatisticalCalculator.calculate_oee_components.
    rewrite Hdiv by (destruct df; [contradiction | simpl; lia]).
    cbn [bind]. eexists. split; [reflexivity|].
    cbn [StatisticalCalculator.performance round feqv]. reflexivity.
  - intros Hne Hrows.
    destruct (time_sums rows Hrows) as [HD HT]. specialize (HT Hne).
    set (T := Qsum (map (fun r => fst (fst r)) rows)) in *.
    set (D := Qsum (map (fun r => snd (fst r)) rows)) in *.
    unfold StatisticalCalculator.calculate_oee_components.
    assert (Et : map StatisticalCalculator.Toplam_Uretim_Suresi (oee_rows rows)
                 = map Fin (map (fun r => fst (fst r)) rows)).
    { unfold oee_rows. rewrite !map_map. apply map_ext. now intros [[t d] h]. }
    assert (Ed : map StatisticalCalculator.Durma_Suresi_Saat (oee_rows rows)
                 = map Fin (map (fun r => snd (fst r)) rows)).
    { unfold oee_rows. rewrite !map_map. apply map_ext. now intros [[t d] h]. }
    rewrite Et, Ed, !pd_sum_finite. fold T D.
    assert (Ln : (0 < length (oee_rows rows))%nat).
    { unfold oee_rows. rewrite length_map.
      destruct rows; [contradiction | simpl; lia]. }
    rewrite Hdiv by exact Ln. cbn [bind].
    set (n := length (oee_rows rows)) in *.
    set (g := length (filter (fun r => String.eqb (StatisticalCalculator.Hata_Nedeni r) "-")
                             (oee_rows rows))).
    assert (Hg : (g <= n)%nat) by apply filter_length_le.
    assert (HT0 : Qeq_bool T 0 = false) by (apply Qeq_bool_false; lra).
    unfold of_Z. cbn [fsub fopp fadd fdiv fmul]. rewrite HT0.
    cbn [fmul fdiv round].
    change (Qeq_bool (inject_Z 10000) 0) with false. cbv iota.
    cbn [round].
    assert (Ha : (0 <= (T + - D) / T * inject_Z 100 <= 100)%Q)
      by (apply ratio_percent_bounds; lra).
    assert (Hq : (0 <= inject_Z (Z.of_nat g) / inject_Z (Z.of_nat n) * 100 <= 100)%Q).
    { apply (ratio_percent_bounds (inject_Z (Z.of_nat g)) (inject_Z (Z.of_nat n))).
      - split; [change 0%Q with (inject_Z 0) | ]; rewrite <- Zle_Qle; lia.
      - now apply inject_nat_pos. }
    destruct (oee_product_bounds _ _ Ha Hq) as (Ho0 & Hoa & Hoq).
    do 4 eexists. split; [reflexivity|].
    assert (R0 : forall x, (0 <= x)%Q -> (0 <= Qround_nd x 2)%Q)
      by (intros x Hx; now apply Qround_nd_nonneg).
    assert (R100 : forall x, (x <= 100)%Q -> (Qround_nd x 2 <= 100)%Q).
    { intros x Hx. apply Qle_trans with (Qround_nd 100 2).
      - now apply Qround_nd_monotone.
      - apply Qle_bool_imp_le. reflexivity. }
    repeat split.
    + apply R0, Ha.
    + apply R100, Ha.
    + apply R0, Hq.
    + apply R100, Hq.
    + apply R0, Ho0.
    + apply R100. lra.
Qed.

Lemma oee_components_bounds_witness :
  [(60, 6, "-"%string); (40, 4, "Rulman"%string)] <> [] /\
  (forall t d h, In (t, d, h) [(60, 6, "-"%string); (40, 4, "Rulman"%string)] ->
                 0 < t /\ 0 <= d <= t)%Q /\
  exists a p q o,
    StatisticalCalculator.calculate_oee_components
      (oee_rows [(60, 6, "-"%string); (40, 4, "Rulman"%string)])
    = Ok {| StatisticalCalculator.availability := Fin a;
            StatisticalCalculator.performance := Fin p;
            StatisticalCalculator.quality := Fin q;
            StatisticalCalculator.oee := Fin o |} /\
    (0 <= a <= 100)%Q /\ (0 <= q <= 100)%Q /\ (0 <= o <= 100)%Q.
Proof.
  assert (Hne : [(60, 6, "-"%string); (40, 4, "Rulman"%string)] <> [])
    by discriminate.
  assert (Hrows : forall t d h,
             In (t, d, h) [(60, 6, "-"%string); (40, 4, "Rulman"%string)] ->
             (0 < t /\ 0 <= d <= t)%Q).
  { intros t d h [E|[E|[]]]; inversion E; subst; repeat split;
      (apply Qle_bool_imp_le || apply Qltb_lt); reflexivity. }
  split; [exact Hne|]. split; [exact Hrows|].
  exact (proj2 (proj2 (oee_components_bounds nil _)) Hne Hrows).
Defined.

(** ** Improvement analysis *)

(** A value that is not a negative number: what sums and means of
    absolute values are. *)
Definition not_negative (a : float64) : Prop :=
  match a with
  | Fin x => (0 <= x)%Q
  | PInf | NaN => True
  | NInf => False
  end.

Lemma fabs_not_negative (a : float64) : not_negative (fabs a).
Proof. destruct a; simpl; try exact I. apply Qabs_nonneg. Qed.

Lemma fadd_not_negative (a b : float64) :
  not_negative a -> not_negative b -> not_negative (a + b).
Proof.
  destruct a, b; simpl; try tauto. intros. lra.
Qed.

Lemma np_sum_not_negative (l : list float64) :
  Forall not_negative l -> not_negative (np_sum l).
Proof.
  unfold np_sum.
  assert (H : forall acc, not_negative acc -> Forall not_negative l ->
                          not_negative (fold_left fadd l acc)).
  { induction l as [|x l IH]; intros acc Ha Hl; [exact Ha|].
    inversion Hl; subst. cbn [fold_left].
    apply IH; [now apply fadd_not_negative | assumption]. }
  apply H. simpl. lra.
Qed.

Lemma signed_inf_not_negative (x : Q) : (0 <= x)%Q -> not_negative (signed_inf x).
Proof.
  intros Hx. unfold signed_inf.
  destruct (Qcompare x 0) eqn:E; simpl; try exact I.
  apply Qlt_alt in E. lra.
Qed.

Lemma fdiv_not_negative (a : float64) (y : Q) :
  not_negative a -> (0 <= y)%Q -> not_negative (a / Fin y).
Proof.
  intros Ha Hy. destruct a as [x| | |]; simpl in *; try tauto.
  - destruct (Qeq_bool y 0) eqn:E.
    + now apply signed_inf_not_negative.
    + apply Qeq_bool_false in E. simpl.
      apply Qle_shift_div_l; lra.
  - destruct (Qltb y 0) eqn:E; [|exact I].
    apply Qltb_lt in E. lra.
Qed.

Lemma round_not_negative (a : float64) (d : nat) :
  not_negative a -> not_negative (round a d).
Proof.
  destruct a; simpl; try tauto. apply Qround_nd_nonneg.
Qed.

Lemma sigma_within_not_negative (data : list float64) :
  not_negative (round (np_mean (map fabs (np_diff data)) / Fin 1.128) 3).
Proof.
  apply round_not_negative. apply fdiv_not_negative; [|lra].
  unfold np_mean, of_nat. apply fdiv_not_negative.
  - apply np_sum_not_negative. apply Forall_forall.
    intros v Hv. apply in_map_iff in Hv. destruct Hv as (x & <- & _).
    apply fabs_not_negative.
  - change 0%Q with (inject_Z 0). rewrite <- Zle_Qle. lia.
Qed.

(** The percentage by which sigma has to shrink so that the offset [d]
    fits [c] sigmas, floored at zero. *)
Definition reduction_percent (cs d : float64) (c : Q) : float64 :=
  py_max (Fin 0) (((cs - d / Fin c) / cs) * of_Z 100).

Definition Qreduction (s r c : Q) : Q := ((s + - (r / c)) / s * 100)%Q.

Lemma reduction_percent_value (cs d : float64) (c : Q) :
  not_negative cs -> not_negative d -> (0 < c)%Q ->
  reduction_percent cs d c
  = match cs, d with
    | Fin s, Fin r =>
      if Qltb 0 s && Qltb 0 (Qreduction s r c) then Fin (Qreduction s r c)
      else Fin 0
    | _, _ => Fin 0
    end.
Proof.
  intros Hcs Hd Hc. unfold reduction_percent.
  assert (Ec : Qeq_bool c 0 = false) by (apply Qeq_bool_false; lra).
  assert (Ec' : Qltb c 0 = false) by (apply Qltb_ge; lra).
  destruct d as [r| | |]; simpl in Hd; try contradiction.
  - cbn [fdiv]. rewrite Ec.
    destruct cs as [s| | |]; simpl in Hcs; try contradiction; try reflexivity.
    cbn [fsub fopp fadd fdiv].
    destruct (Qeq_bool s 0) eqn:Es.
    + apply Qeq_bool_iff in Es.
      assert (E0 : Qltb 0 s = false) by (apply Qltb_ge; lra).
      rewrite E0. cbn [andb].
      assert (Hr : (0 <= r / c)%Q) by (apply Qle_shift_div_l; lra).
      unfold signed_inf.
      destruct (Qcompare (s + - (r / c)) 0) eqn:E; try reflexivity.
      apply Qgt_alt in E. lra.
    + apply Qeq_bool_false in Es.
      assert (E0 : Qltb 0 s = true) by (apply Qltb_lt; lra).
      rewrite E0. cbn [andb]. unfold of_Z. cbn [fmul py_max fgt flt].
      reflexivity.
  - cbn [fdiv]. rewrite Ec'.
    destruct cs as [s| | |]; simpl in Hcs; try contradiction; try reflexivity.
    cbn [fsub fopp fadd fdiv].
    assert (Es : Qltb s 0 = false) by (apply Qltb_ge; lra).
    rewrite Es. reflexivity.
  - destruct cs; reflexivity.
Qed.

Lemma Qreduction_bounds (s r c1 c2 : Q) :
  (0 < s)%Q -> (0 <= r)%Q -> (0 < c1)%Q -> (c1 <= c2)%Q ->
  (Qreduction s r c1 <= Qreduction s r c2 /\ Qreduction s r c2 <= 100)%Q.
Proof.
  intros Hs Hr Hc1 Hc.
  assert (Hc2 : (0 < c2)%Q) by lra.
  assert (H1 : (0 <= r / c2)%Q) by (apply Qle_shift_div_l; lra).
  assert (H2 : (r / c2 <= r / c1)%Q).
  { apply Qle_shift_div_l; [lra|].
    setoid_replace (r / c2 * c1)%Q with (r * (c1 / c2))%Q by (field; lra).
    assert (Hq : (c1 / c2 <= 1)%Q) by (apply Qle_shift_div_r; lra).
    assert (Hq0 : (0 <= c1 / c2)%Q) by (apply Qle_shift_div_l; lra).
    setoid_replace r with (r * 1)%Q at 2 by ring.
    rewrite (Qmult_comm r (c1 / c2)), (Qmult_comm r 1).
    apply Qmult_le_compat_r; assumption. }
  unfold Qreduction.
  assert (E : forall x, ((s + - x) / s * 100 == 100 - x * (100 / s))%Q)
    by (intros x; field; lra).
  rewrite !E.
  assert (Hk : (0 <= 100 / s)%Q) by (apply Qle_shift_div_l; lra).
  assert (M1 : (r / c2 * (100 / s) <= r / c1 * (100 / s))%Q)
    by (apply Qmult_le_compat_r; assumption).
  assert (M0 : (0 <= r / c2 * (100 / s))%Q) by (apply Qmult_le_0_compat; assumption).
  split; lra.
Qed.

Lemma sigma_reductions (cpk cs m t : float64) :
  not_negative cs ->
  exists a b,
    round (py_max (Fin 0)
             (if cpk <? Fin 1.33
              then ((cs - fabs (m - t) / Fin (1.33 * 3)) / cs) * of_Z 100
              else Fin 0)) 1 = Fin a /\
    round (py_max (Fin 0)
             (((cs - fabs (m - t) / Fin (1.67 * 3)) / cs) * of_Z 100)) 1 = Fin b /\
    (0 <= a)%Q /\ (a <= b)%Q /\ (b <= 100)%Q.
Proof.
  intros Hcs.
  pose proof (fabs_not_negative (m - t)) as Hd.
  fold (reduction_percent cs (fabs (m - t)) (1.67 * 3)).
  assert (R100 : forall x, (x <= 100)%Q -> (Qround_nd x 1 <= 100)%Q).
  { intros x Hx. apply Qle_trans with (Qround_nd 100 1).
    - now apply Qround_nd_monotone.
    - apply Qle_bool_imp_le. reflexivity. }
  assert (Hb : exists y, reduction_percent cs (fabs (m - t)) (1.67 * 3) = Fin y /\
                         (0 <= y <= 100)%Q /\
                         forall y', reduction_percent cs (fabs (m - t)) (1.33 * 3)
                                    = Fin y' -> (y' <= y)%Q).
  { rewrite !reduction_percent_value by (try assumption; reflexivity).
    destruct cs as [s| | |]; try (exists 0%Q; repeat split;
                                  [lra | lra | intros y' E; inversion E; lra]).
    destruct (fabs (m - t)) as [r| | |];
      try (exists 0%Q; repeat split; [lra | lra | intros y' E; inversion E; lra]).
    simpl in Hcs, Hd.
    destruct (Qltb 0 s) eqn:Es; cbn [andb];
      [|exists 0%Q; repeat split; [lra | lra | intros y' E; inversion E; lra]].
    apply Qltb_lt in Es.
    destruct (Qreduction_bounds s r (1.33 * 3) (1.67 * 3) Es Hd) as [Hm Hu];
      [reflexivity | apply Qle_bool_imp_le; reflexivity |].
    destruct (Qltb 0 (Qreduction s r (1.67 * 3))) eqn:E2.
    - apply Qltb_lt in E2. eexists. split; [reflexivity|].
      split; [lra|]. intros y'.
      destruct (Qltb 0 (Qreduction s r (1.33 * 3))); intros E; inversion E; lra.
    - apply Qltb_ge in E2. exists 0%Q. split; [reflexivity|].
      split; [lra|]. intros y'.
      destruct (Qltb 0 (Qreduction s r (1.33 * 3))) eqn:E1;
        intros E; inversion E; lra. }
  destruct Hb as (y & Ey & [Hy0 Hy1] & Hle).
  rewrite Ey.
  assert (Ha : exists x,
             py_max (Fin 0)
               (if cpk <? Fin 1.33
                then ((cs - fabs (m - t) / Fin (1.33 * 3)) / cs) * of_Z 100
                else Fin 0) = Fin x /\ (0 <= x <= y)%Q).
  { destruct (cpk <? Fin 1.33).
    - fold (reduction_percent cs (fabs (m - t)) (1.33 * 3)).
      pose proof (reduction_percent_value cs (fabs (m - t)) (1.33 * 3) Hcs Hd
                                          eq_refl) as Ev.
      assert (exists x, reduction_percent cs (fabs (m - t)) (1.33 * 3) = Fin x
                        /\ (0 <= x)%Q) as (x & Ex & Hx).
      { rewrite Ev. destruct cs as [s| | |]; try (exists 0%Q; split; [reflexivity|lra]).
        destruct (fabs (m - t)) as [r| | |];
          try (exists 0%Q; split; [reflexivity|lra]).
        destruct (Qltb 0 s && Qltb 0 (Qreduction s r (1.33 * 3))) eqn:E;
          [|exists 0%Q; split; [reflexivity|lra]].
        apply andb_true_iff in E. destruct E as [_ E]. apply Qltb_lt in E.
        eexists. split; [reflexivity|lra]. }
      exists x. split; [exact Ex|]. split; [exact Hx|]. now apply Hle.
    - exists 0%Q. split; [reflexivity|]. lra. }
  destruct Ha as (x & -> & Hx0 & Hxy).
  cbn [round]. do 2 eexists. split; [reflexivity|]. split; [reflexivity|].
  split; [now apply Qround_nd_nonneg|].
  split; [now apply Qround_nd_monotone | now apply R100].
Qed.

(** Rounding half to even commutes with the sign. *)
Lemma Qfloor_unique (y : Q) (k : Z) :
  (inject_Z k <= y)%Q -> (y < inject_Z k + 1)%Q -> Qfloor y = k.
Proof.
  intros H1 H2. destruct (Qfloor_bounds y) as [F1 F2].
  assert (A : (inject_Z k < inject_Z (Qfloor y + 1))%Q)
    by (rewrite inject_Z_plus; change (inject_Z 1) with 1%Q; lra).
  assert (B : (inject_Z (Qfloor y) < inject_Z (k + 1))%Q)
    by (rewrite inject_Z_plus; change (inject_Z 1) with 1%Q; lra).
  rewrite <- Zlt_Qlt in A, B. lia.
Qed.

Lemma rint_inject_Z (k : Z) : rint (inject_Z k) = k.
Proof.
  unfold rint. rewrite Qfloor_Z.
  destruct (Qcompare_spec (inject_Z k - inject_Z k) (1 # 2)) as [H|H|H];
    try reflexivity; exfalso; lra.
Qed.

Lemma rint_opp (x : Q) : rint (- x) = (- rint x)%Z.
Proof.
  destruct (Qfloor_bounds x) as [F1 F2].
  destruct (Qeq_dec x (inject_Z (Qfloor x))) as [E|NE].
  - rewrite (rint_wd x _ E), rint_inject_Z.
    rewrite (rint_wd (- x) (inject_Z (- Qfloor x))).
    + apply rint_inject_Z.
    + rewrite inject_Z_opp. now rewrite <- E.
  - assert (F1' : (inject_Z (Qfloor x) < x)%Q).
    { apply Qle_lteq in F1. destruct F1 as [F1|F1]; [exact F1|].
      exfalso. apply NE. now symmetry. }
    assert (Ef : Qfloor (- x) = (- Qfloor x - 1)%Z).
    { apply Qfloor_unique.
      - unfold Zminus. rewrite inject_Z_plus, inject_Z_opp.
        change (inject_Z (- (1))) with (- (1))%Q. lra.
      - unfold Zminus. rewrite inject_Z_plus, inject_Z_opp.
        change (inject_Z (- (1))) with (- (1))%Q. lra. }
    unfold rint. rewrite Ef.
    assert (Ei : (inject_Z (- Qfloor x - 1) == - inject_Z (Qfloor x) - 1)%Q).
    { unfold Zminus. rewrite inject_Z_plus, inject_Z_opp.
      change (inject_Z (- (1))) with (- (1))%Q. ring. }
    assert (Eev : Z.even (- Qfloor x - 1) = negb (Z.even (Qfloor x))).
    { replace (- Qfloor x - 1)%Z with (- (Z.succ (Qfloor x)))%Z by lia.
      rewrite Z.even_opp, Z.even_succ. symmetry. apply Z.negb_even. }
    rewrite Eev.
    destruct (Qcompare_spec (- x - inject_Z (- Qfloor x - 1)) (1 # 2)) as [H|H|H];
      destruct (Qcompare_spec (x - inject_Z (Qfloor x)) (1 # 2)) as [G|G|G];
      rewrite Ei in H; try (exfalso; lra); try lia.
    destruct (Z.even (Qfloor x)); cbn [negb]; lia.
Qed.

Lemma Qround_nd_opp (x : Q) (d : nat) :
  (Qround_nd (- x) d == - Qround_nd x d)%Q.
Proof.
  unfold Qround_nd. pose proof (pow10_pos d) as Hs.
  set (s := inject_Z (10 ^ Z.of_nat d)) in *.
  rewrite (rint_wd (- x * s) (- (x * s))) by ring.
  rewrite rint_opp, inject_Z_opp. field. lra.
Qed.

Lemma round_fabs (a : float64) (d : nat) : round (fabs a) d =~ fabs (round a d).
Proof.
  destruct a as [x| | |]; cbn [round fabs feqv]; try exact I.
  destruct (Qlt_le_dec x 0) as [H|H].
  - assert (Hr : (Qround_nd x d <= 0)%Q).
    { rewrite <- (Qround_nd_zero d). apply Qround_nd_monotone. lra. }
    rewrite (Qabs_neg (Qround_nd x d) Hr).
    rewrite <- Qround_nd_opp. apply Qround_nd_wd. apply Qabs_neg. lra.
  - rewrite (Qabs_pos (Qround_nd x d)) by now apply Qround_nd_nonneg.
    apply Qround_nd_wd. now apply Qabs_pos.
Qed.

(** X23.  [capability_improvement_analysis] raises [ZeroDivisionError] on
    an empty series (from [calculate_capability_indices]) and returns on
    every other one.  Both sigma reductions it reports are numbers between
    0 and 100, never [nan] or infinite, whatever the series holds: a zero
    or undefined sigma makes the quotient [-inf] or [nan], which
    [max(0, .)] turns into 0.  Reaching Cpk 1.67 never asks for less
    reduction than reaching Cpk 1.33, and the centering adjustment is the
    absolute value of the reported mean offset. *)
Theorem improvement_analysis_percentages
        (norm_cdf : float64 -> float64) (data : list float64) (variable : string) :
  (data = [] ->
   ProcessCapability.capability_improvement_analysis norm_cdf data variable
   = Raise ZeroDivisionError) /\
  (data <> [] ->
   exists r,
     ProcessCapability.capability_improvement_analysis norm_cdf data variable
     = Ok r /\
     (exists a b,
         ProcessCapability.im_sigma_reduction_133 r = Fin a /\
         ProcessCapability.im_sigma_reduction_167 r = Fin b /\
         (0 <= a)%Q /\ (a <= b)%Q /\ (b <= 100)%Q) /\
     ProcessCapability.im_centering_adjustment r
     =~ fabs (ProcessCapability.im_mean_offset r)).
Proof.
  split.
  - intros ->. unfold ProcessCapability.capability_improvement_analysis.
    now rewrite capability_indices_empty.
  - intros Hne. destruct data as [|x data]; [contradiction|].
    unfold ProcessCapability.capability_improvement_analysis,
           ProcessCapability.calculate_capability_indices.
    destruct (sdict_find Constants.SPEC_LIMITS variable) as [spec|];
      cbn [length Nat.eqb bind]; eexists; (split; [reflexivity|]);
      cbn [ProcessCapability.im_sigma_reduction_133
           ProcessCapability.im_sigma_reduction_167
           ProcessCapability.im_centering_adjustment
           ProcessCapability.im_mean_offset
           ProcessCapability.cr_indices ProcessCapability.cr_statistics
           ProcessCapability.Cpk ProcessCapability.st_sigma_within
           ProcessCapability.st_mean ProcessCapability.st_target];
      (split; [apply sigma_reductions; apply sigma_within_not_negative
              | apply round_fabs]).
Qed.

(** ** Capability by shift *)

Lemma unique_In (l : list string) (x : string) :
  In x (ProcessCapability.unique l) <-> In x l.
Proof.
  induction l as [|y l IH]; [reflexivity|].
  cbn [ProcessCapability.unique In]. rewrite filter_In, IH.
  destruct (String.eqb_spec x y) as [->|NE]; cbn [negb]; intuition congruence.
Qed.

Lemma unique_NoDup (l : list string) : NoDup (ProcessCapability.unique l).
Proof.
  induction l as [|y l IH]; [constructor|].
  cbn [ProcessCapability.unique]. constructor.
  - rewrite filter_In. intros [_ H]. now rewrite String.eqb_refl in H.
  - now apply NoDup_filter.
Qed.

(** The rows of one shift. *)
Definition shift_rows (df : list (string * float64)) (shift : string)
  : list (string * float64) :=
  filter (fun r => String.eqb (fst r) shift) df.

Lemma shift_rows_absent (df : list (string * float64)) (shift : string) :
  ~ In shift (map fst df) -> shift_rows df shift = [].
Proof.
  intros H. unfold shift_rows. apply filter_all_false.
  intros r Hr. destruct (String.eqb_spec (fst r) shift) as [E|]; [|reflexivity].
  exfalso. apply H. rewrite <- E. now apply in_map.
Qed.

Lemma shift_rows_present (df : list (string * float64)) (shift : string) :
  In shift (map fst df) -> (1 <= length (shift_rows df shift))%nat.
Proof.
  intros H. apply in_map_iff in H. destruct H as (r & E & Hr).
  assert (Hin : In r (shift_rows df shift)).
  { unfold shift_rows. apply filter_In. split; [exact Hr|].
    rewrite E. apply String.eqb_refl. }
  destruct (shift_rows df shift); [contradiction | simpl; lia].
Qed.

Lemma list_sum_cons (a : nat) (l : list nat) :
  list_sum (a :: l) = (a + list_sum l)%nat.
Proof. reflexivity. Qed.

Lemma sum_split_key (f : string -> nat) (x : string) (L : list string) :
  NoDup L -> (~ In x L -> f x = 0%nat) ->
  (f x + list_sum (map f (filter (fun y => negb (String.eqb y x)) L)))%nat
  = list_sum (map f L).
Proof.
  induction L as [|y L IH]; intros Hnd Hx.
  - cbn. rewrite Hx by tauto. reflexivity.
  - inversion Hnd as [|? ? Hy HL]; subst.
    cbn [filter]. destruct (String.eqb_spec y x) as [->|NE]; cbn [negb map];
      rewrite ?list_sum_cons.
    + assert (Ef : filter (fun y => negb (String.eqb y x)) L = L).
      { clear IH Hx Hnd HL. induction L as [|z L IH]; [reflexivity|].
        cbn [filter]. destruct (String.eqb_spec z x) as [->|_]; cbn [negb].
        - exfalso. apply Hy. now left.
        - f_equal. apply IH. intros H. apply Hy. now right. }
      now rewrite Ef.
    + rewrite <- IH; [lia | exact HL |].
      intros H. apply Hx. intros [E|E]; [congruence | contradiction].
Qed.

Lemma shifts_partition (df : list (string * float64)) :
  list_sum (map (fun s => length (shift_rows df s))
                (ProcessCapability.unique (map fst df)))
  = length df.
Proof.
  induction df as [|[x v] df IH]; [reflexivity|].
  cbn [map fst ProcessCapability.unique length]. rewrite list_sum_cons.
  assert (Ex : shift_rows ((x, v) :: df) x = (x, v) :: shift_rows df x).
  { unfold shift_rows. cbn [filter fst]. now rewrite String.eqb_refl. }
  rewrite Ex. cbn [length].
  assert (Eo : map (fun s => length (shift_rows ((x, v) :: df) s))
                   (filter (fun y => negb (String.eqb y x))
                           (ProcessCapability.unique (map fst df)))
               = map (fun s => length (shift_rows df s))
                     (filter (fun y => negb (String.eqb y x))
                             (ProcessCapability.unique (map fst df)))).
  { apply map_ext_in. intros s Hs. apply filter_In in Hs. destruct Hs as [_ Hs].
    unfold shift_rows. cbn [filter fst].
    destruct (String.eqb_spec x s) as [->|_]; [|reflexivity].
    now rewrite String.eqb_refl in Hs. }
  rewrite Eo. rewrite <- IH.
  rewrite <- (sum_split_key (fun s => length (shift_rows df s)) x
                            (ProcessCapability.unique (map fst df))).
  - reflexivity.
  - apply unique_NoDup.
  - intros H. rewrite unique_In in H. now rewrite shift_rows_absent.
Qed.

Lemma np_std_single (v : float64) : np_std_ddof1 [v] = NaN.
Proof.
  destruct v as [x| | |]; try reflexivity.
  unfold np_std_ddof1. change [Fin x] with (map Fin [x]).
  rewrite np_mean_finite by discriminate.
  cbn [map length Nat.sub np_sum fold_left fsub fopp fadd fmul of_nat Z.of_nat].
  change (of_nat 0) with (Fin 0).
  rewrite fdiv_by_zero by reflexivity.
  unfold signed_inf.
  assert (E : (0 + (x + - Qmean [x]) * (x + - Qmean [x]) == 0)%Q).
  { rewrite (Qmean_repeat x 1) by lia. ring. }
  apply Qeq_alt in E. now rewrite E.
Qed.

(** X24.  [analyze_by_shift] returns nothing for a variable without an
    entry in [SPEC_LIMITS].  Otherwise it returns one entry per shift of
    the frame, each shift once, in order of first appearance; the sample
    sizes are the numbers of rows of the shifts, at least one each, and
    add up to the number of rows of the frame; a shift with a single motor
    has an undefined standard deviation and is rated
    "Iyilestirme Gerekli". *)
Theorem shift_analysis_partitions_frame
        (df : list (string * float64)) (variable : string) :
  let res := ProcessCapability.analyze_by_shift df variable in
  (sdict_find Constants.SPEC_LIMITS variable = None -> res = []) /\
  (sdict_find Constants.SPEC_LIMITS variable <> None ->
   map fst res = ProcessCapability.unique (map fst df) /\
   NoDup (map fst res) /\
   (forall s, In s (map fst res) <-> In s (map fst df)) /\
   list_sum (map (fun e => ProcessCapability.sample_size (snd e)) res)
   = length df /\
   (forall s r, In (s, r) res ->
                ProcessCapability.sample_size r = length (shift_rows df s) /\
                (1 <= ProcessCapability.sample_size r)%nat /\
                (ProcessCapability.sample_size r = 1%nat ->
                 ProcessCapability.shift_performance_of r
                 = ProcessCapability.ShiftIyilestirmeGerekli))).
Proof.
  intros res. subst res. unfold ProcessCapability.analyze_by_shift.
  destruct (sdict_find Constants.SPEC_LIMITS variable) as [spec|].
  - split; [discriminate | intros _].
    erewrite flat_map_singletons by (intros shift _; reflexivity).
    match goal with
    | |- context [map ?g (ProcessCapability.unique (map fst df))] =>
      set (entry := g)
    end.
    assert (Hk : map fst (map entry (ProcessCapability.unique (map fst df)))
                 = ProcessCapability.unique (map fst df)).
    { rewrite map_map. subst entry. cbn [fst]. apply map_id. }
    split; [exact Hk|]. rewrite Hk.
    split; [apply unique_NoDup|].
    split; [intros s; apply unique_In|].
    split.
    + rewrite map_map. subst entry.
      cbn [snd ProcessCapability.sample_size].
      rewrite <- (shifts_partition df).
      apply f_equal, map_ext. intros s. unfold shift_rows. now rewrite length_map.
    + intros s r Hin. apply in_map_iff in Hin.
      destruct Hin as (s' & E & Hs'). subst entry. inversion E; subst; clear E.
      cbn [ProcessCapability.sample_size ProcessCapability.shift_performance_of].
      rewrite length_map. fold (shift_rows df s).
      split; [reflexivity|].
      split; [apply shift_rows_present; now apply unique_In|].
      intros H1.
      destruct (shift_rows df s) as [|[k v] [|? ?]]; try discriminate H1.
      cbn [map snd]. rewrite np_std_single.
      destruct (np_mean [v]); reflexivity.
  - split; [intros _ | intros H; contradiction].
    apply flat_map_all_nil. reflexivity.
Qed.

(** ** Distribution labels *)

Lemma fabs_below (x c : Q) :
  (fabs (Fin x) <? Fin c) = true <-> (- c < x /\ x < c)%Q.
Proof.
  cbn [fabs flt]. rewrite Qltb_lt. split.
  - intros H. apply Qabs_Qlt_condition in H. exact H.
  - intros H. now apply Qabs_Qlt_condition.
Qed.

(** X25.  The labels of [_interpret_distribution] for finite skewness and
    kurtosis.  "Simetrik" and "mesokurtic" are the open interval
    (-0.5, 0.5); "Saga carpik" and "leptokurtic" start above 0.5.  The
    value 0.5 itself falls through both tests and gets the label of the
    negative side, "Sola carpik" or "platykurtic", together with every
    value of at most -0.5; [nan] gets the same labels. *)
Theorem distribution_labels (skew kurt : Q) :
  let labels := DescriptiveStats._interpret_distribution (Fin skew) (Fin kurt) in
  (fst labels = DescriptiveStats.Simetrik <-> (- (0.5) < skew /\ skew < 0.5)%Q) /\
  (fst labels = DescriptiveStats.SagaCarpik <-> (0.5 < skew)%Q) /\
  (fst labels = DescriptiveStats.SolaCarpik
   <-> (skew <= - (0.5) \/ skew == 0.5)%Q) /\
  (snd labels = DescriptiveStats.Mesokurtic <-> (- (0.5) < kurt /\ kurt < 0.5)%Q) /\
  (snd labels = DescriptiveStats.Leptokurtic <-> (0.5 < kurt)%Q) /\
  (snd labels = DescriptiveStats.Platykurtic
   <-> (kurt <= - (0.5) \/ kurt == 0.5)%Q) /\
  DescriptiveStats._interpret_distribution NaN NaN
  = (DescriptiveStats.SolaCarpik, DescriptiveStats.Platykurtic).
Proof.
  assert (H : forall (A : Type) (a b c : A) (x : Q),
             a <> b -> a <> c -> b <> c ->
             let l := if fabs (Fin x) <? Fin 0.5 then a
                      else if Fin x >? Fin 0.5 then b else c in
             (l = a <-> (- (0.5) < x /\ x < 0.5)%Q) /\
             (l = b <-> (0.5 < x)%Q) /\
             (l = c <-> (x <= - (0.5) \/ x == 0.5)%Q)).
  { intros A a b c x Hab Hac Hbc l. subst l.
    pose proof (fabs_below x 0.5) as Hs.
    destruct (fabs (Fin x) <? Fin 0.5).
    - assert (- (0.5) < x /\ x < 0.5)%Q as [H1 H2] by now apply Hs.
      repeat split; intros; try congruence; try lra;
        try match goal with G : _ \/ _ |- _ => exfalso; destruct G; lra end.
    - assert (Hn : ~ (- (0.5) < x /\ x < 0.5)%Q)
        by (intros H; apply Hs in H; discriminate).
      unfold fgt. cbn [flt].
      destruct (Qltb 0.5 x) eqn:E.
      + apply Qltb_lt in E.
        repeat split; intros; try congruence; try lra; try tauto;
          try match goal with G : _ \/ _ |- _ => exfalso; destruct G; lra end.
      + apply Qltb_ge in E.
        repeat split; intros; try congruence; try lra; try tauto. }
  intros labels. subst labels.
  unfold DescriptiveStats._interpret_distribution. cbn [fst snd].
  pose proof (H _ DescriptiveStats.Simetrik DescriptiveStats.SagaCarpik
                DescriptiveStats.SolaCarpik skew
                ltac:(discriminate) ltac:(discriminate) ltac:(discriminate))
    as (S1 & S2 & S3).
  pose proof (H _ DescriptiveStats.Mesokurtic DescriptiveStats.Leptokurtic
                DescriptiveStats.Platykurtic kurt
                ltac:(discriminate) ltac:(discriminate) ltac:(discriminate))
    as (K1 & K2 & K3).
  repeat (split; [assumption|]). reflexivity.
Qed.

(** ** The Pareto table of the data loader *)

Definition to_loader_row (r : ParetoAnalysis.pareto_row) : DataLoader.pareto_row :=
  {| DataLoader.Hata_Nedeni := ParetoAnalysis.Hata_Turu r;
     DataLoader.Adet := ParetoAnalysis.Adet r;
     DataLoader.Yuzde := ParetoAnalysis.Yuzde r;
     DataLoader.Kumulatif_Yuzde := ParetoAnalysis.Kumulatif_Yuzde r;
     DataLoader.Kategori :=
       if ParetoAnalysis.is_vital r then DataLoader.HayatiAzinlik
       else DataLoader.OnemsizCogunluk |}.

Definition loader_vital (r : DataLoader.pareto_row) : bool :=
  match DataLoader.Kategori r with
  | DataLoader.HayatiAzinlik => true
  | DataLoader.OnemsizCogunluk => false
  end.

Lemma filter_map_commute {A B : Type} (f : A -> B) (p : B -> bool) (l : list A) :
  filter p (map f l) = map f (filter (fun x => p (f x)) l).
Proof.
  induction l as [|x l IH]; [reflexivity|].
  cbn [map filter]. destruct (p (f x)); cbn [map]; now rewrite IH.
Qed.

Lemma get_pareto_data_table (df : list ParetoAnalysis.row) :
  DataLoader.get_pareto_data (map ParetoAnalysis.Hata_Nedeni df)
  = match defect_rows df with
    | [] => []
    | _ => map to_loader_row
               (pareto_table
                  (ParetoAnalysis.sort_values_desc
                     (ParetoAnalysis.groupby_size
                        (map ParetoAnalysis.Hata_Nedeni (defect_rows df)))))
    end.
Proof.
  unfold DataLoader.get_pareto_data.
  rewrite (filter_map_commute ParetoAnalysis.Hata_Nedeni
             (fun h => negb (String.eqb h "-")) df).
  fold (defect_rows df). rewrite length_map.
  destruct (defect_rows df) as [|r rs] eqn:E; [reflexivity|].
  cbn [length Nat.eqb]. unfold pareto_table. cbv zeta.
  rewrite map_map. apply map_ext. intros [[g y] c].
  unfold to_loader_row, ParetoAnalysis.is_vital, ParetoAnalysis.kategori_of.
  cbn [ParetoAnalysis.Hata_Turu ParetoAnalysis.Adet ParetoAnalysis.Yuzde
       ParetoAnalysis.Kumulatif_Yuzde ParetoAnalysis.Kategori].
  destruct (c <=? Fin 80), (c <=? Fin 95); reflexivity.
Qed.

(** X26.  [DataLoader.get_pareto_data] and
    [ParetoAnalysis.analyze_defects] build the same table: the loader
    returns the empty frame exactly when the analysis finds no defect, and
    otherwise the same rows in the same order with the same counts,
    percents and cumulative percents; a row is "Hayati Azinlik" for the
    loader exactly when it is "Hayati Azinlik (A)" for the analysis, so the
    loader's vital few are the [hayati_azinlik] of the summary. *)
Theorem loader_table_agrees_with_analysis (df : list ParetoAnalysis.row) :
  let loader := DataLoader.get_pareto_data (map ParetoAnalysis.Hata_Nedeni df) in
  match ParetoAnalysis.analyze_defects df with
  | ParetoAnalysis.NoDefects => loader = []
  | ParetoAnalysis.Defects table s =>
    loader <> [] /\
    loader = map to_loader_row table /\
    map DataLoader.Hata_Nedeni (filter loader_vital loader)
    = ParetoAnalysis.hayati_azinlik s
  end.
Proof.
  intros loader. subst loader. rewrite get_pareto_data_table.
  destruct (defect_rows df) as [|r rs] eqn:E.
  - rewrite analyze_defects_none by exact E. reflexivity.
  - assert (Hne : defect_rows df <> []) by (rewrite E; discriminate).
    unfold ParetoAnalysis.analyze_defects. fold (defect_rows df).
    rewrite E. cbn [length Nat.eqb]. rewrite <- E.
    fold (pareto_table
            (ParetoAnalysis.sort_values_desc
               (ParetoAnalysis.groupby_size
                  (map ParetoAnalysis.Hata_Nedeni (defect_rows df))))).
    set (table := pareto_table _).
    cbn [ParetoAnalysis.hayati_azinlik].
    split; [|split; [reflexivity|]].
    + assert (Lt : length table
                   = length (ParetoAnalysis.sort_values_desc
                               (ParetoAnalysis.groupby_size
                                  (map ParetoAnalysis.Hata_Nedeni (defect_rows df))))).
      { destruct (pareto_table_columns
                    (ParetoAnalysis.sort_values_desc
                       (ParetoAnalysis.groupby_size
                          (map ParetoAnalysis.Hata_Nedeni (defect_rows df)))))
          as (_ & _ & Hc).
        fold table in Hc. apply (f_equal (@length _)) in Hc.
        rewrite length_map in Hc. exact Hc. }
      intros Hnil. apply (f_equal (@length _)) in Hnil.
      rewrite length_map, Lt in Hnil. cbn [length] in Hnil.
      apply length_zero_iff_nil in Hnil.
      assert (Ht : total_count
                     (map snd (ParetoAnalysis.sort_values_desc
                                 (ParetoAnalysis.groupby_size
                                    (map ParetoAnalysis.Hata_Nedeni
                                         (defect_rows df)))))
                   = length (map ParetoAnalysis.Hata_Nedeni (defect_rows df))).
      { rewrite total_sort_values_desc. apply total_groupby_size. }
      rewrite Hnil, E in Ht. discriminate Ht.
    + rewrite (filter_map_commute to_loader_row loader_vital table), map_map.
      rewrite (filter_ext (fun x => loader_vital (to_loader_row x))
                          ParetoAnalysis.is_vital).
      * reflexivity.
      * intros x. unfold loader_vital, to_loader_row. cbn [DataLoader.Kategori].
        now destruct (ParetoAnalysis.is_vital x).
Qed.

(** ** Time losses *)

(** A frame whose three loss columns hold finite numbers. *)
Definition finite_time_rows (rows : list (Q * Q * Q)) : list ParetoAnalysis.time_row :=
  map (fun '(a, b, c) =>
         {| ParetoAnalysis.Durma_Suresi_Saat := Fin a;
            ParetoAnalysis.KK_Hazirlik_Saat := Fin b;
            ParetoAnalysis.KK_Surec_Saat := Fin c |}) rows.

Lemma Qsum_nonneg (qs : list Q) :
  Forall (fun q => 0 <= q)%Q qs -> (0 <= Qsum qs)%Q.
Proof. intros H. unfold Qsum. apply Qsum_from_nonneg; [lra | exact H]. Qed.

Lemma sort_three_losses (k1 k2 k3 : ParetoAnalysis.kayip_turu) (a b c : Q) :
  exists j1 j2 j3 x1 x2 x3,
    ParetoAnalysis.sort_losses [(k1, Fin a); (k2, Fin b); (k3, Fin c)]
    = [(j1, Fin x1); (j2, Fin x2); (j3, Fin x3)] /\
    Permutation [(j1, x1); (j2, x2); (j3, x3)] [(k1, a); (k2, b); (k3, c)] /\
    (x2 <= x1)%Q /\ (x3 <= x2)%Q.
Proof.
  unfold ParetoAnalysis.sort_losses.
  cbn [filter snd is_nan negb fold_right app ParetoAnalysis.insert_loss fle].
  destruct (Qle_bool c b) eqn:Ecb;
    cbn [ParetoAnalysis.insert_loss snd fle].
  - apply Qle_bool_iff in Ecb.
    destruct (Qle_bool b a) eqn:Eba.
    + apply Qle_bool_iff in Eba.
      exists k1, k2, k3, a, b, c. repeat split; try assumption. apply Permutation_refl.
    + assert (Hab : (a < b)%Q).
      { destruct (Qlt_le_dec a b) as [H|H]; [exact H|].
        apply Qle_bool_iff in H. congruence. }
      cbn [ParetoAnalysis.insert_loss snd fle].
      destruct (Qle_bool c a) eqn:Eca.
      * apply Qle_bool_iff in Eca.
        exists k2, k1, k3, b, a, c. repeat split; try assumption; try lra.
        apply perm_swap.
      * assert (Hac : (a < c)%Q).
        { destruct (Qlt_le_dec a c) as [H|H]; [exact H|].
          apply Qle_bool_iff in H. congruence. }
        exists k2, k3, k1, b, c, a. repeat split; try assumption; try lra.
        apply Permutation_sym.
        apply (Permutation_cons_app [(k2, b); (k3, c)] [] (k1, a)).
        rewrite app_nil_r. apply Permutation_refl.
  - assert (Hbc : (b < c)%Q).
    { destruct (Qlt_le_dec b c) as [H|H]; [exact H|].
      apply Qle_bool_iff in H. congruence. }
    destruct (Qle_bool c a) eqn:Eca.
    + apply Qle_bool_iff in Eca.
      exists k1, k3, k2, a, c, b. repeat split; try assumption; try lra.
      apply perm_skip, perm_swap.
    + assert (Hac : (a < c)%Q).
      { destruct (Qlt_le_dec a c) as [H|H]; [exact H|].
        apply Qle_bool_iff in H. congruence. }
      cbn [ParetoAnalysis.insert_loss snd fle].
      destruct (Qle_bool b a) eqn:Eba.
      * apply Qle_bool_iff in Eba.
        exists k3, k1, k2, c, a, b. repeat split; try assumption; try lra.
        apply Permutation_sym.
        apply (Permutation_trans (l' := [(k1, a); (k3, c); (k2, b)]));
          [apply perm_skip, perm_swap | apply perm_swap].
      * assert (Hab : (a < b)%Q).
        { destruct (Qlt_le_dec a b) as [H|H]; [exact H|].
          apply Qle_bool_iff in H. congruence. }
        exists k3, k2, k1, c, b, a. repeat split; try assumption; try lra.
        apply Permutation_sym.
        apply (Permutation_trans (l' := [(k2, b); (k1, a); (k3, c)]));
          [apply perm_swap|].
        apply (Permutation_trans (l' := [(k2, b); (k3, c); (k1, a)]));
          [apply perm_skip, perm_swap | apply perm_swap].
Qed.

Lemma kritiklik_of_nan : ParetoAnalysis.kritiklik_of NaN = ParetoAnalysis.Dusuk.
Proof. reflexivity. Qed.

Lemma kritiklik_of_above (x : Q) :
  ((50 < x)%Q -> ParetoAnalysis.kritiklik_of (Fin x) <> ParetoAnalysis.Kritik) /\
  ((80 < x)%Q -> ParetoAnalysis.kritiklik_of (Fin x) = ParetoAnalysis.Dusuk).
Proof.
  unfold ParetoAnalysis.kritiklik_of. cbn [fle]. split; intros H.
  - destruct (Qle_bool x 50) eqn:E.
    + apply Qle_bool_iff in E. lra.
    + destruct (Qle_bool x 80); discriminate.
  - destruct (Qle_bool x 50) eqn:E; [apply Qle_bool_iff in E; lra|].
    destruct (Qle_bool x 80) eqn:E'; [apply Qle_bool_iff in E'; lra|].
    reflexivity.
Qed.

(** The three shares of a sorted triple with a positive total. *)
Lemma sorted_shares (x1 x2 x3 : Q) :
  (0 <= x3)%Q -> (x3 <= x2)%Q -> (x2 <= x1)%Q -> (0 < 0 + x1 + x2 + x3)%Q ->
  let T := (0 + x1 + x2 + x3)%Q in
  let p := fun x => (x / T * 100)%Q in
  (50 < 0 + p x1 + p x2)%Q /\ (0 + p x1 + p x2 + p x3 == 100)%Q.
Proof.
  intros H3 H2 H1 HT T p. subst p. cbv beta.
  assert (Hi : (0 < / T)%Q) by now apply Qinv_lt_0_compat.
  assert (E : (0 + x1 / T * 100 + x2 / T * 100 + x3 / T * 100 == 100)%Q)
    by (subst T; field; lra).
  split; [|exact E].
  assert (U : (x3 / T <= x2 / T)%Q)
    by (unfold Qdiv; apply Qmult_le_compat_r; lra).
  assert (V : (x2 / T <= x1 / T)%Q)
    by (unfold Qdiv; apply Qmult_le_compat_r; lra).
  lra.
Qed.

(** X27.  [analyze_time_losses] on a frame of finite, non-negative loss
    times.  The table has the three categories, each once, in descending
    order of their hours; the second row is never "Kritik" (the two
    largest of three shares exceed 50 percent together) and the third row
    is always "Dusuk" (its cumulative percent is the sum of all three
    shares, or [nan] when no time was lost at all).  In the summary the
    total is a non-negative number, and the loss per motor is [nan]
    exactly for the empty frame: the division by [len(self.df)] is
    numpy's and raises nothing. *)
Theorem time_loss_table_bands (rows : list (Q * Q * Q))
        (Hpos : forall a b c, In (a, b, c) rows -> (0 <= a /\ 0 <= b /\ 0 <= c)%Q) :
  let res := ParetoAnalysis.analyze_time_losses (finite_time_rows rows) in
  (exists r1 r2 r3,
      fst res = [r1; r2; r3] /\
      Permutation (map ParetoAnalysis.Kayip_Turu [r1; r2; r3])
                  [ParetoAnalysis.PlansizDuruslar;
                   ParetoAnalysis.KKHazirlikBeklemesi;
                   ParetoAnalysis.KKSurecBeklemesi] /\
      (ParetoAnalysis.Toplam_Saat r2 <=? ParetoAnalysis.Toplam_Saat r1) = true /\
      (ParetoAnalysis.Toplam_Saat r3 <=? ParetoAnalysis.Toplam_Saat r2) = true /\
      ParetoAnalysis.Kritiklik r2 <> ParetoAnalysis.Kritik /\
      ParetoAnalysis.Kritiklik r3 = ParetoAnalysis.Dusuk) /\
  (exists t, ParetoAnalysis.toplam_kayip_saat (snd res) = Fin t /\ (0 <= t)%Q) /\
  (ParetoAnalysis.ort_motor_basi_kayip (snd res) = NaN <-> rows = []).
Proof.
  intros res. subst res.
  set (A := Qsum (map (fun r => fst (fst r)) rows)).
  set (B := Qsum (map (fun r => snd (fst r)) rows)).
  set (C := Qsum (map (fun r => snd r) rows)).
  assert (HA : (0 <= A)%Q).
  { apply Qsum_nonneg, Forall_forall. intros q Hq. apply in_map_iff in Hq.
    destruct Hq as ([[a b] c] & <- & Hin). now destruct (Hpos a b c Hin). }
  assert (HB : (0 <= B)%Q).
  { apply Qsum_nonneg, Forall_forall. intros q Hq. apply in_map_iff in Hq.
    destruct Hq as ([[a b] c] & <- & Hin). now destruct (Hpos a b c Hin) as (_ & ? & _). }
  assert (HC : (0 <= C)%Q).
  { apply Qsum_nonneg, Forall_forall. intros q Hq. apply in_map_iff in Hq.
    destruct Hq as ([[a b] c] & <- & Hin). now destruct (Hpos a b c Hin) as (_ & _ & ?). }
  assert (EA : pd_sum (map ParetoAnalysis.Durma_Suresi_Saat (finite_time_rows rows))
               = Fin A).
  { unfold finite_time_rows. rewrite map_map.
    rewrite (map_ext _ (fun r => Fin (fst (fst r)))) by (now intros [[a b] c]).
    rewrite <- (map_map (fun r => fst (fst r)) Fin). apply pd_sum_finite. }
  assert (EB : pd_sum (map ParetoAnalysis.KK_Hazirlik_Saat (finite_time_rows rows))
               = Fin B).
  { unfold finite_time_rows. rewrite map_map.
    rewrite (map_ext _ (fun r => Fin (snd (fst r)))) by (now intros [[a b] c]).
    rewrite <- (map_map (fun r => snd (fst r)) Fin). apply pd_sum_finite. }
  assert (EC : pd_sum (map ParetoAnalysis.KK_Surec_Saat (finite_time_rows rows))
               = Fin C).
  { unfold finite_time_rows. rewrite map_map.
    rewrite (map_ext _ (fun r => Fin (snd r))) by (now intros [[a b] c]).
    rewrite <- (map_map (fun r => snd r) Fin). apply pd_sum_finite. }
  unfold ParetoAnalysis.analyze_time_losses. rewrite EA, EB, EC.
  destruct (sort_three_losses ParetoAnalysis.PlansizDuruslar
                              ParetoAnalysis.KKHazirlikBeklemesi
                              ParetoAnalysis.KKSurecBeklemesi A B C)
    as (j1 & j2 & j3 & x1 & x2 & x3 & -> & Hperm & H21 & H32).
  assert (Hsum : (0 + x1 + x2 + x3 == 0 + A + B + C)%Q).
  { assert (Hp : Permutation [x1; x2; x3] [A; B; C])
      by (apply (Permutation_map snd) in Hperm; exact Hperm).
    clear - Hp.
    assert (G : forall l l' : list Q, Permutation l l' ->
                                      (Qsum l == Qsum l')%Q).
    { intros l l' P. induction P.
      - reflexivity.
      - rewrite !Qsum_cons. now rewrite IHP.
      - rewrite !Qsum_cons. ring.
      - now rewrite IHP1. }
    apply (G _ _ Hp). }
  assert (H3 : (0 <= x3)%Q).
  { assert (Hin : In x3 [A; B; C]).
    { apply (Permutation_in (l := [x1; x2; x3])).
      - apply (Permutation_map snd) in Hperm. exact Hperm.
      - right. right. now left. }
    destruct Hin as [<-|[<-|[<-|[]]]]; assumption. }
  assert (ET : pd_sum (map snd [(j1, Fin x1); (j2, Fin x2); (j3, Fin x3)])
               = Fin (0 + x1 + x2 + x3)) by reflexivity.
  assert (HT0 : (0 <= 0 + x1 + x2 + x3)%Q) by lra.
  split; [cbn [fst] | cbn [snd]].
  { rewrite ET. set (T := (0 + x1 + x2 + x3)%Q) in *.
    cbn [map snd fst].
    destruct (Qeq_dec T 0) as [E0|NE].
    - assert (Z1 : (x1 == 0)%Q) by (subst T; lra).
      assert (Z2 : (x2 == 0)%Q) by (subst T; lra).
      assert (Z3 : (x3 == 0)%Q) by (subst T; lra).
      assert (N : forall x, (x == 0)%Q -> Fin x / Fin T * of_Z 100 = NaN).
      { intros x Hx. rewrite fdiv_by_zero by exact E0.
        unfold signed_inf. apply Qeq_alt in Hx. now rewrite Hx. }
      rewrite (N x1 Z1), (N x2 Z2), (N x3 Z3).
      cbn [ParetoAnalysis.cumsum_skipna is_nan combine map fst snd].
      do 3 eexists. split; [reflexivity|].
      cbn [map ParetoAnalysis.Kayip_Turu ParetoAnalysis.Toplam_Saat
           ParetoAnalysis.Kritiklik ParetoAnalysis.loss_Kumulatif_Yuzde fle].
      split; [apply (Permutation_map fst) in Hperm; exact Hperm|].
      split; [now apply Qle_bool_iff|]. split; [now apply Qle_bool_iff|].
      split; [discriminate | reflexivity].
    - assert (HT : (0 < T)%Q) by (subst T; lra).
      assert (ET0 : Qeq_bool T 0 = false) by (apply Qeq_bool_false; exact NE).
      assert (P : forall x, Fin x / Fin T * of_Z 100 = Fin (x / T * 100)).
      { intros x. unfold of_Z. cbn [fdiv]. rewrite ET0. reflexivity. }
      rewrite !P.
      cbn [ParetoAnalysis.cumsum_skipna is_nan fadd combine map fst snd].
      do 3 eexists. split; [reflexivity|].
      cbn [map ParetoAnalysis.Kayip_Turu ParetoAnalysis.Toplam_Saat
           ParetoAnalysis.Kritiklik ParetoAnalysis.loss_Kumulatif_Yuzde fle].
      split; [apply (Permutation_map fst) in Hperm; exact Hperm|].
      split; [now apply Qle_bool_iff|]. split; [now apply Qle_bool_iff|].
      destruct (sorted_shares x1 x2 x3 H3 H32 H21 HT) as [S2 S3].
      fold T in S2, S3. cbv zeta beta in S2, S3.
      split; [now apply (proj1 (kritiklik_of_above _))|].
      apply (proj2 (kritiklik_of_above _)). lra. }
  rewrite ET. set (T := (0 + x1 + x2 + x3)%Q) in *.
  cbn [ParetoAnalysis.toplam_kayip_saat ParetoAnalysis.ort_motor_basi_kayip round].
  split.
  - eexists. split; [reflexivity|]. now apply Qround_nd_nonneg.
  - unfold finite_time_rows. rewrite length_map. unfold of_nat.
    destruct rows as [|row rows].
    + split; [reflexivity | intros _].
      assert (ZT : (T == 0)%Q).
      { rewrite Hsum. subst A B C. unfold Qsum. cbn. ring. }
      rewrite fdiv_by_zero by reflexivity.
      unfold signed_inf. apply Qeq_alt in ZT. now rewrite ZT.
    + cbn [fdiv]. rewrite inject_nat_nonzero by (cbn [length]; lia).
      split; intros; discriminate.
Qed.

Lemma time_loss_table_bands_witness :
  (forall a b c, In (a, b, c) [(2, 1, 4); (1, 0, 3)] -> (0 <= a /\ 0 <= b /\ 0 <= c)%Q) /\
  exists r1 r2 r3,
    fst (ParetoAnalysis.analyze_time_losses
           (finite_time_rows [(2, 1, 4); (1, 0, 3)])) = [r1; r2; r3] /\
    ParetoAnalysis.Kritiklik r2 <> ParetoAnalysis.Kritik /\
    ParetoAnalysis.Kritiklik r3 = ParetoAnalysis.Dusuk.
Proof.
  assert (H : forall a b c, In (a, b, c) [(2, 1, 4); (1, 0, 3)] ->
                            (0 <= a /\ 0 <= b /\ 0 <= c)%Q).
  { intros a b c [E|[E|[]]]; inversion E; subst; repeat split;
      apply Qle_bool_imp_le; reflexivity. }
  split; [exact H|].
  destruct (proj1 (time_loss_table_bands [(2, 1, 4); (1, 0, 3)] H))
    as (r1 & r2 & r3 & E & _ & _ & _ & H2 & H3).
  exists r1, r2, r3. split; [exact E|]. split; [exact H2 | exact H3].
Defined.
